(** * whatidid: discovery and clustering engines, embedded and verified

    A shallow embedding of the parts of the whatidid CLI that carry its
    algorithmic content:
    - [src/domain/grouping.ts]: title similarity, feature merging and the
      agglomerative clustering loop;
    - the GitHub client (branch and date predicates, repository filters,
      the throttling retry loop of [request], the dedup and sort tail of
      [fetchAllMergedPRs]);
    - [src/cache.ts]: key generation, versioned and TTL-bound reads.

    Conventions of the embedding.
    - JavaScript strings are sequences of UTF-16 code units; the development
      covers strings whose code units are below 256, which is what Rocq's
      [string] (a list of 8-bit [ascii]) holds. On that range [toLowerCase],
      [\w] and [\s] are closed and are written out below.
    - JavaScript numbers that the code only uses as counts, lengths, epoch
      milliseconds or PR numbers are integers ([nat], [Z]). The similarity
      scores are doubles in the source. [Grouping] idealises them as exact
      rationals ([Q]), with the source's literals 0.6, 0.4 and 0.5 read as
      6/10, 4/10 and 5/10; [Grouping64] has the same functions with every
      operation rounded as the platform rounds it ([Number]).
    - [NaN] and [Invalid Date] are [None].
    - Platform services (the clock, the HTTP server, the date parser, the
      local time zone, the collation order) are Section variables. *)

From Stdlib Require Import ZArith QArith Qround Qabs Qpower Bool Lia Lqa.
From Stdlib Require Floats.SpecFloat.
From Stdlib Require Import Strings.Ascii Strings.String.
From Stdlib Require Import Sorting.Sorted Sorting.Permutation.
From Stdlib Require Import DecimalString DecimalZ HexadecimalString.
From stdpp Require Import base tactics option list gmap strings.

Local Open Scope string_scope.
Local Open Scope list_scope.

(** ** JavaScript primitives used by the program *)

Module JS.

(** [s.charCodeAt(i)] of one code unit. *)
Definition charCode (c : ascii) : nat := nat_of_ascii c.

Definition inRange (lo hi n : nat) : bool := Nat.leb lo n && Nat.leb n hi.

(** [String.prototype.toLowerCase] on one code unit below 256: the Basic
    Latin capitals and the Latin-1 capitals U+00C0..U+00DE, the
    multiplication sign U+00D7 excepted, move up by 32. *)
Definition lowerChar (c : ascii) : ascii :=
  let n := charCode c in
  if inRange 65 90 n || (inRange 192 222 n && negb (Nat.eqb n 215))
  then ascii_of_nat (n + 32) else c.

Fixpoint toLowerCase (s : string) : string :=
  match s with
  | EmptyString => EmptyString
  | String c r => String (lowerChar c) (toLowerCase r)
  end.

(** The regular-expression class [\w]: [A-Za-z0-9_]. *)
Definition isWordChar (c : ascii) : bool :=
  let n := charCode c in
  inRange 65 90 n || inRange 97 122 n || inRange 48 57 n || Nat.eqb n 95.

(** The regular-expression class [\s] below 256: TAB, LF, VT, FF, CR,
    SPACE and NO-BREAK SPACE. *)
Definition isSpace (c : ascii) : bool :=
  let n := charCode c in
  inRange 9 13 n || Nat.eqb n 32 || Nat.eqb n 160.

(** [s.replace(/[^\w\s]/g, ' ')]. *)
Fixpoint replaceNonWord (s : string) : string :=
  match s with
  | EmptyString => EmptyString
  | String c r =>
      String (if isWordChar c || isSpace c then c else " "%char)
             (replaceNonWord r)
  end.

(** [s.split(/\s+/)]: the pieces between maximal runs of white space,
    empty pieces at either end included, and [[""]] for the empty string.
    [cur] is the piece being read, [inRun] tells that the previous code
    unit was white space. *)
Fixpoint splitGo (s : string) (cur : string) (inRun : bool) : list string :=
  match s with
  | EmptyString => [cur]
  | String c r =>
      if isSpace c
      then (if inRun then splitGo r cur true
            else cur :: splitGo r EmptyString true)
      else splitGo r (cur +:+ String c EmptyString) false
  end.

Definition splitSpaces (s : string) : list string := splitGo s EmptyString false.

(** [s.startsWith(p)]. *)
Definition startsWith (p s : string) : bool := String.prefix p s.

(** [s.split('/')[0]]: the part before the first slash (always defined). *)
Fixpoint beforeSlash (s : string) : string :=
  match s with
  | EmptyString => EmptyString
  | String c r => if Ascii.eqb c "/"%char then EmptyString else String c (beforeSlash r)
  end.

(** [arr.includes(x)] on an array of strings. *)
Definition includes (x : string) (arr : list string) : bool :=
  existsb (String.eqb x) arr.

(** [new Set(arr)] as the list of its elements in insertion order: the
    first occurrence of every value is kept. *)
Section SetOf.
Context {A : Type} (eqbA : A -> A -> bool).

Definition has (x : A) (s : list A) : bool := existsb (eqbA x) s.

Definition add (s : list A) (x : A) : list A :=
  if has x s then s else s ++ [x].

Definition newSet (arr : list A) : list A := fold_left add arr [].
End SetOf.

(** [arr.sort(cmp)]: the sort is stable, and a comparator result of [NaN]
    counts as 0. For a comparator that is a consistent ordering the result
    is the stable sorted arrangement, which insertion from the right
    computes. [cmp a b = None] is [NaN]. *)
Section Sort.
Context {A : Type} (cmp : A -> A -> option Z).

Definition after (a b : A) : bool :=
  match cmp a b with
  | Some v => Z.ltb 0 v
  | None => false
  end.

Fixpoint insertSorted (x : A) (l : list A) : list A :=
  match l with
  | [] => [x]
  | y :: r => if after x y then y :: insertSorted x r else x :: y :: r
  end.

Definition sort (l : list A) : list A := foldr insertSorted [] l.
End Sort.

(** [a - b] on two numbers that may be [NaN]. *)
Definition minus (a b : option Z) : option Z :=
  match a, b with
  | Some x, Some y => Some (x - y)%Z
  | _, _ => None
  end.

(** Relational operators on numbers (or Dates) that may be [NaN]: any
    comparison with [NaN] is false. *)
Definition lt (a b : option Z) : bool :=
  match a, b with Some x, Some y => Z.ltb x y | _, _ => false end.
Definition gt (a b : option Z) : bool := lt b a.
Definition le (a b : option Z) : bool :=
  match a, b with Some x, Some y => Z.leb x y | _, _ => false end.
Definition ge (a b : option Z) : bool := le b a.

(** [String(n)] for an integer [n] (of magnitude below 1e21). *)
Definition numberToString (n : Z) : string :=
  DecimalString.NilEmpty.string_of_int (Z.to_int n).

(** [n.toString(16)] for a non-negative integer. *)
Definition toString16 (n : Z) : string :=
  HexadecimalString.NilEmpty.string_of_uint (N.to_hex_uint (Z.to_N n)).

(** [ToInt32]: reduction modulo 2^32 into [-2^31, 2^31). *)
Definition toInt32 (n : Z) : Z :=
  ((n + 2147483648) mod 4294967296 - 2147483648)%Z.

(** [s.trim()]: white space and line terminators (below 256, the class
    [\s]) are removed from both ends. *)
Fixpoint trimStart (s : string) : string :=
  match s with
  | EmptyString => EmptyString
  | String c r => if isSpace c then trimStart r else s
  end.

Fixpoint trimEnd (s : string) : string :=
  match s with
  | EmptyString => EmptyString
  | String c r =>
      let r' := trimEnd r in
      if isSpace c && String.eqb r' EmptyString then EmptyString else String c r'
  end.

Definition trim (s : string) : string := trimEnd (trimStart s).

(** The line feed of a string literal's [\n]. *)
Definition nl : string := String (ascii_of_nat 10) EmptyString.

(** [s.split(sep)] for a one-character separator: the pieces between the
    occurrences of [sep], empty pieces included, and [[""]] for the empty
    string. [cur] is the piece being read. *)
Fixpoint splitAt (sep : ascii) (s : string) (cur : string) : list string :=
  match s with
  | EmptyString => [cur]
  | String c r =>
      if Ascii.eqb c sep then cur :: splitAt sep r EmptyString
      else splitAt sep r (cur +:+ String c EmptyString)
  end.

Definition split (sep : ascii) (s : string) : list string := splitAt sep s EmptyString.

End JS.

(** ** Numbers

    A JavaScript number is an IEEE 754 binary64 value. The finite ones are
    rationals, and an operation returns the exact result rounded to the
    nearest number with a significand of 53 bits, to the one with the even
    significand when two are as near. The exponent range is left out
    (overflow to [Infinity], subnormal numbers): the numbers of this program
    are sizes, lengths, their quotients and sums of two of those. *)

Module Number.

(** [floor (log2 x)] of a positive [x]. *)
Definition exponent (x : Q) : Z :=
  let e := (Z.log2 (Qnum x) - Z.log2 (Z.pos (Qden x)))%Z in
  if Qle_bool (2 ^ e) x then e else (e - 1)%Z.

(** The integer nearest to [x], the even one of the two when [x] is half
    way between them. *)
Definition nearestEven (x : Q) : Z :=
  let below := Qfloor x in
  match (x - inject_Z below ?= 1 # 2)%Q with
  | Lt => below
  | Gt => (below + 1)%Z
  | Eq => if Z.even below then below else (below + 1)%Z
  end.

(** A positive [x] lies in [[2^e, 2^(e+1))] for [e = exponent x]; the
    numbers with a significand of 53 bits around it are the multiples of
    [2^(e - 52)]. *)
Definition roundPositive (x : Q) : Q :=
  let ulp := (2 ^ (exponent x - 52))%Q in
  (inject_Z (nearestEven (x / ulp)) * ulp)%Q.

(** Argument and result in lowest terms, so that equal numbers are the same
    term. *)
Definition round (x : Q) : Q :=
  let x := Qred x in
  Qred (match Qnum x with
        | Z0 => 0
        | Zpos _ => roundPositive x
        | Zneg _ => - roundPositive (- x)
        end)%Q.

(** [x + y], [x - y], [x * y] and [x / y] (for [y] other than 0). *)
Definition add (x y : Q) : Q := round (x + y).
Definition sub (x y : Q) : Q := round (x - y).
Definition mul (x y : Q) : Q := round (x * y).
Definition div (x y : Q) : Q := round (x / y).

(** A decimal literal of the source text denotes the number nearest to it. *)
Definition literal (decimal : Q) : Q := round decimal.


(** The value of a finite number of the Standard Library's IEEE 754
    reference, and its binary64 operations. *)
Definition ofSpecFloat (x : SpecFloat.spec_float) : option Q :=
  match x with
  | SpecFloat.S754_zero _ => Some 0%Q
  | SpecFloat.S754_finite negative m e =>
      Some (Qred ((if negative then - inject_Z (Z.pos m) else inject_Z (Z.pos m)) * 2 ^ e))%Q
  | _ => None
  end.

Definition ieeeOfNat (n : positive) : SpecFloat.spec_float :=
  SpecFloat.S754_finite false n 0.
Definition ieeeAdd := SpecFloat.SFadd 53 1024.
Definition ieeeSub := SpecFloat.SFsub 53 1024.
Definition ieeeMul := SpecFloat.SFmul 53 1024.
Definition ieeeDiv := SpecFloat.SFdiv 53 1024.

End Number.

(** ** [node:path], POSIX flavour

    [path.join] joins its non-empty arguments with [/] and normalises the
    result: empty segments and [.] are dropped, [..] removes the segment
    before it (and is kept at the front of a relative path), a leading and
    a trailing [/] are kept. *)

Module Path.

(** One segment of [normalizeString]; [stack] holds the segments kept so
    far, the last one first. *)
Definition step (allowAboveRoot : bool) (stack : list string) (segment : string)
  : list string :=
  if String.eqb segment "" || String.eqb segment "." then stack
  else if String.eqb segment ".." then
    match stack with
    | top :: below =>
        if String.eqb top ".." then (if allowAboveRoot then ".." :: stack else stack)
        else below
    | [] => if allowAboveRoot then [".."] else []
    end
  else segment :: stack.

Definition isAbsolute (path : string) : bool := JS.startsWith "/" path.

Definition trailingSeparator (path : string) : bool :=
  match rev (list_ascii_of_string path) with
  | c :: _ => Ascii.eqb c "/"
  | [] => false
  end.

Definition segments (path : string) : list string :=
  rev (fold_left (step (negb (isAbsolute path))) (JS.split "/" path) []).

Definition normalize (path : string) : string :=
  if String.eqb path "" then "."
  else
    let body := String.concat "/" (segments path) in
    if String.eqb body "" then
      if isAbsolute path then "/" else if trailingSeparator path then "./" else "."
    else
      (if isAbsolute path then "/" else "") +:+ body
      +:+ (if trailingSeparator path then "/" else "").

Definition join (args : list string) : string :=
  match List.filter (fun arg => Nat.ltb 0 (String.length arg)) args with
  | [] => "."
  | parts => normalize (String.concat "/" parts)
  end.

End Path.


(** ** Domain model ([src/domain/models.ts]) *)

Inductive FeatureType := feature | enhancement | bugfix | infra | refactor.

Inductive ConfidenceLevel := high | medium | low.

#[global] Instance FeatureType_eq_dec : EqDecision FeatureType.
Proof. solve_decision. Defined.

#[global] Instance ConfidenceLevel_eq_dec : EqDecision ConfidenceLevel.
Proof. solve_decision. Defined.

Record Feature := mkFeature {
  project : string;
  title : string;
  description : string;
  type : FeatureType;
  prs : list Z;
  startDate : string;
  endDate : string;
  confidence : ConfidenceLevel
}.

Record Commit := mkCommit {
  sha : string;
  message : string;
  author : string;
  date : string
}.

(** The [title] of a pull request is [prTitle] here, [title] being the field
    of [Feature]. *)
Record PullRequest := mkPullRequest {
  number : Z;
  prTitle : string;
  body : option string;
  url : string;
  repoName : string;
  repoFullName : string;
  baseBranch : string;
  createdAt : string;
  mergedAt : string;
  commits : list Commit
}.

(** What the code reads of a [GitHubPullRequest] of the REST API
    ([user_login] is [user.login], [base_ref] is [base.ref]). *)
Module GitHubPullRequest.
Record t := mk {
  number : Z;
  title : string;
  body : option string;
  html_url : string;
  user_login : string;
  base_ref : string;
  created_at : string;
  merged_at : option string
}.
End GitHubPullRequest.

Module ProjectSummary.
Record t := mk {
  repoName : string;
  repoFullName : string;
  features : list Feature;
  startDate : string;
  endDate : string;
  totalPRs : nat
}.
End ProjectSummary.

(** The result of [calculateStats]; [featuresByType] is an object used as a
    map, its keys in insertion order. *)
Module Stats.
Record t := mk {
  totalPRs : nat;
  totalFeatures : nat;
  featuresByType : list (FeatureType * nat)
}.
End Stats.

(** ** Feature grouping ([src/domain/grouping.ts]) *)

Module Grouping.

(** The local [normalize] of [calculateSimilarity]. *)
Definition normalize (s : string) : list string :=
  List.filter (fun word => Nat.ltb 2 (String.length word))
    (JS.splitSpaces (JS.replaceNonWord (JS.toLowerCase s))).

Definition ofNat (n : nat) : Q := inject_Z (Z.of_nat n).

Definition calculateSimilarity (str1 str2 : string) : Q :=
  let tokens1 := JS.newSet String.eqb (normalize str1) in
  let tokens2 := JS.newSet String.eqb (normalize str2) in
  if Nat.eqb (length tokens1) 0 || Nat.eqb (length tokens2) 0 then 0%Q
  else
    let intersection :=
      JS.newSet String.eqb
        (List.filter (fun x => JS.has String.eqb x tokens2) tokens1) in
    let union := JS.newSet String.eqb (tokens1 ++ tokens2) in
    (ofNat (length intersection) / ofNat (length union))%Q.

(** The matrix [dp] of [levenshteinDistance], read with [dp[i]![j]!] and
    written with [dp[i]![j] = v]. All accesses of the source are in range. *)
Definition mget (dp : list (list nat)) (i j : nat) : nat :=
  default 0 (dp !! i ≫= (.!! j)).

Definition mset (dp : list (list nat)) (i j v : nat) : list (list nat) :=
  alter (fun row => <[j := v]> row) i dp.

Definition charAt (s : string) (i : nat) : option ascii := String.get i s.

Definition min3 (a b c : nat) : nat := Nat.min (Nat.min a b) c.

(** One assignment of the inner loop. *)
Definition fillCell (str1 str2 : string) (i : nat) (dp : list (list nat)) (j : nat)
  : list (list nat) :=
  let cost := if bool_decide (charAt str1 (i - 1) = charAt str2 (j - 1)) then 0 else 1 in
  mset dp i j
    (min3 (mget dp (i - 1) j + 1) (mget dp i (j - 1) + 1) (mget dp (i - 1) (j - 1) + cost)).

Definition levenshteinDistance (str1 str2 : string) : nat :=
  let m := String.length str1 in
  let n := String.length str2 in
  let dp0 := replicate (m + 1) (replicate (n + 1) 0) in
  let dp1 := fold_left (fun dp i => mset dp i 0 i) (seq 0 (m + 1)) dp0 in
  let dp2 := fold_left (fun dp j => mset dp 0 j j) (seq 0 (n + 1)) dp1 in
  let dp3 :=
    fold_left (fun dp i => fold_left (fillCell str1 str2 i) (seq 1 n) dp)
      (seq 1 m) dp2 in
  mget dp3 m n.

Definition levenshteinSimilarity (str1 str2 : string) : Q :=
  let maxLen := Nat.max (String.length str1) (String.length str2) in
  if Nat.eqb maxLen 0 then 1%Q
  else
    let distance := levenshteinDistance (JS.toLowerCase str1) (JS.toLowerCase str2) in
    (1 - ofNat distance / ofNat maxLen)%Q.

Definition featureSimilarity (f1 f2 : Feature) : Q :=
  if negb (String.eqb (project f1) (project f2)) then 0%Q
  else if negb (bool_decide (type f1 = type f2)) then 0%Q
  else
    let tokenSim := calculateSimilarity (title f1) (title f2) in
    let levenSim := levenshteinSimilarity (title f1) (title f2) in
    (tokenSim * (6 # 10) + levenSim * (4 # 10))%Q.

Section WithDates.
(** [new Date(s).getTime()], [None] for an invalid date. *)
Variable Date_parse : string -> option Z.

Definition mergeFeatures (f1 f2 : Feature) : Feature :=
  let base :=
    if bool_decide (confidence f1 = high) || bool_decide (confidence f2 = low)
    then f1 else f2 in
  let allPRs :=
    JS.sort (fun a b => Some (a - b)%Z) (JS.newSet Z.eqb (prs f1 ++ prs f2)) in
  let startDate' :=
    if JS.lt (Date_parse (startDate f1)) (Date_parse (startDate f2))
    then startDate f1 else startDate f2 in
  let endDate' :=
    if JS.gt (Date_parse (endDate f1)) (Date_parse (endDate f2))
    then endDate f1 else endDate f2 in
  let confidence' :=
    if negb (bool_decide (confidence f1 = confidence f2)) then medium
    else confidence base in
  {| project := project base;
     title := title base;
     description := description base;
     type := type base;
     prs := allPRs;
     startDate := startDate';
     endDate := endDate';
     confidence := confidence' |}.

(** The inner [while (i < remaining.length)] loop of
    [mergeSimilarFeatures]: a candidate that is similar enough is merged
    into [current] and spliced out, the others stay, in order. Returns
    the final [current] and what is left of [remaining]. *)
Fixpoint scan (similarityThreshold : Q) (current : Feature) (remaining : list Feature)
  : Feature * list Feature :=
  match remaining with
  | [] => (current, [])
  | candidate :: rest =>
      if Qle_bool similarityThreshold (featureSimilarity current candidate)
      then scan similarityThreshold (mergeFeatures current candidate) rest
      else
        let (current', rest') := scan similarityThreshold current rest in
        (current', candidate :: rest')
  end.

(** The outer [while (remaining.length > 0)] loop; every round removes
    at least the pivot, so [length remaining] rounds are enough. *)
Fixpoint cluster (fuel : nat) (similarityThreshold : Q) (remaining : list Feature)
  : list Feature :=
  match fuel, remaining with
  | S fuel', pivot :: rest =>
      let (current, rest') := scan similarityThreshold pivot rest in
      current :: cluster fuel' similarityThreshold rest'
  | _, _ => []
  end.

Definition mergeSimilarFeatures (features : list Feature) (similarityThreshold : Q)
  : list Feature :=
  if Nat.leb (length features) 1 then features
  else cluster (length features) similarityThreshold features.

(** The default value of the [similarityThreshold] parameter. *)
Definition defaultThreshold : Q := 5 # 10.

(** [groups.get(feature.project)] followed by [existing.push(feature)], or
    by [groups.set(feature.project, [feature])] for a new key: [groups] is a
    [Map], an association list in insertion order. *)
Fixpoint groupPush (groups : list (string * list Feature)) (feature : Feature)
  : list (string * list Feature) :=
  match groups with
  | [] => [(project feature, [feature])]
  | (key, existing) :: rest =>
      if String.eqb key (project feature) then (key, existing ++ [feature]) :: rest
      else (key, existing) :: groupPush rest feature
  end.

Definition groupByRepository (features : list Feature) : list (string * list Feature) :=
  fold_left groupPush features [].

Definition sortFeatures (features : list Feature) : list Feature :=
  JS.sort (fun a b => JS.minus (Date_parse (endDate a)) (Date_parse (endDate b))) features.

(** One round of the loop over [sortedFeatures] in [groupFeatures]:
    [startDate], [endDate] and the set [allPRs]. An empty string is falsy. *)
Definition rangeStep (acc : string * string * list Z) (feature : Feature)
  : string * string * list Z :=
  let '(startDate', endDate', allPRs) := acc in
  (if String.eqb startDate' ""
      || JS.lt (Date_parse (startDate feature)) (Date_parse startDate')
   then startDate feature else startDate',
   if String.eqb endDate' ""
      || JS.gt (Date_parse (endDate feature)) (Date_parse endDate')
   then endDate feature else endDate',
   fold_left (JS.add Z.eqb) (prs feature) allPRs).

(** The body of the loop over [repoGroups]. *)
Definition summaryOf (group : string * list Feature) : ProjectSummary.t :=
  let (repoFullName, repoFeatures) := group in
  let mergedFeatures := mergeSimilarFeatures repoFeatures defaultThreshold in
  let sortedFeatures := sortFeatures mergedFeatures in
  let '(startDate', endDate', allPRs) := fold_left rangeStep sortedFeatures ("", "", []) in
  let repoName :=
    match JS.split "/" repoFullName with
    | _ :: second :: _ => second
    | _ => repoFullName
    end in
  ProjectSummary.mk repoName repoFullName sortedFeatures startDate' endDate' (length allPRs).

Definition groupFeatures (features : list Feature) : list ProjectSummary.t :=
  JS.sort
    (fun a b =>
       JS.minus (Date_parse (ProjectSummary.startDate a))
                (Date_parse (ProjectSummary.startDate b)))
    (map summaryOf (groupByRepository features)).

End WithDates.

(** [featuresByType[type] = (featuresByType[type] ?? 0) + 1]. *)
Fixpoint countType (byType : list (FeatureType * nat)) (ty : FeatureType)
  : list (FeatureType * nat) :=
  match byType with
  | [] => [(ty, 1)]
  | (key, count) :: rest =>
      if bool_decide (key = ty) then (key, count + 1) :: rest
      else (key, count) :: countType rest ty
  end.

Definition calculateStats (summaries : list ProjectSummary.t) : Stats.t :=
  fold_left
    (fun stats summary =>
       Stats.mk
         (Stats.totalPRs stats + ProjectSummary.totalPRs summary)
         (Stats.totalFeatures stats + length (ProjectSummary.features summary))
         (fold_left (fun byType feature => countType byType (type feature))
            (ProjectSummary.features summary) (Stats.featuresByType stats)))
    summaries (Stats.mk 0 0 []).

End Grouping.

(** ** [src/domain/grouping.ts] in the arithmetic of the platform

    The similarity functions and the clustering loop once more, with the
    source's [/], [-], [*] and [+] as operations on numbers. A size or a
    length is an integer far below [2^53], hence a number as it stands. *)

Module Grouping64.

Definition calculateSimilarity (str1 str2 : string) : Q :=
  let tokens1 := JS.newSet String.eqb (Grouping.normalize str1) in
  let tokens2 := JS.newSet String.eqb (Grouping.normalize str2) in
  if Nat.eqb (length tokens1) 0 || Nat.eqb (length tokens2) 0 then 0%Q
  else
    let intersection :=
      JS.newSet String.eqb
        (List.filter (fun x => JS.has String.eqb x tokens2) tokens1) in
    let union := JS.newSet String.eqb (tokens1 ++ tokens2) in
    Number.div (Grouping.ofNat (length intersection)) (Grouping.ofNat (length union)).

Definition levenshteinSimilarity (str1 str2 : string) : Q :=
  let maxLen := Nat.max (String.length str1) (String.length str2) in
  if Nat.eqb maxLen 0 then 1%Q
  else
    let distance :=
      Grouping.levenshteinDistance (JS.toLowerCase str1) (JS.toLowerCase str2) in
    Number.sub 1 (Number.div (Grouping.ofNat distance) (Grouping.ofNat maxLen)).

Definition featureSimilarity (f1 f2 : Feature) : Q :=
  if negb (String.eqb (project f1) (project f2)) then 0%Q
  else if negb (bool_decide (type f1 = type f2)) then 0%Q
  else
    let tokenSim := calculateSimilarity (title f1) (title f2) in
    let levenSim := levenshteinSimilarity (title f1) (title f2) in
    Number.add (Number.mul tokenSim (Number.literal (6 # 10)))
               (Number.mul levenSim (Number.literal (4 # 10))).

Section WithDates.
Variable Date_parse : string -> option Z.

(** The two loops of [mergeSimilarFeatures], as in [Grouping]. *)
Fixpoint scan (similarityThreshold : Q) (current : Feature) (remaining : list Feature)
  : Feature * list Feature :=
  match remaining with
  | [] => (current, [])
  | candidate :: rest =>
      if Qle_bool similarityThreshold (featureSimilarity current candidate)
      then scan similarityThreshold (Grouping.mergeFeatures Date_parse current candidate) rest
      else
        let (current', rest') := scan similarityThreshold current rest in
        (current', candidate :: rest')
  end.

Fixpoint cluster (fuel : nat) (similarityThreshold : Q) (remaining : list Feature)
  : list Feature :=
  match fuel, remaining with
  | S fuel', pivot :: rest =>
      let (current, rest') := scan similarityThreshold pivot rest in
      current :: cluster fuel' similarityThreshold rest'
  | _, _ => []
  end.

Definition mergeSimilarFeatures (features : list Feature) (similarityThreshold : Q)
  : list Feature :=
  if Nat.leb (length features) 1 then features
  else cluster (length features) similarityThreshold features.

End WithDates.

(** The default value of the [similarityThreshold] parameter. *)
Definition defaultThreshold : Q := Number.literal (5 # 10).

End Grouping64.

(** ** Summaries by the language model ([src/llm/summarizer.ts]) *)

Module Summarizer.

(** [Omit<Feature, 'project' | 'prs' | 'startDate' | 'endDate'>]. *)
Record Parsed := mkParsed {
  title : string;
  description : string;
  type : FeatureType;
  confidence : ConfidenceLevel
}.

(** An object of the model's JSON answer; an absent field is [None]. *)
Record Item := mkItem {
  pr_number : option Z;
  item_title : option string;
  item_description : option string;
  item_type : option string;
  item_confidence : option string
}.

(** [validTypes.includes(t) ? t : 'feature'] and
    [validConfidence.includes(c) ? c : 'medium']. *)
Definition typeOf (t : option string) : FeatureType :=
  match t with
  | Some s =>
      if String.eqb s "feature" then feature
      else if String.eqb s "enhancement" then enhancement
      else if String.eqb s "bugfix" then bugfix
      else if String.eqb s "infra" then infra
      else if String.eqb s "refactor" then refactor
      else feature
  | None => feature
  end.

Definition confidenceOf (c : option string) : ConfidenceLevel :=
  match c with
  | Some s =>
      if String.eqb s "high" then high
      else if String.eqb s "medium" then medium
      else if String.eqb s "low" then low
      else medium
  | None => medium
  end.

(** [a || b] on strings. *)
Definition orElse (a : option string) (b : string) : string :=
  match a with
  | Some s => if String.eqb s "" then b else s
  | None => b
  end.

(** [new Map<number, ...>]: [set] replaces the value of a key in place. *)
Fixpoint mapSet (m : list (Z * Parsed)) (key : Z) (value : Parsed) : list (Z * Parsed) :=
  match m with
  | [] => [(key, value)]
  | (k, v) :: rest =>
      if Z.eqb k key then (k, value) :: rest else (k, v) :: mapSet rest key value
  end.

Fixpoint mapGet (m : list (Z * Parsed)) (key : Z) : option Parsed :=
  match m with
  | [] => None
  | (k, v) :: rest => if Z.eqb k key then Some v else mapGet rest key
  end.

Definition fallbackDescription (pr : PullRequest) : string :=
  "Merged PR #" +:+ JS.numberToString (number pr) +:+ ": " +:+ prTitle pr.

Definition createFallbackFeature (pr : PullRequest) : Feature :=
  mkFeature (repoFullName pr) (prTitle pr) (fallbackDescription pr) feature [number pr]
    (createdAt pr) (mergedAt pr) low.

(** [{ ...parsed, project, prs, startDate, endDate }]. *)
Definition withPR (parsed : Parsed) (pr : PullRequest) : Feature :=
  mkFeature (repoFullName pr) (title parsed) (description parsed) (type parsed) [number pr]
    (createdAt pr) (mergedAt pr) (confidence parsed).

Section Model.
(** The outcome of the [k]-th call of [client.complete] of the run ([None]
    when it throws), and the reading of an answer: trimmed, taken out of
    its code block, parsed as JSON. [readObject] is [None] when parsing, or
    reading a field of the value, throws; [readArray] is [None] when parsing
    throws or the value is not an array, and an element of the array whose
    fields cannot be read is [None]. *)
Variable complete : nat -> option string.
Variable readObject : string -> option Item.
Variable readArray : string -> option (list (option Item)).

Definition parseFeatureResponse (response : string) (pr : PullRequest) : Parsed :=
  match readObject response with
  | Some parsed =>
      mkParsed (orElse (item_title parsed) (prTitle pr))
        (orElse (item_description parsed) (fallbackDescription pr))
        (typeOf (item_type parsed)) (confidenceOf (item_confidence parsed))
  | None => mkParsed (prTitle pr) (fallbackDescription pr) feature low
  end.

(** The loop [for (const item of parsed)]: an element that cannot be read
    throws, which ends the loop with the entries set so far. *)
Fixpoint collect (results : list (Z * Parsed)) (parsed : list (option Item))
  : list (Z * Parsed) :=
  match parsed with
  | [] => results
  | None :: _ => results
  | Some item :: rest =>
      match pr_number item with
      | Some n =>
          if Z.eqb n 0 then collect results rest
          else
            collect
              (mapSet results n
                 (mkParsed
                    (orElse (item_title item) ("PR #" +:+ JS.numberToString n))
                    (orElse (item_description item)
                       ("Merged PR #" +:+ JS.numberToString n))
                    (typeOf (item_type item)) (confidenceOf (item_confidence item))))
              rest
      | None => collect results rest
      end
  end.

Definition parseBatchResponse (response : string) (prs : list PullRequest)
  : list (Z * Parsed) :=
  match readArray response with
  | Some parsed => collect [] parsed
  | None => []
  end.

(** [summarize], from the [k]-th call of the model on: the feature and the
    number of calls made so far. *)
Definition summarize (k : nat) (pr : PullRequest) : Feature * nat :=
  match complete k with
  | Some response => (withPR (parseFeatureResponse response pr) pr, S k)
  | None => (createFallbackFeature pr, S k)
  end.

(** [for (const pr of prs) features.push(await this.summarize(pr))]. *)
Fixpoint summarizeEach (k : nat) (prs : list PullRequest) : list Feature * nat :=
  match prs with
  | [] => ([], k)
  | pr :: rest =>
      let (f, k1) := summarize k pr in
      let (fs, k2) := summarizeEach k1 rest in
      (f :: fs, k2)
  end.

Definition summarizeBatch (k : nat) (prs : list PullRequest) : list Feature * nat :=
  match prs with
  | [] => ([], k)
  | [pr] => let (f, k1) := summarize k pr in ([f], k1)
  | _ =>
      match complete k with
      | Some response =>
          let parsedMap := parseBatchResponse response prs in
          (map (fun pr =>
                  match mapGet parsedMap (number pr) with
                  | Some parsed => withPR parsed pr
                  | None => createFallbackFeature pr
                  end) prs,
           S k)
      | None => summarizeEach (S k) prs
      end
  end.

(** [prs.slice(i, i + batchSize)]. *)
Definition slice (i j : nat) (prs : list PullRequest) : list PullRequest :=
  take (j - i) (drop i prs).

(** [for (let i = 0; i < prs.length; i += batchSize) batches.push(...)];
    [None] is reserved for running out of [fuel]. *)
Fixpoint batchesFrom (fuel : nat) (prs : list PullRequest) (batchSize i : nat)
  : option (list (list PullRequest)) :=
  match fuel with
  | O => None
  | S fuel' =>
      if Nat.ltb i (length prs)
      then cons (slice i (i + batchSize) prs) <$> batchesFrom fuel' prs batchSize (i + batchSize)
      else Some []
  end.

(** [for (const batch of batches) features.push(...await summarizeBatch(batch))]. *)
Fixpoint summarizeBatches (k : nat) (batches : list (list PullRequest))
  : list Feature * nat :=
  match batches with
  | [] => ([], k)
  | batch :: rest =>
      let (batchFeatures, k1) := summarizeBatch k batch in
      let (features, k2) := summarizeBatches k1 rest in
      (batchFeatures ++ features, k2)
  end.

Definition summarizePRsBatch (fuel : nat) (k : nat) (prs : list PullRequest)
    (batchSize : nat) : option (list Feature * nat) :=
  batches ← batchesFrom fuel prs batchSize 0;
  Some (summarizeBatches k batches).

End Model.

End Summarizer.

(** ** Dates

    A [Date] is its time value: epoch milliseconds, or [None] for an
    invalid date. *)

Module DateTime.

Local Open Scope Z_scope.

Definition msPerDay : Z := 86400000.

(** Milliseconds into the day of 23:59:59.999. *)
Definition endOfDayTime : Z := 23 * 3600000 + 59 * 60000 + 59 * 1000 + 999.

Section Zone.
(** [LocalTime(t)] and [UTC(t)] of ECMAScript: the conversions between a
    UTC time value and the local one, given by the process's time zone. *)
Variables LocalTime UTC : Z -> Z.

(** [d.setHours(23, 59, 59, 999)]: the day is the LOCAL day of [d]. *)
Definition setHoursEndOfDay (d : option Z) : option Z :=
  match d with
  | Some t => Some (UTC ((LocalTime t / msPerDay) * msPerDay + endOfDayTime)%Z)
  | None => None
  end.
End Zone.

(** A zone at a fixed offset of [offsetMinutes] east of Greenwich. *)
Definition fixedLocalTime (offsetMinutes : Z) (t : Z) : Z := (t + offsetMinutes * 60000)%Z.
Definition fixedUTC (offsetMinutes : Z) (t : Z) : Z := (t - offsetMinutes * 60000)%Z.

(** *** A reader for the two shapes of date string the program handles

    [YYYY-MM-DD] (the validated [--since] and [--until] options; a
    date-only form is UTC midnight) and [YYYY-MM-DDTHH:MM:SS[.sss]Z]
    (GitHub's timestamps). It stands for [new Date(s).getTime()] on those
    shapes; every other string is reported as invalid here. *)

Definition digit (c : ascii) : option Z :=
  let n := nat_of_ascii c in
  if Nat.leb 48 n && Nat.leb n 57 then Some (Z.of_nat (n - 48)) else None.

Fixpoint digits (k : nat) (acc : Z) (l : list ascii) : option (Z * list ascii) :=
  match k with
  | O => Some (acc, l)
  | S k' =>
      match l with
      | c :: r =>
          match digit c with
          | Some v => digits k' (acc * 10 + v)%Z r
          | None => None
          end
      | [] => None
      end
  end.

Definition expect (c : ascii) (l : list ascii) : option (list ascii) :=
  match l with
  | c' :: r => if Ascii.eqb c c' then Some r else None
  | [] => None
  end.

Definition isLeap (y : Z) : bool :=
  (Z.eqb (y mod 4) 0 && negb (Z.eqb (y mod 100) 0)) || Z.eqb (y mod 400) 0.

Definition daysInMonth (y m : Z) : Z :=
  if Z.eqb m 2 then (if isLeap y then 29 else 28)
  else if Z.eqb m 4 || Z.eqb m 6 || Z.eqb m 9 || Z.eqb m 11 then 30 else 31.

(** Days from 1970-01-01 to the civil date [y-m-d] (proleptic Gregorian). *)
Definition daysFromCivil (y m d : Z) : Z :=
  let y' := if Z.leb m 2 then y - 1 else y in
  let era := y' / 400 in
  let yoe := y' - era * 400 in
  let mp := if Z.ltb 2 m then m - 3 else m + 9 in
  let doy := (153 * mp + 2) / 5 + d - 1 in
  let doe := yoe * 365 + yoe / 4 - yoe / 100 + doy in
  era * 146097 + doe - 719468.

Definition makeTime (y mo d h mi s ms : Z) : option Z :=
  if Z.leb 1 mo && Z.leb mo 12 && Z.leb 1 d && Z.leb d (daysInMonth y mo)
     && Z.leb h 23 && Z.leb mi 59 && Z.leb s 59
  then Some (daysFromCivil y mo d * msPerDay + h * 3600000 + mi * 60000 + s * 1000 + ms)
  else None.

Definition parseTimePart (y mo d : Z) (l : list ascii) : option Z :=
  l ← expect "T" l;
  '(h, l) ← digits 2 0 l;
  l ← expect ":" l;
  '(mi, l) ← digits 2 0 l;
  l ← expect ":" l;
  '(s, l) ← digits 2 0 l;
  match l with
  | [z] => if Ascii.eqb z "Z" then makeTime y mo d h mi s 0 else None
  | dot :: l' =>
      if Ascii.eqb dot "." then
        '(ms, l'') ← digits 3 0 l';
        match l'' with
        | [z] => if Ascii.eqb z "Z" then makeTime y mo d h mi s ms else None
        | _ => None
        end
      else None
  | [] => None
  end.

Definition parseISO (s : string) : option Z :=
  let l := list_ascii_of_string s in
  '(y, l) ← digits 4 0 l;
  l ← expect "-" l;
  '(mo, l) ← digits 2 0 l;
  l ← expect "-" l;
  '(d, l) ← digits 2 0 l;
  match l with
  | [] => makeTime y mo d 0 0 0 0
  | _ => parseTimePart y mo d l
  end.

End DateTime.

(** ** The GitHub client ([src/github/client.ts]) *)

Module Client.

Local Open Scope Z_scope.

(** *** Base-branch and date predicates *)

Definition isAllowedBaseBranch (branch : string) : bool :=
  if String.eqb branch "main" || String.eqb branch "master" then true
  else if JS.startsWith "release/" branch then true
  else false.

Section Dates.
Variable Date_parse : string -> option Z.
Variables LocalTime UTC : Z -> Z.

Definition isDateInRange (dateStr since until : string) : bool :=
  let date := Date_parse dateStr in
  let sinceDate := Date_parse since in
  let untilDate := DateTime.setHoursEndOfDay LocalTime UTC (Date_parse until) in
  JS.ge date sinceDate && JS.le date untilDate.
End Dates.

(** *** Options and repository filters *)

Inductive RepoScope := ScopeAll | ScopePersonal | ScopeOrgs.

#[global] Instance RepoScope_eq_dec : EqDecision RepoScope.
Proof. solve_decision. Defined.

(** [GitHubClientOptions]; an absent optional field is [None]. *)
Record GitHubClientOptions := mkOptions {
  cache : option bool;
  scope : option RepoScope;
  repos : option (list string);
  orgs : option (list string);
  excludeRepos : option (list string);
  skipOrgScan : option bool;
  verbose : option bool
}.

(** [arr && arr.length > 0]. *)
Definition nonEmpty (arr : option (list string)) : bool :=
  match arr with
  | Some (_ :: _) => true
  | _ => false
  end.

(** [arr?.includes(x)], read as a condition. *)
Definition optIncludes (arr : option (list string)) (x : string) : bool :=
  match arr with
  | Some l => JS.includes x l
  | None => false
  end.

Definition isOrgRepo (repoFullName username : string) : bool :=
  let owner := JS.toLowerCase (JS.beforeSlash repoFullName) in
  negb (String.eqb owner (JS.toLowerCase username)).

Definition shouldIncludeRepo (options : GitHubClientOptions)
    (repoFullName username : string) : bool :=
  if optIncludes (excludeRepos options) repoFullName then false
  else if bool_decide (scope options = Some ScopePersonal) && isOrgRepo repoFullName username
  then false
  else if negb (bool_decide (scope options = Some ScopePersonal))
          && bool_decide (scope options = Some ScopeOrgs)
          && negb (isOrgRepo repoFullName username)
  then false
  else if nonEmpty (repos options) then optIncludes (repos options) repoFullName
  else if nonEmpty (orgs options) then
    let repoOrg := JS.beforeSlash repoFullName in
    if negb (String.eqb repoOrg "") then optIncludes (orgs options) repoOrg else false
  else true.

(** *** Discovery strategies

    The remote calls are Section variables: [listMergedPRs] is the
    per-repository scan ([None] when it throws), [globalSearch] the list
    that [fetchPRsViaGlobalSearch] has in hand before its final filter
    (from the cache or from the search; [None] when the search throws),
    [listUserOrganizations] and [listOrgRepositories] the two listings,
    which catch their own errors. *)
Section Discovery.
Variable Date_parse : string -> option Z.
Variable options : GitHubClientOptions.
Variable listMergedPRs : string -> string -> string -> string -> option (list PullRequest).
Variable globalSearch : string -> string -> string -> option (list PullRequest).
Variable listUserOrganizations : list string.
Variable listOrgRepositories : string -> list string.

Definition fetchPRsViaGlobalSearch (username since until : string)
  : option (list PullRequest) :=
  pullRequests ← globalSearch username since until;
  Some (List.filter (fun pr => shouldIncludeRepo options (repoFullName pr) username)
          pullRequests).

(** The body of the loop over [uncheckedRepos] and over [repos]: a scan
    that throws, or finds nothing, contributes nothing. *)
Definition scanRepo (username since until repo : string) : list PullRequest :=
  match listMergedPRs username repo since until with
  | Some found => found
  | None => []
  end.

Definition fetchPRsFromOrgRepos (username since until : string)
    (excluded : list string) : list PullRequest :=
  if bool_decide (scope options = Some ScopePersonal) then []
  else if nonEmpty (repos options) then []
  else
    let orgsToCheck :=
      if nonEmpty (orgs options) then default [] (orgs options)
      else listUserOrganizations in
    flat_map
      (fun org =>
         let uncheckedRepos :=
           List.filter
             (fun r => negb (JS.includes r excluded)
                       && shouldIncludeRepo options r username)
             (listOrgRepositories org) in
         flat_map (scanRepo username since until) uncheckedRepos)
      orgsToCheck.

Definition fetchPRsFromSpecificRepos (username since until : string)
  : list PullRequest :=
  if negb (nonEmpty (repos options)) then []
  else
    flat_map
      (fun repo =>
         if optIncludes (excludeRepos options) repo then []
         else scanRepo username since until repo)
      (default [] (repos options)).

(** The strategies' outputs, concatenated: [allPRs] before the dedup. *)
Definition discovered (username since until : string) : option (list PullRequest) :=
  if nonEmpty (repos options)
  then Some (fetchPRsFromSpecificRepos username since until)
  else
    searchPRs ← fetchPRsViaGlobalSearch username since until;
    if negb (default false (skipOrgScan options)) then
      let foundRepos := JS.newSet String.eqb (map repoFullName searchPRs) in
      let orgPRs := fetchPRsFromOrgRepos username since until foundRepos in
      Some (searchPRs ++ orgPRs)
    else Some searchPRs.

(** The key of the [uniquePRs] map. *)
Definition prKey (pr : PullRequest) : string :=
  repoFullName pr +:+ "#" +:+ JS.numberToString (number pr).

(** [uniquePRs] is a [Map]: an association list in insertion order. *)
Definition uniqueAdd (uniquePRs : list (string * PullRequest)) (pr : PullRequest)
  : list (string * PullRequest) :=
  let key := prKey pr in
  if existsb (fun kv => String.eqb key (fst kv)) uniquePRs then uniquePRs
  else uniquePRs ++ [(key, pr)].

Definition byMergedAt (a b : PullRequest) : option Z :=
  JS.minus (Date_parse (mergedAt a)) (Date_parse (mergedAt b)).

(** The tail of [fetchAllMergedPRs], from [allPRs] to the result. *)
Definition dedupAndSort (allPRs : list PullRequest) : list PullRequest :=
  let uniquePRs := fold_left uniqueAdd allPRs [] in
  let result := map snd uniquePRs in
  JS.sort byMergedAt result.

Definition fetchAllMergedPRs (username since until : string)
  : option (list PullRequest) :=
  allPRs ← discovered username since until;
  Some (dedupAndSort allPRs).

End Discovery.

(** *** The scan of one repository ([listMergedPRs]) *)

Section Scan.
Variable Date_parse : string -> option Z.
Variables LocalTime UTC : Z -> Z.
(** [fetchPRCommits], which catches its own errors; the closed pull
    requests of a repository as [fetchAllPages] lists them ([None] when it
    throws); and the fallback [listMergedPRsViaSearch] ([None] when it
    throws). *)
Variable fetchPRCommits : string -> Z -> list Commit.
Variable closedPulls : string -> option (list GitHubPullRequest.t).
Variable listMergedPRsViaSearch :
  string -> string -> string -> string -> bool -> option (list PullRequest).

(** The object pushed for [pr], whose [merged_at] is [merged]. *)
Definition toPullRequest (repoFullName : string) (fetchCommits : bool)
    (pr : GitHubPullRequest.t) (merged : string) : PullRequest :=
  let commits :=
    if fetchCommits then fetchPRCommits repoFullName (GitHubPullRequest.number pr) else [] in
  let repoName :=
    match JS.split "/" repoFullName with
    | _ :: second :: _ => second
    | _ => repoFullName
    end in
  mkPullRequest (GitHubPullRequest.number pr) (GitHubPullRequest.title pr)
    (GitHubPullRequest.body pr) (GitHubPullRequest.html_url pr) repoName repoFullName
    (GitHubPullRequest.base_ref pr) (GitHubPullRequest.created_at pr) merged commits.

(** The loop [for (const pr of allPRs)], with its [continue]s and its
    [break]. *)
Fixpoint scanPulls (username repoFullName since until : string) (fetchCommits : bool)
    (allPRs : list GitHubPullRequest.t) : list PullRequest :=
  match allPRs with
  | [] => []
  | pr :: rest =>
      match GitHubPullRequest.merged_at pr with
      | None => scanPulls username repoFullName since until fetchCommits rest
      | Some merged =>
          if String.eqb merged ""
          then scanPulls username repoFullName since until fetchCommits rest
          else if negb (String.eqb (JS.toLowerCase (GitHubPullRequest.user_login pr))
                                   (JS.toLowerCase username))
          then scanPulls username repoFullName since until fetchCommits rest
          else if negb (isDateInRange Date_parse LocalTime UTC merged since until)
          then
            if JS.lt (Date_parse merged) (Date_parse since) then []
            else scanPulls username repoFullName since until fetchCommits rest
          else if negb (isAllowedBaseBranch (GitHubPullRequest.base_ref pr))
          then scanPulls username repoFullName since until fetchCommits rest
          else toPullRequest repoFullName fetchCommits pr merged
               :: scanPulls username repoFullName since until fetchCommits rest
      end
  end.

Definition listMergedPRs (username repoFullName since until : string)
    (fetchCommits : bool) : option (list PullRequest) :=
  match closedPulls repoFullName with
  | Some allPRs => Some (scanPulls username repoFullName since until fetchCommits allPRs)
  | None => listMergedPRsViaSearch username repoFullName since until fetchCommits
  end.

End Scan.

End Client.

(** ** The request layer: pacing and reactive backoff ([GitHubClient.request]) *)

Module Request.

Local Open Scope Z_scope.

Definition GITHUB_API_BASE : string := "https://api.github.com".

(** What the code reads of a [fetch] response. *)
Record Response := mkResponse {
  status : Z;
  statusText : string;
  headerRemaining : option string;   (* X-RateLimit-Remaining *)
  headerReset : option string;       (* X-RateLimit-Reset *)
  headerLink : option string;        (* Link *)
  errorMessage : option string;      (* [message] of the JSON error body, if it parses *)
  payload : string                   (* the JSON body *)
}.

(** [response.ok]: a status in 200..299. *)
Definition ok (r : Response) : bool := Z.leb 200 (status r) && Z.leb (status r) 299.

Record GitHubClientError := mkError {
  message : string;
  statusCode : Z;
  endpoint : string
}.

Inductive Outcome :=
| Returned (data : string) (link : option string)
| Thrown (e : GitHubClientError).

(** The [options] argument of [request], a [RequestInit]: the code only
    spreads it into the call of [fetch], headers included. *)
Definition RequestInit : Type := list (string * string).

Inductive Event :=
| Slept (ms : option Z)          (* [await sleep(ms)]; [None] is [NaN] *)
| Fetched (url : string) (options : RequestInit).

(** The client's mutable fields and the effects it has had so far. *)
Record State := mkState {
  clockReads : nat;        (* calls of [Date.now()] so far *)
  fetches : nat;           (* calls of [fetch] so far *)
  lastRequestTime : Z;
  requestCount : nat;
  trace : list Event       (* oldest first *)
}.

Definition initial : State := mkState 0 0 0 0 [].

Definition minRequestInterval : Z := 100.

Definition rateLimitMessage : string :=
  "Rate limit exceeded. Please wait and try again later.".

(** [parseInt(s, 10)]: leading white space, an optional sign, then the
    longest run of decimal digits; [None] ([NaN]) when there is no digit. *)
Fixpoint skipSpaces (l : list ascii) : list ascii :=
  match l with
  | c :: r => if JS.isSpace c then skipSpaces r else l
  | [] => []
  end.

Fixpoint digitRun (l : list ascii) (acc : option Z) : option Z :=
  match l with
  | c :: r =>
      match DateTime.digit c with
      | Some v => digitRun r (Some (default 0 acc * 10 + v))
      | None => acc
      end
  | [] => acc
  end.

Definition parseInt (s : string) : option Z :=
  match skipSpaces (list_ascii_of_string s) with
  | c :: r =>
      if Ascii.eqb c "-" then Z.opp <$> digitRun r None
      else if Ascii.eqb c "+" then digitRun r None
      else digitRun (c :: r) None
  | [] => None
  end.

(** [if (rateLimitReset)]: an absent header is [null], and an empty string
    is falsy as well. *)
Definition truthy (header : option string) : bool :=
  match header with
  | Some s => negb (String.eqb s "")
  | None => false
  end.

(** The wait computed from a reset header [s] at the time [now]:
    [min(max(parseInt(s) * 1000 - now + 1000, 1000), 300000)]; [None] is
    the [NaN] that an unreadable header gives. *)
Definition resetWait (s : string) (now : Z) : option Z :=
  match parseInt s with
  | Some seconds =>
      let resetTime := seconds * 1000 in
      Some (Z.min (Z.max (resetTime - now + 1000) 1000) 300000)
  | None => None
  end.

(** The throttling test of [request]: a 403 or 429 whose remaining quota
    reads ['0'], or any 429. *)
Definition throttled (r : Response) : bool :=
  (Z.eqb (status r) 403 || Z.eqb (status r) 429)
  && (bool_decide (headerRemaining r = Some "0") || Z.eqb (status r) 429).

Section Net.
(** The [k]-th reading of the clock and the response to the [k]-th
    [fetch] of the run. *)
Variable Date_now : nat -> Z.
Variable fetch : nat -> string -> RequestInit -> Response.

Definition readClock (st : State) : Z * State :=
  (Date_now (clockReads st),
   mkState (S (clockReads st)) (fetches st) (lastRequestTime st) (requestCount st) (trace st)).

Definition sleep (ms : option Z) (st : State) : State :=
  mkState (clockReads st) (fetches st) (lastRequestTime st) (requestCount st)
          (trace st ++ [Slept ms]).

Definition doFetch (url : string) (options : RequestInit) (st : State) : Response * State :=
  (fetch (fetches st) url options,
   mkState (clockReads st) (S (fetches st)) (lastRequestTime st) (requestCount st)
           (trace st ++ [Fetched url options])).

Definition rateLimit (st : State) : State :=
  let (now, st) := readClock st in
  let timeSinceLastRequest := now - lastRequestTime st in
  let st :=
    if Z.ltb timeSinceLastRequest minRequestInterval
    then sleep (Some (minRequestInterval - timeSinceLastRequest)) st
    else st in
  let (now', st) := readClock st in
  mkState (clockReads st) (fetches st) now' (S (requestCount st)) (trace st).

(** [let waitTime = 60000; if (rateLimitReset) { ... }]: the clock is read
    only when the header is there. *)
Definition backoff (response : Response) (st : State) : option Z * State :=
  if truthy (headerReset response) then
    let (now, st) := readClock st in
    (resetWait (default "" (headerReset response)) now, st)
  else (Some 60000, st).

Definition fullUrl (endpoint : string) : string :=
  if JS.startsWith "http" endpoint then endpoint else GITHUB_API_BASE +:+ endpoint.

(** The error thrown for a response that is not [ok]. *)
Definition apiError (endpoint : string) (r : Response) : GitHubClientError :=
  let fallback :=
    "GitHub API error: " +:+ JS.numberToString (status r) +:+ " " +:+ statusText r in
  let msg :=
    match errorMessage r with
    | Some m => if String.eqb m "" then fallback else "GitHub API error: " +:+ m
    | None => fallback
    end in
  mkError msg (status r) endpoint.

(** [request(endpoint, options, retryCount)]. The recursion is on
    [retryCount], which only grows up to 3; [fuel] bounds the number of
    calls, and [None] is reserved for running out of it. *)
Fixpoint requestGo (fuel : nat) (endpoint : string) (options : RequestInit)
    (retryCount : nat) (st : State) : option (Outcome * State) :=
  match fuel with
  | O => None
  | S fuel' =>
      let st := rateLimit st in
      let (response, st) := doFetch (fullUrl endpoint) options st in
      if throttled response then
        if Nat.leb 3 retryCount
        then Some (Thrown (mkError rateLimitMessage (status response) endpoint), st)
        else
          let (wait, st) := backoff response st in
          let st := sleep wait st in
          requestGo fuel' endpoint options (S retryCount) st
      else if negb (ok response) then Some (Thrown (apiError endpoint response), st)
      else Some (Returned (payload response) (headerLink response), st)
  end.

Definition request (endpoint : string) (options : RequestInit) (retryCount : nat)
    (st : State) : option (Outcome * State) :=
  requestGo (S (3 - retryCount)) endpoint options retryCount st.

(** Names for the stages of one call: the response it receives, the
    state in which it receives it, and the state in which its retry
    starts, the wait having been slept. *)
Definition received (endpoint : string) (options : RequestInit) (st : State) : Response :=
  fst (doFetch (fullUrl endpoint) options (rateLimit st)).

Definition afterFetch (endpoint : string) (options : RequestInit) (st : State) : State :=
  snd (doFetch (fullUrl endpoint) options (rateLimit st)).

Definition afterBackoff (endpoint : string) (options : RequestInit) (st : State) : State :=
  let st2 := afterFetch endpoint options st in
  sleep (fst (backoff (received endpoint options st) st2))
        (snd (backoff (received endpoint options st) st2)).

End Net.

(** *** Failures of the transport

    [fetch] above always resolves, and the body of a successful response
    parses as JSON. [request] catches neither of the two failures outside
    that: [fetch] rejecting, and [response.json()] throwing on the body of
    a successful response. [requestWire] is [request] with both. *)

Inductive Settled :=
| Resolved (response : Response) (bodyIsJson : bool)
| Rejected (reason : string).

Inductive Failure :=
| FetchRejected (reason : string)     (* the rejection of [fetch], passed on *)
| BodyNotJson.                         (* the [SyntaxError] of [response.json()] *)

Inductive Completion :=
| Completed (outcome : Outcome)
| Raised (failure : Failure).

Section Wire.
(** The [k]-th reading of the clock and the settlement of the [k]-th
    [fetch] of the run. *)
Variable Date_now : nat -> Z.
Variable fetchWire : nat -> string -> RequestInit -> Settled.

Definition doFetchWire (url : string) (options : RequestInit) (st : State) : Settled * State :=
  (fetchWire (fetches st) url options,
   mkState (clockReads st) (S (fetches st)) (lastRequestTime st) (requestCount st)
           (trace st ++ [Fetched url options])).

Fixpoint requestGoWire (fuel : nat) (endpoint : string) (options : RequestInit)
    (retryCount : nat) (st : State) : option (Completion * State) :=
  match fuel with
  | O => None
  | S fuel' =>
      let st := rateLimit Date_now st in
      let (settled, st) := doFetchWire (fullUrl endpoint) options st in
      match settled with
      | Rejected reason => Some (Raised (FetchRejected reason), st)
      | Resolved response bodyIsJson =>
          if throttled response then
            if Nat.leb 3 retryCount
            then Some (Completed
                         (Thrown (mkError rateLimitMessage (status response) endpoint)), st)
            else
              let (wait, st) := backoff Date_now response st in
              let st := sleep wait st in
              requestGoWire fuel' endpoint options (S retryCount) st
          else if negb (ok response)
          then Some (Completed (Thrown (apiError endpoint response)), st)
          else if bodyIsJson
          then Some (Completed (Returned (payload response) (headerLink response)), st)
          else Some (Raised BodyNotJson, st)
      end
  end.

Definition requestWire (endpoint : string) (options : RequestInit) (retryCount : nat)
    (st : State) : option (Completion * State) :=
  requestGoWire (S (3 - retryCount)) endpoint options retryCount st.

(** What the settlement of the last [fetch] makes of the call. *)
Definition completion (endpoint : string) (settled : Settled) : Completion :=
  match settled with
  | Rejected reason => Raised (FetchRejected reason)
  | Resolved response bodyIsJson =>
      if throttled response
      then Completed (Thrown (mkError rateLimitMessage (status response) endpoint))
      else if negb (ok response) then Completed (Thrown (apiError endpoint response))
      else if bodyIsJson
      then Completed (Returned (payload response) (headerLink response))
      else Raised BodyNotJson
  end.

Definition isThrottled (settled : Settled) : bool :=
  match settled with
  | Resolved response _ => throttled response
  | Rejected _ => false
  end.

End Wire.

End Request.

(** ** The response cache ([src/cache.ts]) *)

Module Cache.

Local Open Scope Z_scope.

Definition CACHE_TTL_MS : Z := 24 * 60 * 60 * 1000.

Definition CACHE_VERSION : Z := 1.

Record CacheEntry (T : Type) := mkEntry {
  data : T;
  timestamp : Z;
  version : Z
}.
Arguments mkEntry {T}.
Arguments data {T}.
Arguments timestamp {T}.
Arguments version {T}.

(** One step of the hash loop: [hash = ((hash << 5) - hash) + char] and
    then [hash = hash & hash]. The shift and the conjunction both wrap to
    32 bits. *)
Definition hashStep (hash : Z) (c : ascii) : Z :=
  JS.toInt32 (JS.toInt32 (hash * 32) - hash + Z.of_nat (JS.charCode c)).

Definition hashString (str : string) : Z :=
  fold_left hashStep (list_ascii_of_string str) 0.

Section Store.
(** [a.localeCompare(b)], the home directory, and the type of the data. *)
Variable localeCompare : string -> string -> Z.
Variable homedir : string.
Context {T : Type}.

Definition CACHE_DIR : string := Path.join [homedir; ".whatidid-cache"].

Definition generateKey (prefix : string) (params : list (string * string)) : string :=
  let sortedParams :=
    String.concat "&"
      (map (fun kv => fst kv +:+ "=" +:+ snd kv)
         (JS.sort (fun a b => Some (localeCompare (fst a) (fst b))) params)) in
  let str := prefix +:+ ":" +:+ sortedParams in
  let hash := hashString str in
  prefix +:+ "_" +:+ JS.toString16 (Z.abs hash).

Definition getCachePath (key : string) : string :=
  Path.join [CACHE_DIR; key +:+ ".json"].

(** The cache directory [fs] maps a path to the content of the file
    there, which either parses as an entry or does not ([None]). Two
    paths that [path.join] returns name one file when they are the same
    string (a case-sensitive file system, no links in the directory).

    [Cache.get], for a cache whose [enabled] flag is given, on the
    directory [fs] at the time [now]. [None] is [null]. *)
Definition get (enabled : bool) (fs : gmap string (option (CacheEntry T))) (now : Z)
    (prefix : string) (params : list (string * string)) : option T :=
  if negb enabled then None
  else
    let key := generateKey prefix params in
    let path := getCachePath key in
    match fs !! path with
    | None => None                       (* the file does not exist *)
    | Some None => None                  (* reading or parsing throws *)
    | Some (Some entry) =>
        if negb (Z.eqb (version entry) CACHE_VERSION) then None
        else if Z.ltb CACHE_TTL_MS (now - timestamp entry) then None
        else Some (data entry)
    end.

(** [Cache.set]; [writeOk] tells whether [Bun.write] succeeds, a
    failure being swallowed. *)
Definition set (enabled : bool) (fs : gmap string (option (CacheEntry T)))
    (now : Z) (writeOk : bool)
    (prefix : string) (params : list (string * string)) (d : T)
  : gmap string (option (CacheEntry T)) :=
  if negb enabled then fs
  else
    let key := generateKey prefix params in
    let path := getCachePath key in
    let entry := mkEntry d now CACHE_VERSION in
    if writeOk then <[path := Some entry]> fs else fs.

End Store.

End Cache.

(** ** Configuration ([src/config.ts]) *)

Module Config.

Record Config := mkConfig {
  githubToken : string;
  llmApiKey : string;
  llmModel : string
}.

Definition defaultModel : string := "gemini-2.5-flash-preview-05-20".

Section Env.
(** [process.env[name]]; [None] is [undefined]. A thrown [ConfigError] is
    [inl] of its message. *)
Variable env : string -> option string.

Definition requireEnv (name : string) : string + string :=
  match env name with
  | Some value =>
      if String.eqb value "" || String.eqb (JS.trim value) ""
      then inl ("Missing required environment variable: " +:+ name +:+ JS.nl +:+
                "Please set " +:+ name +:+ " before running the command.")
      else inr (JS.trim value)
  | None =>
      inl ("Missing required environment variable: " +:+ name +:+ JS.nl +:+
           "Please set " +:+ name +:+ " before running the command.")
  end.

Definition optionalEnv (name defaultValue : string) : string :=
  match env name with
  | Some value => if String.eqb (JS.trim value) "" then defaultValue else JS.trim value
  | None => defaultValue
  end.

Definition loadConfig : string + Config :=
  match requireEnv "GITHUB_TOKEN" with
  | inl e => inl e
  | inr githubToken' =>
      match requireEnv "LLM_API_KEY" with
      | inl e => inl e
      | inr llmApiKey' =>
          inr (mkConfig githubToken' llmApiKey' (optionalEnv "LLM_MODEL" defaultModel))
      end
  end.

(** [!process.env[name]]. *)
Definition unset (name : string) : bool :=
  match env name with
  | Some value => String.eqb value ""
  | None => true
  end.

Definition validateConfig : string + unit :=
  let missingVars :=
    (if unset "GITHUB_TOKEN" then ["GITHUB_TOKEN"] else [])
    ++ (if unset "LLM_API_KEY" then ["LLM_API_KEY"] else []) in
  if Nat.ltb 0 (length missingVars) then
    inl ("Missing required environment variables:" +:+ JS.nl +:+
         String.concat JS.nl (map (fun v => "  - " +:+ v) missingVars) +:+
         JS.nl +:+ JS.nl +:+ "Please set these variables before running the command:" +:+
         JS.nl +:+ "  export GITHUB_TOKEN=your_github_token" +:+
         JS.nl +:+ "  export LLM_API_KEY=your_google_api_key")
  else inr tt.

End Env.

End Config.

(** ** Command line ([src/cli.ts]) *)

Module Cli.

(** [value.split(',').map((s) => s.trim()).filter((s) => s.length > 0)]. *)
Definition parseList (value : string) : list string :=
  List.filter (fun s => Nat.ltb 0 (String.length s)) (map JS.trim (JS.split "," value)).

End Cli.

(** ** Reference definitions, in the words of the specification

    These say what the program is meant to compute; the theorems below
    compare them with the embedded code. *)

Module Spec.

(** The feature whose title, description and type a merge keeps, as the
    code chooses it: the first argument when it is [high] or when the
    second is [low], the second argument otherwise. *)
Definition mergeBase (f1 f2 : Feature) : Feature :=
  match confidence f1, confidence f2 with
  | high, _ => f1
  | medium, low => f1
  | low, low => f1
  | medium, high => f2
  | medium, medium => f2
  | low, high => f2
  | low, medium => f2
  end.





(** Punctuation: a character that is neither a letter, a digit or an
    underscore, nor white space. *)
Definition punctuation (c : ascii) : bool := negb (JS.isWordChar c) && negb (JS.isSpace c).

Fixpoint unpunctuate (s : string) : string :=
  match s with
  | EmptyString => EmptyString
  | String c rest => String (if punctuation c then " "%char else c) (unpunctuate rest)
  end.

(** The stretches of a text between two white-space characters (or an end
    of the text): its words, and an empty stretch wherever two white-space
    characters are neighbours. *)
Fixpoint stretches (s : string) : list string :=
  match s with
  | EmptyString => [EmptyString]
  | String c rest =>
      if JS.isSpace c then EmptyString :: stretches rest
      else
        match stretches rest with
        | first :: others => String c first :: others
        | [] => [String c EmptyString]
        end
  end.

(** The token set of a title: the title is lower-cased, its punctuation is
    replaced by spaces, and the words of more than two characters of the
    result are the tokens. *)
Definition tokenSet (s : string) : gset string :=
  list_to_set
    (List.filter (fun word => Nat.ltb 2 (String.length word))
       (stretches (unpunctuate (JS.toLowerCase s)))).

(** Token Jaccard similarity: the size of the intersection over the size
    of the union. ([Q]'s division gives 0 when the union is empty.) *)
Definition jaccard (A B : gset string) : Q :=
  (inject_Z (Z.of_nat (size (A ∩ B))) / inject_Z (Z.of_nat (size (A ∪ B))))%Q.

(** Edit distance, by the usual recurrence on prefixes:
    [prefixDistance s t i j] is the distance between the first [i] characters
    of [s] and the first [j] characters of [t]. It is [j] when [i = 0], [i] when
    [j = 0], and otherwise the least of a deletion, an insertion and a
    substitution (free when the two characters agree). *)
Definition cost (a b : option ascii) : nat := if bool_decide (a = b) then 0 else 1.

Fixpoint prefixDistance (s t : string) (i j : nat) {struct i} : nat :=
  match i with
  | O => j
  | S i' =>
      (fix row (j : nat) : nat :=
         match j with
         | O => S i'
         | S j' =>
             Nat.min
               (Nat.min (prefixDistance s t i' (S j') + 1) (row j' + 1))
               (prefixDistance s t i' j' + cost (String.get i' s) (String.get j' t))
         end) j
  end.

Definition editDistance (s t : string) : nat :=
  prefixDistance s t (String.length s) (String.length t).

(** Normalised edit-distance similarity of two titles:
    [1 - editDistance / max(len1, len2)], the distance being taken between the
    lower-cased titles. ([Q]'s division gives 1 for two empty titles.) *)
Definition editSimilarity (s1 s2 : string) : Q :=
  (1 - inject_Z (Z.of_nat (editDistance (JS.toLowerCase s1) (JS.toLowerCase s2)))
       / inject_Z (Z.of_nat (Nat.max (String.length s1) (String.length s2))))%Q.

(** A feature whose title has no token. *)
Definition tokenless (f : Feature) : bool :=
  match Grouping.normalize (title f) with
  | [] => true
  | _ :: _ => false
  end.

(** The identity of a pull request. *)
Definition prId (pr : PullRequest) : string * Z := (repoFullName pr, number pr).

(** Deduplication by identity, first occurrence wins: a pull request is
    kept unless its identity has been [seen]. *)
Fixpoint keepFirst (seen : list (string * Z)) (l : list PullRequest) : list PullRequest :=
  match l with
  | [] => []
  | pr :: rest =>
      if bool_decide (prId pr ∈ seen) then keepFirst seen rest
      else pr :: keepFirst (prId pr :: seen) rest
  end.

(** [a] was merged no later than [b], both merge timestamps being valid. *)
Definition mergedNoLater (Date_parse : string -> option Z) (a b : PullRequest) : Prop :=
  exists ta tb,
    Date_parse (mergedAt a) = Some ta /\ Date_parse (mergedAt b) = Some tb /\ (ta <= tb)%Z.

End Spec.

(** ** Relations and measures in which the further properties are stated *)

Module Rel.

(** The date string [a] is a valid date no later than [x]; no earlier than
    [x]; and two date strings in order, both valid. *)
Definition startsBy (Date_parse : string -> option Z) (a : string) (x : Z) : Prop :=
  exists t, Date_parse a = Some t /\ (t <= x)%Z.

Definition endsFrom (Date_parse : string -> option Z) (a : string) (x : Z) : Prop :=
  exists t, Date_parse a = Some t /\ (x <= t)%Z.

Definition noLater (Date_parse : string -> option Z) (a b : string) : Prop :=
  exists ta tb, Date_parse a = Some ta /\ Date_parse b = Some tb /\ (ta <= tb)%Z.

(** The features of one project. *)
Definition ofProject (k : string) (features : list Feature) : list Feature :=
  List.filter (fun f => String.eqb (project f) k) features.

(** The count that an object used as a counter holds for the key [ty]
    (0 where the key is absent), and the number of features of a type. *)
Definition countOf (byType : list (FeatureType * nat)) (ty : FeatureType) : nat :=
  sum_list (map snd (List.filter (fun e => bool_decide (fst e = ty)) byType)).

Definition ofType (ty : FeatureType) (features : list Feature) : list Feature :=
  List.filter (fun f => bool_decide (type f = ty)) features.

(** A pull request of the listing that ends the scan: merged, by the
    user, and merged before [since]. *)
Definition stale (Date_parse : string -> option Z) (username since : string)
    (pr : GitHubPullRequest.t) : bool :=
  match GitHubPullRequest.merged_at pr with
  | Some merged =>
      negb (String.eqb merged "")
      && String.eqb (JS.toLowerCase (GitHubPullRequest.user_login pr)) (JS.toLowerCase username)
      && JS.lt (Date_parse merged) (Date_parse since)
  | None => false
  end.

(** A pull request of the listing that is to be reported: merged, by the
    user, merged within the window, into an allowed base branch. *)
Definition wanted (Date_parse : string -> option Z) (LocalTime UTC : Z -> Z)
    (username since until : string) (pr : GitHubPullRequest.t) : bool :=
  match GitHubPullRequest.merged_at pr with
  | Some merged =>
      negb (String.eqb merged "")
      && String.eqb (JS.toLowerCase (GitHubPullRequest.user_login pr)) (JS.toLowerCase username)
      && Client.isDateInRange Date_parse LocalTime UTC merged since until
      && Client.isAllowedBaseBranch (GitHubPullRequest.base_ref pr)
  | None => false
  end.

(** The feature [f] is a summary of the pull request [pr]: it carries the
    pull request's repository, number and dates. *)
Definition summarizes (pr : PullRequest) (f : Feature) : Prop :=
  project f = repoFullName pr /\ prs f = [number pr]
  /\ startDate f = createdAt pr /\ endDate f = mergedAt pr.

End Rel.

(** ** Invariants used by the proofs *)

Module Inv.

(** A string without [#]. *)
Fixpoint noHash (s : string) : Prop :=
  match s with
  | EmptyString => True
  | String c r => c <> "#"%char /\ noHash r
  end.

(** Every character of a string satisfies [P]. *)
Fixpoint everyChar (P : ascii -> Prop) (s : string) : Prop :=
  match s with
  | EmptyString => True
  | String c r => P c /\ everyChar P r
  end.

(** The characters a token is made of: [a-z0-9_]. *)
Definition isTokenChar (c : ascii) : bool :=
  let n := JS.charCode c in
  JS.inRange 97 122 n || JS.inRange 48 57 n || Nat.eqb n 95.

(** A matrix of [m + 1] rows of [n + 1] cells. *)
Definition wellFormed (m n : nat) (dp : list (list nat)) : Prop :=
  length dp = S m /\ Forall (fun row => length row = S n) dp.

(** The state of the matrix of [levenshteinDistance str1 str2] when the
    loops are about to fill the cell [(i, j)]: the first row, the first column,
    the rows above [i] and the cells of row [i] left of [j] hold their final
    value. *)
Definition filled (str1 str2 : string) (i j : nat) (dp : list (list nat)) : Prop :=
  wellFormed (String.length str1) (String.length str2) dp
  /\ forall i' j', i' <= String.length str1 -> j' <= String.length str2 ->
       i' = 0 \/ j' = 0 \/ i' < i \/ (i' = i /\ j' < j) ->
       Grouping.mget dp i' j' = Spec.prefixDistance str1 str2 i' j'.

End Inv.

(** ** Concrete inputs used by the examples *)

Module Ex.

Definition f_button : Feature :=
  mkFeature "a/b" "Add export button" "Adds a button that exports the table"
    feature [1%Z] "2024-02-27T09:00:00Z" "2024-03-01T12:00:00Z" medium.

Definition f_feature : Feature :=
  mkFeature "a/b" "Add export feature" "Exports reports as CSV"
    feature [2%Z] "2024-03-10T09:00:00Z" "2024-03-15T12:00:00Z" medium.

(** Two features that differ in their type only. *)
Definition f_button_bugfix : Feature :=
  mkFeature "a/b" "Add export button" "Adds a button that exports the table"
    bugfix [1%Z] "2024-02-27T09:00:00Z" "2024-03-01T12:00:00Z" medium.

(** Two features of one project and type whose titles share three of four
    tokens and are 14 edits apart. *)
Definition f_words : Feature :=
  mkFeature "a/b" "abc def ghi jklm" "Four words" feature [3%Z] "2024-04-01T09:00:00Z"
    "2024-04-02T09:00:00Z" medium.

Definition f_words_moved : Feature :=
  mkFeature "a/b" "def jklm abc xx" "The same words, moved" feature [4%Z]
    "2024-04-03T09:00:00Z" "2024-04-04T09:00:00Z" medium.

(** Two features whose titles have no word of more than two characters. *)
Definition f_ci : Feature :=
  mkFeature "a/b" "CI" "Pipeline" infra [7%Z] "2024-02-01T09:00:00Z" "2024-02-02T09:00:00Z" high.

Definition f_ci_v2 : Feature :=
  mkFeature "a/b" "CI v2" "Pipeline, again" infra [8%Z] "2024-02-03T09:00:00Z"
    "2024-02-04T09:00:00Z" high.




Definition pr1 : PullRequest :=
  mkPullRequest 1 "Add export button" None "https://github.com/a/b/pull/1" "b" "a/b" "main"
    "2024-02-27T09:00:00Z" "2024-03-01T12:00:00Z" [].

Definition pr2 : PullRequest :=
  mkPullRequest 2 "Add export feature" None "https://github.com/a/b/pull/2" "b" "a/b" "main"
    "2024-03-10T09:00:00Z" "2024-03-15T12:00:00Z" [].

(** [--repos a/b], and a scan of [a/b] that reports #2, #1 and #2 again. *)
Definition onlyRepoAB : Client.GitHubClientOptions :=
  Client.mkOptions None None (Some ["a/b"]) None None None None.

Definition scanAB (username repo since until : string) : option (list PullRequest) :=
  Some [pr2; pr1; pr2].

(** A clock that advances 10 ms per reading from 1000 s, and a server
    that answers 429 with a reset at second 1001. *)
Definition clock (k : nat) : Z := (1000000 + 10 * Z.of_nat k)%Z.

Definition alwaysThrottled (k : nat) (url : string) (options : Request.RequestInit)
  : Request.Response :=
  Request.mkResponse 429 "Too Many Requests" None (Some "1001") None None "".

(** [f_button] with its title in capitals. *)
Definition f_button_shouting : Feature :=
  mkFeature "a/b" "ADD EXPORT BUTTON" "Adds a button that exports the table"
    feature [1%Z] "2024-02-27T09:00:00Z" "2024-03-01T12:00:00Z" medium.

(** A feature of another repository, earlier than those of [a/b]. *)
Definition f_docs : Feature :=
  mkFeature "c/d" "Write the manual" "Documentation" feature [1%Z; 4%Z]
    "2024-01-05T09:00:00Z" "2024-01-20T09:00:00Z" low.

(** An environment whose GitHub token is one space. *)
Definition blankToken (name : string) : option string :=
  if String.eqb name "GITHUB_TOKEN" then Some " "
  else if String.eqb name "LLM_API_KEY" then Some "key"
  else None.

(** A listing of [a/b], most recently updated first: #9 merged in the
    window, #3 merged before it, and #8 merged in the window as well. *)
Definition gh9 : GitHubPullRequest.t :=
  GitHubPullRequest.mk 9 "Export" None "https://github.com/a/b/pull/9" "Octocat" "main"
    "2024-03-01T10:00:00Z" (Some "2024-03-02T10:00:00Z").

Definition gh3 : GitHubPullRequest.t :=
  GitHubPullRequest.mk 3 "Setup" None "https://github.com/a/b/pull/3" "octocat" "main"
    "2023-12-01T10:00:00Z" (Some "2023-12-02T10:00:00Z").

Definition gh8 : GitHubPullRequest.t :=
  GitHubPullRequest.mk 8 "Import" None "https://github.com/a/b/pull/8" "octocat" "main"
    "2024-02-01T10:00:00Z" (Some "2024-03-01T10:00:00Z").

(** A scan that finds #9 and #8 in [a/b] and nothing elsewhere; its
    fallback always fails. *)
Definition scanListing (username repo since until : string) : option (list PullRequest) :=
  Client.listMergedPRs DateTime.parseISO (DateTime.fixedLocalTime 0) (DateTime.fixedUTC 0)
    (fun _ _ => [])
    (fun r => if String.eqb r "a/b" then Some [gh9; gh8] else Some [])
    (fun _ _ _ _ _ => None)
    username repo since until false.

(** [--exclude c/d], and a search that finds a pull request in [a/b] and
    one in [c/d]. *)
Definition excludeCD : Client.GitHubClientOptions :=
  Client.mkOptions None None None None (Some ["c/d"]) None None.

Definition pr5 : PullRequest :=
  mkPullRequest 5 "Manual" None "https://github.com/c/d/pull/5" "d" "c/d" "main"
    "2024-01-05T09:00:00Z" "2024-01-20T09:00:00Z" [].

Definition searchBoth (username since until : string) : option (list PullRequest) :=
  Some [pr1; pr5].

End Ex.

(** * Properties *)

(** ** Facts about the JavaScript primitives *)

Section SetFacts.
Context {A : Type} (eqbA : A -> A -> bool).
Hypothesis eqbA_spec : forall x y, eqbA x y = true <-> x = y.

Lemma has_true (x : A) (s : list A) : JS.has eqbA x s = true <-> x ∈ s.
Proof.
  unfold JS.has. rewrite existsb_exists. split.
  - intros (y & Hy & E). apply eqbA_spec in E. subst. by apply list_elem_of_In.
  - intros H. exists x. split; [by apply list_elem_of_In | by apply eqbA_spec].
Qed.

Lemma has_false (x : A) (s : list A) : JS.has eqbA x s = false <-> x ∉ s.
Proof.
  rewrite <- has_true. destruct (JS.has eqbA x s); split; congruence.
Qed.

Lemma elem_of_add (s : list A) (x y : A) : y ∈ JS.add eqbA s x <-> y ∈ s \/ y = x.
Proof.
  unfold JS.add. destruct (JS.has eqbA x s) eqn:E.
  - apply has_true in E. split; [tauto | intros [? | ->]; assumption].
  - rewrite elem_of_app, list_elem_of_singleton. tauto.
Qed.

Lemma NoDup_add (s : list A) (x : A) : NoDup s -> NoDup (JS.add eqbA s x).
Proof.
  intros Hs. unfold JS.add. destruct (JS.has eqbA x s) eqn:E; [assumption |].
  apply has_false in E. apply NoDup_app. split; [assumption |]. split.
  - intros y Hy Hy'. apply list_elem_of_singleton in Hy'. by subst.
  - apply NoDup_singleton.
Qed.

Lemma elem_of_fold_add (l acc : list A) (y : A) :
  y ∈ fold_left (JS.add eqbA) l acc <-> y ∈ acc \/ y ∈ l.
Proof.
  revert acc. induction l as [| x l IH]; intros acc; simpl.
  - rewrite elem_of_nil. tauto.
  - rewrite IH, elem_of_add, elem_of_cons. tauto.
Qed.

Lemma NoDup_fold_add (l acc : list A) :
  NoDup acc -> NoDup (fold_left (JS.add eqbA) l acc).
Proof.
  revert acc. induction l as [| x l IH]; intros acc Hacc; simpl; [assumption |].
  apply IH. by apply NoDup_add.
Qed.

(** A [Set] built from an array has the array's values, each once. *)
Lemma elem_of_newSet (l : list A) (y : A) : y ∈ JS.newSet eqbA l <-> y ∈ l.
Proof.
  unfold JS.newSet. rewrite elem_of_fold_add, elem_of_nil. tauto.
Qed.

Lemma NoDup_newSet (l : list A) : NoDup (JS.newSet eqbA l).
Proof. apply NoDup_fold_add. constructor. Qed.

Lemma newSet_nil_inv (l : list A) : JS.newSet eqbA l = [] -> l = [].
Proof.
  intros H. destruct l as [| x l]; [reflexivity |].
  assert (Hx : x ∈ JS.newSet eqbA (x :: l)) by (apply elem_of_newSet; left).
  rewrite H in Hx. by apply elem_of_nil in Hx.
Qed.
End SetFacts.

Section SortFacts.
Context {A : Type} (cmp : A -> A -> option Z).

Lemma insertSorted_perm (x : A) (l : list A) : JS.insertSorted cmp x l ≡ₚ x :: l.
Proof.
  induction l as [| y l IH]; simpl; [reflexivity |].
  destruct (JS.after cmp x y); [| reflexivity].
  rewrite IH. apply perm_swap.
Qed.

(** Sorting rearranges, whatever the comparator. *)
Lemma sort_perm (l : list A) : JS.sort cmp l ≡ₚ l.
Proof.
  induction l as [| x l IH]; simpl; [reflexivity |].
  unfold JS.sort in *. simpl. rewrite insertSorted_perm. by rewrite IH.
Qed.

(** Where the comparator is a consistent ordering of the elements ([P]
    says which elements it orders, [R] is the ordering), the result is
    in order. *)
Variable P : A -> Prop.
Variable R : A -> A -> Prop.
Hypothesis R_trans : forall a b c, R a b -> R b c -> R a c.
Hypothesis after_true : forall a b, P a -> P b -> JS.after cmp a b = true -> R b a.
Hypothesis after_false : forall a b, P a -> P b -> JS.after cmp a b = false -> R a b.

Lemma insertSorted_sorted (x : A) (l : list A) :
  P x -> Forall P l -> StronglySorted R l -> StronglySorted R (JS.insertSorted cmp x l).
Proof.
  intros Hx HP Hs. induction Hs as [| y l Hs IH Hy]; simpl.
  - repeat constructor.
  - apply Forall_cons in HP as [Py Pl].
    destruct (JS.after cmp x y) eqn:E.
    + constructor; [by apply IH |].
      rewrite insertSorted_perm.
      constructor; [by apply after_true | assumption].
    + assert (Rxy : R x y) by by apply after_false.
      constructor; [by constructor |].
      constructor; [assumption |].
      eapply Forall_impl; [exact Hy |]. intros z Rz. by eapply R_trans.
Qed.

Lemma sort_sorted (l : list A) : Forall P l -> StronglySorted R (JS.sort cmp l).
Proof.
  induction 1 as [| x l Hx Hl IH]; unfold JS.sort in *; simpl; [constructor |].
  apply insertSorted_sorted; [assumption | | assumption].
  fold (JS.sort cmp l). by rewrite sort_perm.
Qed.
End SortFacts.

Lemma elem_of_List_filter {A : Type} (f : A -> bool) (l : list A) (x : A) :
  x ∈ List.filter f l <-> x ∈ l /\ f x = true.
Proof. rewrite !list_elem_of_In. apply filter_In. Qed.

Lemma append_nil_l (s : string) : "" +:+ s = s.
Proof. reflexivity. Qed.

Lemma append_cons (c : ascii) (s r : string) : String c s +:+ r = String c (s +:+ r).
Proof. reflexivity. Qed.

Lemma prefix_iff (p s : string) :
  String.prefix p s = true <-> exists rest, s = p +:+ rest.
Proof.
  revert s. induction p as [| c p IH]; intros s.
  - destruct s; simpl; (split; [intros _; by eexists | reflexivity]).
  - destruct s as [| d s]; simpl; [split; [discriminate | intros [r Hr]; discriminate] |].
    destruct (Ascii.ascii_dec c d) as [-> | Hne].
    + rewrite IH. split; intros [r Hr]; exists r;
        change (String d p +:+ r) with (String d (p +:+ r)) in *; congruence.
    + split; [discriminate | intros [r Hr]].
      change (String c p +:+ r) with (String c (p +:+ r)) in Hr. congruence.
Qed.

(** ** The allowed-base-branch predicate *)

(** C9. A branch is an allowed base branch exactly when it is [main], is
    [master], or starts with [release/]; [feature/x] is rejected and
    [release/9.2] is accepted. The predicate reads nothing but the branch
    name: no option of the run is among its arguments. *)
Theorem isAllowedBaseBranch_spec :
  (forall branch : string,
     Client.isAllowedBaseBranch branch = true <->
     branch = "main" \/ branch = "master" \/ exists rest, branch = "release/" +:+ rest)
  /\ Client.isAllowedBaseBranch "feature/x" = false
  /\ Client.isAllowedBaseBranch "release/9.2" = true.
Proof.
  split; [| split; reflexivity].
  intros branch. unfold Client.isAllowedBaseBranch, JS.startsWith.
  destruct (String.eqb_spec branch "main") as [-> | Hmain]; simpl.
  { split; [intros _; by left | reflexivity]. }
  destruct (String.eqb_spec branch "master") as [-> | Hmaster]; simpl.
  { split; [intros _; right; by left | reflexivity]. }
  destruct (String.prefix "release/" branch) eqn:Hp.
  - apply prefix_iff in Hp. split; [intros _; right; by right | reflexivity].
  - split; [discriminate |].
    intros [? | [? | Hrest]]; [contradiction | contradiction |].
    apply prefix_iff in Hrest. congruence.
Qed.

(** ** Merging two features: the scalar fields *)

(** C1, as stated, fails on two [medium] features: the merge keeps the title
    of the SECOND argument, not of the first. *)
Lemma mergeFeatures_medium_tie_keeps_second :
  confidence Ex.f_button = confidence Ex.f_feature
  /\ title (Grouping.mergeFeatures DateTime.parseISO Ex.f_button Ex.f_feature)
     = title Ex.f_feature
  /\ title (Grouping.mergeFeatures DateTime.parseISO Ex.f_button Ex.f_feature)
     <> title Ex.f_button.
Proof. split; [reflexivity |]. split; [reflexivity |]. vm_compute. discriminate. Qed.

(** C1, amended. The title, description and type (and the project) of a
    merge are those of the first argument when the first is [high] or the
    second is [low], hence also when both are [high] or both are [low], and
    those of the second argument in every other case, two [medium] features
    included. *)
Theorem mergeFeatures_scalars (Date_parse : string -> option Z) (f1 f2 : Feature) :
  let merged := Grouping.mergeFeatures Date_parse f1 f2 in
  title merged = title (Spec.mergeBase f1 f2)
  /\ description merged = description (Spec.mergeBase f1 f2)
  /\ type merged = type (Spec.mergeBase f1 f2)
  /\ project merged = project (Spec.mergeBase f1 f2).
Proof.
  unfold Grouping.mergeFeatures, Spec.mergeBase. simpl.
  destruct (confidence f1), (confidence f2); simpl; auto.
Qed.

(** ** The repository filters *)



Lemma discovered_with_repos (o : Client.GitHubClientOptions)
    (listMergedPRs : string -> string -> string -> string -> option (list PullRequest))
    (globalSearch : string -> string -> string -> option (list PullRequest))
    (userOrgs : list string) (orgRepos : string -> list string)
    (username since until : string) :
  Client.nonEmpty (Client.repos o) = true ->
  Client.discovered o listMergedPRs globalSearch userOrgs orgRepos username since until
  = Some (flat_map (Client.scanRepo listMergedPRs username since until)
            (List.filter (fun repo => negb (Client.optIncludes (Client.excludeRepos o) repo))
               (default [] (Client.repos o)))).
Proof.
  intros Hne. unfold Client.discovered, Client.fetchPRsFromSpecificRepos.
  rewrite Hne. simpl. f_equal.
  induction (default [] (Client.repos o)) as [| repo l IH]; simpl; [reflexivity |].
  destruct (Client.optIncludes (Client.excludeRepos o) repo); simpl; by rewrite IH.
Qed.




(** ** The response cache *)

Section CacheFacts.
Variable localeCompare : string -> string -> Z.
Variable homedir : string.
Context {T : Type}.

Local Abbreviation get := (Cache.get localeCompare homedir).
Local Abbreviation set := (Cache.set localeCompare homedir).
Local Abbreviation pathOf prefix params :=
  (Cache.getCachePath homedir (Cache.generateKey localeCompare prefix params)).

(** What a read returns once an entry is on disk under the key. *)
Lemma get_stored (fs : gmap string (option (Cache.CacheEntry T))) (now : Z)
    (prefix : string) (params : list (string * string)) (entry : Cache.CacheEntry T) :
  fs !! pathOf prefix params = Some (Some entry) ->
  get true fs now prefix params
  = if Z.eqb (Cache.version entry) Cache.CACHE_VERSION
       && Z.leb (now - Cache.timestamp entry) Cache.CACHE_TTL_MS
    then Some (Cache.data entry) else None.
Proof.
  intros Hfs. unfold Cache.get. simpl. rewrite Hfs.
  destruct (Z.eqb_spec (Cache.version entry) Cache.CACHE_VERSION); simpl; [| reflexivity].
  destruct (Z.ltb_spec Cache.CACHE_TTL_MS (now - Cache.timestamp entry)),
           (Z.leb_spec (now - Cache.timestamp entry) Cache.CACHE_TTL_MS);
    (reflexivity || lia).
Qed.

Lemma set_stores (fs : gmap string (option (Cache.CacheEntry T))) (t : Z)
    (prefix : string) (params : list (string * string)) (d : T) :
  set true fs t true prefix params d !! pathOf prefix params
  = Some (Some (Cache.mkEntry d t Cache.CACHE_VERSION)).
Proof. unfold Cache.set. simpl. apply lookup_insert_eq. Qed.

(** A read within the TTL of the write gives the data back: the cache is
    not absent throughout. *)
Lemma get_set_fresh (fs : gmap string (option (Cache.CacheEntry T))) (t now : Z)
    (prefix : string) (params : list (string * string)) (d : T) :
  (now - t <= Cache.CACHE_TTL_MS)%Z ->
  get true (set true fs t true prefix params d) now prefix params = Some d.
Proof.
  intros Hage. rewrite (get_stored _ _ _ _ _ (set_stores fs t prefix params d)). simpl.
  destruct (Z.leb_spec (now - t) Cache.CACHE_TTL_MS); [reflexivity | lia].
Qed.
End CacheFacts.

(** C6. Once an entry is stored under [(prefix, params)], a read of the same
    [(prefix, params)] is absent when the entry's version is not the current
    one or when the entry is older than 24 hours, and on an enabled cache
    only then; in particular an entry written at [t] and read at [t + 25h]
    is absent. *)
Theorem cache_get_stale
    (localeCompare : string -> string -> Z) (homedir : string) (T : Type)
    (fs : gmap string (option (Cache.CacheEntry T))) (now : Z)
    (prefix : string) (params : list (string * string)) (entry : Cache.CacheEntry T) :
  fs !! Cache.getCachePath homedir (Cache.generateKey localeCompare prefix params)
    = Some (Some entry) ->
  (forall enabled,
     Cache.version entry <> Cache.CACHE_VERSION
     \/ (now - Cache.timestamp entry > 24 * 60 * 60 * 1000)%Z ->
     Cache.get localeCompare homedir enabled fs now prefix params = None)
  /\ (Cache.get localeCompare homedir true fs now prefix params = None ->
      Cache.version entry <> Cache.CACHE_VERSION
      \/ (now - Cache.timestamp entry > 24 * 60 * 60 * 1000)%Z)
  /\ (forall (t : Z) (d : T),
        Cache.get localeCompare homedir true
          (Cache.set localeCompare homedir true fs t true prefix params d)
          (t + 25 * 60 * 60 * 1000)%Z prefix params = None).
Proof.
  intros Hfs.
  assert (Hiff : Cache.get localeCompare homedir true fs now prefix params = None <->
                 Cache.version entry <> Cache.CACHE_VERSION
                 \/ (now - Cache.timestamp entry > 24 * 60 * 60 * 1000)%Z).
  { rewrite (get_stored _ _ _ _ _ _ _ Hfs).
    destruct (Z.eqb_spec (Cache.version entry) Cache.CACHE_VERSION) as [Hv | Hv]; simpl.
    - destruct (Z.leb_spec (now - Cache.timestamp entry) Cache.CACHE_TTL_MS) as [Ha | Ha];
        unfold Cache.CACHE_TTL_MS in Ha.
      + split; [discriminate | intros [? | ?]; [contradiction | lia]].
      + split; [intros _; right; lia | reflexivity].
    - split; [intros _; by left | reflexivity]. }
  split; [| split].
  - intros [|] Hstale; [by apply Hiff | reflexivity].
  - apply Hiff.
  - intros t d.
    rewrite (get_stored _ _ _ _ _ _ _ (set_stores _ _ fs t prefix params d)). simpl.
    destruct (Z.leb_spec (t + 25 * 60 * 60 * 1000 - t) Cache.CACHE_TTL_MS) as [Ha | Ha];
      [unfold Cache.CACHE_TTL_MS in Ha; lia | reflexivity].
Qed.

Lemma cache_get_stale_witness :
  Cache.get (fun _ _ => 0%Z) "/home/octocat" true
    (<[ Cache.getCachePath "/home/octocat"
          (Cache.generateKey (fun _ _ => 0%Z) "prs" [("username", "octocat")])
        := Some (Cache.mkEntry 7 1000%Z 0%Z) ]> ∅)
    2000%Z "prs" [("username", "octocat")] = None.
Proof.
  apply (proj1 (cache_get_stale (fun _ _ => 0%Z) "/home/octocat" nat _ 2000%Z "prs"
                  [("username", "octocat")] (Cache.mkEntry 7 1000%Z 0%Z)
                  (lookup_insert_eq _ _ _))).
  left. vm_compute. discriminate.
Defined.

(** ** The date-in-range predicate *)

(** What [isDateInRange] decides, for any date reader and any time zone:
    all three dates are valid, and the merge instant lies between [since]
    and 23:59:59.999 of the LOCAL day that contains the instant [until]. *)
Lemma isDateInRange_iff
    (Date_parse : string -> option Z) (LocalTime UTC : Z -> Z)
    (dateStr since until : string) :
  Client.isDateInRange Date_parse LocalTime UTC dateStr since until = true <->
  exists d s u,
    Date_parse dateStr = Some d /\ Date_parse since = Some s /\ Date_parse until = Some u
    /\ (s <= d)%Z
    /\ (d <= UTC (LocalTime u / DateTime.msPerDay * DateTime.msPerDay
                  + DateTime.endOfDayTime))%Z.
Proof.
  unfold Client.isDateInRange, JS.ge, JS.le, DateTime.setHoursEndOfDay.
  destruct (Date_parse dateStr) as [d |], (Date_parse since) as [s |],
    (Date_parse until) as [u |]; simpl;
    try (split; [discriminate | intros (? & ? & ? & ? & ? & ? & ?); discriminate]).
  - rewrite andb_true_iff, !Z.leb_le. split.
    + intros [? ?]. by exists d, s, u.
    + intros (? & ? & ? & [= <-] & [= <-] & [= <-] & ? & ?). by split.
  - rewrite andb_false_r.
    split; [discriminate | intros (? & ? & ? & ? & ? & ? & ?); discriminate].
Qed.

(** With the process in UTC the boundary is the one the specification
    describes: 23:59:59 of the [until] day is in range, midnight of the
    next day is not. *)
Lemma isDateInRange_boundary_utc :
  Client.isDateInRange DateTime.parseISO (DateTime.fixedLocalTime 0) (DateTime.fixedUTC 0)
    "2024-03-15T23:59:59Z" "2024-03-01" "2024-03-15" = true
  /\ Client.isDateInRange DateTime.parseISO (DateTime.fixedLocalTime 0) (DateTime.fixedUTC 0)
       "2024-03-16T00:00:00Z" "2024-03-01" "2024-03-15" = false.
Proof. split; vm_compute; reflexivity. Qed.

(** For a date-only [until] (a multiple of a day) and a process at a fixed
    offset of less than a day, 23:59:59 of the [until] day is in range only
    when the offset is zero. *)
Lemma isDateInRange_boundary_only_utc
    (Date_parse : string -> option Z) (offsetMinutes : Z)
    (dateStr since until : string) (s day : Z) :
  (-1440 < offsetMinutes < 1440)%Z ->
  Date_parse until = Some (day * DateTime.msPerDay)%Z ->
  Date_parse since = Some s -> (s <= day * DateTime.msPerDay)%Z ->
  Date_parse dateStr = Some (day * DateTime.msPerDay + 86399000)%Z ->
  Client.isDateInRange Date_parse
    (DateTime.fixedLocalTime offsetMinutes) (DateTime.fixedUTC offsetMinutes)
    dateStr since until = true
  <-> offsetMinutes = 0%Z.
Proof.
  intros Hoff Hu Hs Hsu Hd. rewrite isDateInRange_iff. rewrite Hu, Hs, Hd.
  unfold DateTime.fixedLocalTime, DateTime.fixedUTC, DateTime.msPerDay,
    DateTime.endOfDayTime in *.
  split.
  - intros (d' & s' & u' & [= <-] & [= <-] & [= <-] & _ & Hle).
    revert Hle. Z.div_mod_to_equations. lia.
  - intros ->. eexists _, _, _. repeat split; try reflexivity; [lia |].
    Z.div_mod_to_equations. lia.
Qed.

(** C8. The boundary of the claim fails off UTC: [setHours] extends the
    LOCAL day. With the process eight hours west of Greenwich, [until] read
    as 2024-03-15 (UTC midnight) is extended to 2024-03-15T07:59:59.999Z,
    and a pull request merged at 2024-03-15T23:59:59Z, which is the 15th of
    March on the local calendar too, is out of range. *)
Theorem isDateInRange_local_day_cutoff :
  DateTime.setHoursEndOfDay (DateTime.fixedLocalTime (-480)) (DateTime.fixedUTC (-480))
    (DateTime.parseISO "2024-03-15")
  = DateTime.parseISO "2024-03-15T07:59:59.999Z"
  /\ (DateTime.fixedLocalTime (-480) <$> DateTime.parseISO "2024-03-15T23:59:59Z")
     = DateTime.parseISO "2024-03-15T15:59:59Z"
  /\ Client.isDateInRange DateTime.parseISO
       (DateTime.fixedLocalTime (-480)) (DateTime.fixedUTC (-480))
       "2024-03-15T23:59:59Z" "2024-03-01" "2024-03-15" = false.
Proof. repeat split; vm_compute; reflexivity. Qed.

(** ** Reactive backoff in [request] *)

Section RequestFacts.
Variable Date_now : nat -> Z.
Variable fetch : nat -> string -> Request.RequestInit -> Request.Response.

Variable options : Request.RequestInit.

Local Abbreviation rateLimit := (Request.rateLimit Date_now).
Local Abbreviation backoff := (Request.backoff Date_now).
Local Abbreviation requestGo fuel endpoint :=
  (Request.requestGo Date_now fetch fuel endpoint options).
Local Abbreviation request endpoint := (Request.request Date_now fetch endpoint options).
Local Abbreviation received endpoint := (Request.received Date_now fetch endpoint options).
Local Abbreviation afterFetch endpoint := (Request.afterFetch Date_now fetch endpoint options).
Local Abbreviation afterBackoff endpoint :=
  (Request.afterBackoff Date_now fetch endpoint options).

Lemma throttled_iff (r : Request.Response) :
  Request.throttled r = true <->
  Request.status r = 429%Z
  \/ (Request.status r = 403%Z /\ Request.headerRemaining r = Some "0").
Proof.
  unfold Request.throttled.
  rewrite andb_true_iff, !orb_true_iff, !Z.eqb_eq, bool_decide_eq_true. tauto.
Qed.

Lemma requestGo_step (fuel : nat) (endpoint : string) (retryCount : nat)
    (st : Request.State) :
  requestGo (S fuel) endpoint retryCount st
  = let response := received endpoint st in
    let st2 := afterFetch endpoint st in
    if Request.throttled response then
      if Nat.leb 3 retryCount
      then Some (Request.Thrown
                   (Request.mkError Request.rateLimitMessage (Request.status response)
                      endpoint), st2)
      else requestGo fuel endpoint (S retryCount) (afterBackoff endpoint st)
    else if negb (Request.ok response)
    then Some (Request.Thrown (Request.apiError endpoint response), st2)
    else Some (Request.Returned (Request.payload response) (Request.headerLink response),
               st2).
Proof.
  unfold Request.afterBackoff, Request.received, Request.afterFetch.
  cbn [Request.requestGo].
  destruct (Request.doFetch fetch _ _ _) as [response st2]. cbn [fst snd].
  destruct (Request.throttled response); [| reflexivity].
  destruct (Nat.leb 3 retryCount); [reflexivity |].
  by destruct (Request.backoff Date_now response st2).
Qed.

(** [request] always comes back: with a value, or with an error. *)
Lemma requestGo_total (fuel : nat) (endpoint : string) (retryCount : nat)
    (st : Request.State) :
  3 - retryCount < fuel -> is_Some (requestGo fuel endpoint retryCount st).
Proof.
  revert retryCount st. induction fuel as [| fuel IH]; intros rc st Hf; [lia |].
  rewrite requestGo_step. cbv zeta.
  destruct (Request.throttled _).
  - destruct (Nat.leb_spec 3 rc); [by eexists |]. apply IH. lia.
  - destruct (negb _); by eexists.
Qed.

Lemma request_total (endpoint : string) (retryCount : nat) (st : Request.State) :
  is_Some (request endpoint retryCount st).
Proof. apply requestGo_total. lia. Qed.

(** The wait is 60 s without a reset header, and otherwise the distance
    to the reset, one second added, kept within 1 s and 300 s. *)
Lemma backoff_absent (r : Request.Response) (st : Request.State) :
  Request.headerReset r = None -> backoff r st = (Some 60000%Z, st).
Proof. intros H. unfold Request.backoff. by rewrite H. Qed.

Lemma backoff_present (r : Request.Response) (st : Request.State) (s : string)
    (seconds : Z) :
  Request.headerReset r = Some s -> Request.parseInt s = Some seconds ->
  fst (backoff r st)
  = Some (Z.min (Z.max (seconds * 1000 - Date_now (Request.clockReads st) + 1000) 1000)
            300000)%Z.
Proof.
  intros H Hp. unfold Request.backoff. rewrite H. simpl.
  destruct (String.eqb_spec s "") as [-> | _]; [discriminate |]. simpl.
  unfold Request.resetWait. by rewrite Hp.
Qed.

Lemma sleep_trace (ms : option Z) (st : Request.State) :
  Request.trace (Request.sleep ms st) = Request.trace st ++ [Request.Slept ms].
Proof. reflexivity. Qed.
End RequestFacts.

(** C5. Let a call of [request] with [retryCount] retries behind it receive
    a 429, or a 403 whose remaining quota is ['0']. If [retryCount < 3], the
    call sleeps and then is the call of the same endpoint and options with
    [retryCount + 1]; the time slept is 60000 ms when there is no reset
    header, and [min(max(reset * 1000 - now + 1000, 1000), 300000)] when the
    header reads [reset]. If three retries are behind it, the call throws
    the rate-limit error, carrying the status and the endpoint, and neither
    sleeps nor fetches again. *)
Theorem request_backoff
    (Date_now : nat -> Z) (fetch : nat -> string -> Request.RequestInit -> Request.Response)
    (endpoint : string) (options : Request.RequestInit) (retryCount : nat)
    (st : Request.State) :
  let response := Request.received Date_now fetch endpoint options st in
  let st2 := Request.afterFetch Date_now fetch endpoint options st in
  let wait := fst (Request.backoff Date_now response st2) in
  Request.status response = 429%Z
  \/ (Request.status response = 403%Z /\ Request.headerRemaining response = Some "0") ->
  (retryCount < 3 ->
     Request.request Date_now fetch endpoint options retryCount st
     = Request.request Date_now fetch endpoint options (S retryCount)
         (Request.afterBackoff Date_now fetch endpoint options st)
     /\ Request.trace (Request.afterBackoff Date_now fetch endpoint options st)
        = Request.trace st2 ++ [Request.Slept wait]
     /\ Request.fetches (Request.afterBackoff Date_now fetch endpoint options st)
        = Request.fetches st2
     /\ (Request.headerReset response = None -> wait = Some 60000%Z)
     /\ (forall s reset,
           Request.headerReset response = Some s -> Request.parseInt s = Some reset ->
           wait = Some (Z.min (Z.max (reset * 1000
                                      - Date_now (Request.clockReads st2) + 1000) 1000)
                          300000)%Z))
  /\ (3 <= retryCount ->
      Request.request Date_now fetch endpoint options retryCount st
      = Some (Request.Thrown
                (Request.mkError "Rate limit exceeded. Please wait and try again later."
                   (Request.status response) endpoint),
              st2)).
Proof.
  intros response st2 wait Hthr. apply throttled_iff in Hthr.
  split.
  - intros Hlt. split; [| split; [| split; [| split]]].
    + unfold Request.request.
      replace (S (3 - retryCount)) with (S (S (3 - S retryCount))) by lia.
      rewrite requestGo_step. cbv zeta. fold response. rewrite Hthr.
      destruct (Nat.leb_spec 3 retryCount); [lia | reflexivity].
    + unfold Request.afterBackoff. rewrite sleep_trace. fold response st2 wait.
      f_equal. unfold Request.backoff.
      destruct (Request.truthy _); reflexivity.
    + unfold Request.afterBackoff. fold response st2. unfold Request.backoff.
      destruct (Request.truthy _); reflexivity.
    + intros Habs. unfold wait. by rewrite backoff_absent.
    + intros s reset Hs Hp. unfold wait. by erewrite backoff_present.
  - intros Hge. unfold Request.request. rewrite requestGo_step. cbv zeta.
    fold response st2. rewrite Hthr.
    destruct (Nat.leb_spec 3 retryCount); [reflexivity | lia].
Qed.

Section RequestRuns.
Variable Date_now : nat -> Z.
Variable fetch : nat -> string -> Request.RequestInit -> Request.Response.
Variable options : Request.RequestInit.

Lemma fetches_rateLimit (st : Request.State) :
  Request.fetches (Request.rateLimit Date_now st) = Request.fetches st.
Proof.
  unfold Request.rateLimit, Request.readClock. cbn [Request.lastRequestTime].
  destruct (Z.ltb _ _); reflexivity.
Qed.

Lemma fetches_afterFetch (endpoint : string) (st : Request.State) :
  Request.fetches (Request.afterFetch Date_now fetch endpoint options st) = S (Request.fetches st).
Proof.
  unfold Request.afterFetch, Request.doFetch. cbn [snd Request.fetches].
  by rewrite fetches_rateLimit.
Qed.

Lemma fetches_afterBackoff (endpoint : string) (st : Request.State) :
  Request.fetches (Request.afterBackoff Date_now fetch endpoint options st)
  = S (Request.fetches st).
Proof.
  unfold Request.afterBackoff. cbv zeta. unfold Request.backoff.
  destruct (Request.truthy _); cbn [fst snd Request.sleep Request.readClock Request.fetches];
    apply fetches_afterFetch.
Qed.

(** Against a server that throttles every time, a call with [retryCount]
    retries behind it fetches once per retry it has left and once more,
    then throws the rate-limit error. *)
Lemma requestGo_gives_up (endpoint : string) (fuel retryCount : nat) (st : Request.State) :
  (forall k url o, Request.throttled (fetch k url o) = true) ->
  3 - retryCount < fuel ->
  exists e st',
    Request.requestGo Date_now fetch fuel endpoint options retryCount st
    = Some (Request.Thrown e, st')
    /\ Request.message e = Request.rateLimitMessage
    /\ Request.fetches st' = Request.fetches st + S (3 - retryCount).
Proof.
  intros Hall. revert retryCount st.
  induction fuel as [| fuel IH]; intros rc st Hf; [lia |].
  rewrite requestGo_step. cbv zeta.
  unfold Request.received at 1. unfold Request.doFetch at 1. cbn [fst].
  rewrite Hall.
  destruct (Nat.leb_spec 3 rc) as [Hge | Hlt].
  - eexists _, _. split; [reflexivity |]. split; [reflexivity |].
    rewrite fetches_afterFetch. lia.
  - destruct (IH (S rc) (Request.afterBackoff Date_now fetch endpoint options st)) as
      (e & st' & Hrun & Hmsg & Hfetches); [lia |].
    exists e, st'. split; [exact Hrun |]. split; [exact Hmsg |].
    rewrite Hfetches, fetches_afterBackoff. lia.
Qed.
End RequestRuns.

(** Seen from the caller: when the server throttles every time, a fresh
    request fetches four times (the first attempt and three retries) and
    then throws. *)
Lemma request_gives_up
    (Date_now : nat -> Z) (fetch : nat -> string -> Request.RequestInit -> Request.Response)
    (endpoint : string) (options : Request.RequestInit) (st : Request.State) :
  (forall k url o, Request.throttled (fetch k url o) = true) ->
  exists e st',
    Request.request Date_now fetch endpoint options 0 st = Some (Request.Thrown e, st')
    /\ Request.message e = Request.rateLimitMessage
    /\ Request.fetches st' = Request.fetches st + 4.
Proof.
  intros Hall.
  destruct (requestGo_gives_up Date_now fetch options endpoint 4 0 st Hall) as
    (e & st' & Hrun & Hmsg & Hfetches); [lia |].
  exists e, st'. split; [exact Hrun |]. split; [exact Hmsg |]. rewrite Hfetches. lia.
Qed.
Lemma request_backoff_witness :
  Request.request Ex.clock Ex.alwaysThrottled "/user" [] 3 Request.initial
  = Some (Request.Thrown
            (Request.mkError "Rate limit exceeded. Please wait and try again later."
               429%Z "/user"),
          Request.afterFetch Ex.clock Ex.alwaysThrottled "/user" [] Request.initial)
  /\ Request.trace (Request.afterBackoff Ex.clock Ex.alwaysThrottled "/user" [] Request.initial)
     = [Request.Fetched "https://api.github.com/user" []; Request.Slept (Some 1980%Z)].
Proof.
  split.
  - apply (proj2 (request_backoff Ex.clock Ex.alwaysThrottled "/user" [] 3 Request.initial
                    (or_introl eq_refl))).
    lia.
  - destruct (proj1 (request_backoff Ex.clock Ex.alwaysThrottled "/user" [] 0 Request.initial
                       (or_introl eq_refl)) ltac:(lia)) as (_ & Htrace & _).
    rewrite Htrace. vm_compute. reflexivity.
Defined.

(** ** Merging two features: PR numbers, dates, confidence *)

Lemma sorted_le_NoDup_lt (l : list Z) :
  StronglySorted Z.le l -> NoDup l -> StronglySorted Z.lt l.
Proof.
  induction 1 as [| x l Hs IH Hx]; intros Hnd; [constructor |].
  apply NoDup_cons in Hnd as [Hnotin Hnd].
  constructor; [by apply IH |].
  apply Forall_forall. intros y Hy.
  rewrite Forall_forall in Hx. specialize (Hx y Hy).
  assert (x <> y) by (intros ->; contradiction). lia.
Qed.

Lemma sorted_lt_NoDup (l : list Z) : StronglySorted Z.lt l -> NoDup l.
Proof.
  induction 1 as [| x l Hs IH Hx]; [constructor |].
  apply NoDup_cons. split; [| exact IH].
  intros Hin. rewrite Forall_forall in Hx. specialize (Hx x Hin). lia.
Qed.

Lemma Z_eqb_spec' (x y : Z) : Z.eqb x y = true <-> x = y.
Proof. apply Z.eqb_eq. Qed.

(** The [prs] of a merge: in strictly ascending order, and holding exactly
    the numbers of the two inputs. *)
Lemma mergeFeatures_prs (Date_parse : string -> option Z) (f1 f2 : Feature) :
  StronglySorted Z.lt (prs (Grouping.mergeFeatures Date_parse f1 f2))
  /\ forall n, n ∈ prs (Grouping.mergeFeatures Date_parse f1 f2) <-> n ∈ prs f1 \/ n ∈ prs f2.
Proof.
  unfold Grouping.mergeFeatures. cbn [prs].
  set (cmp := fun a b : Z => Some (a - b)%Z).
  set (u := JS.newSet Z.eqb (prs f1 ++ prs f2)).
  split.
  - apply sorted_le_NoDup_lt.
    + apply (sort_sorted cmp (fun _ => True) Z.le).
      * intros a b c. lia.
      * intros a b _ _. unfold JS.after, cmp. intros H%Z.ltb_lt. lia.
      * intros a b _ _. unfold JS.after, cmp. intros H%Z.ltb_ge. lia.
      * by apply Forall_forall.
    + rewrite sort_perm. apply (NoDup_newSet _ Z_eqb_spec').
  - intros n. rewrite sort_perm. unfold u.
    rewrite (elem_of_newSet _ Z_eqb_spec'), elem_of_app. reflexivity.
Qed.

(** C7. The merge of two features has as [prs] the numbers of both inputs,
    without repetition and in ascending order; its confidence is [medium]
    when the two confidences differ and the common value otherwise; and,
    the four dates being valid, its [startDate] is the earlier of the two
    start dates and its [endDate] the later of the two end dates. *)
Theorem mergeFeatures_union_range_confidence
    (Date_parse : string -> option Z) (f1 f2 : Feature) (s1 s2 e1 e2 : Z) :
  Date_parse (startDate f1) = Some s1 -> Date_parse (startDate f2) = Some s2 ->
  Date_parse (endDate f1) = Some e1 -> Date_parse (endDate f2) = Some e2 ->
  let merged := Grouping.mergeFeatures Date_parse f1 f2 in
  StronglySorted Z.lt (prs merged)
  /\ NoDup (prs merged)
  /\ (forall n, n ∈ prs merged <-> n ∈ prs f1 \/ n ∈ prs f2)
  /\ (startDate merged = startDate f1 \/ startDate merged = startDate f2)
  /\ Date_parse (startDate merged) = Some (Z.min s1 s2)
  /\ (endDate merged = endDate f1 \/ endDate merged = endDate f2)
  /\ Date_parse (endDate merged) = Some (Z.max e1 e2)
  /\ confidence merged
     = (if decide (confidence f1 = confidence f2) then confidence f1 else medium).
Proof.
  intros Hs1 Hs2 He1 He2 merged.
  destruct (mergeFeatures_prs Date_parse f1 f2) as [Hsorted Hmem].
  split; [exact Hsorted |].
  split; [by apply sorted_lt_NoDup |].
  split; [exact Hmem |].
  unfold merged, Grouping.mergeFeatures. cbn [startDate endDate confidence].
  rewrite Hs1, Hs2, He1, He2. unfold JS.gt, JS.lt.
  split; [destruct (Z.ltb s1 s2); auto |].
  split; [destruct (Z.ltb_spec s1 s2); [rewrite Hs1 | rewrite Hs2]; f_equal; lia |].
  split; [destruct (Z.ltb e2 e1); auto |].
  split; [destruct (Z.ltb_spec e2 e1); [rewrite He1 | rewrite He2]; f_equal; lia |].
  clear. destruct f1 as [? ? ? ? ? ? ? c1], f2 as [? ? ? ? ? ? ? c2].
  destruct c1, c2; reflexivity.
Qed.

Lemma mergeFeatures_union_range_confidence_witness :
  prs (Grouping.mergeFeatures DateTime.parseISO Ex.f_button Ex.f_feature) = [1%Z; 2%Z]
  /\ startDate (Grouping.mergeFeatures DateTime.parseISO Ex.f_button Ex.f_feature)
     = "2024-02-27T09:00:00Z"
  /\ DateTime.parseISO
       (endDate (Grouping.mergeFeatures DateTime.parseISO Ex.f_button Ex.f_feature))
     = Some (Z.max 1709294400000 1710504000000).
Proof.
  pose proof (mergeFeatures_union_range_confidence DateTime.parseISO Ex.f_button Ex.f_feature
                1709024400000 1710061200000 1709294400000 1710504000000
                eq_refl eq_refl eq_refl eq_refl) as H.
  split; [reflexivity |]. split; [reflexivity |].
  exact (proj1 (proj2 (proj2 (proj2 (proj2 (proj2 (proj2 H))))))).
Defined.

(** ** Deduplication and ordering of the discovered pull requests *)

(** *** The map key determines the identity *)

Lemma string_of_uint_noHash (d : Decimal.uint) :
  Inv.noHash (DecimalString.NilEmpty.string_of_uint d).
Proof. induction d; simpl; auto; split; auto; discriminate. Qed.

Lemma numberToString_noHash (n : Z) : Inv.noHash (JS.numberToString n).
Proof.
  unfold JS.numberToString, DecimalString.NilEmpty.string_of_int.
  destruct (Z.to_int n); [apply string_of_uint_noHash |].
  split; [discriminate | apply string_of_uint_noHash].
Qed.

Lemma numberToString_inj (a b : Z) : JS.numberToString a = JS.numberToString b -> a = b.
Proof.
  unfold JS.numberToString. intros H. apply DecimalZ.to_int_inj.
  apply (f_equal DecimalString.NilEmpty.int_of_string) in H.
  rewrite !DecimalString.NilEmpty.isi in H. congruence.
Qed.

(** The last [#] of a key separates the repository from the number. *)
Lemma split_at_last_hash (s1 s2 d1 d2 : string) :
  Inv.noHash d1 -> Inv.noHash d2 ->
  s1 +:+ "#" +:+ d1 = s2 +:+ "#" +:+ d2 -> s1 = s2 /\ d1 = d2.
Proof.
  intros H1 H2.
  assert (Hno : forall s d, Inv.noHash (s +:+ "#" +:+ d) -> False).
  { intros s d. induction s as [| c s IH]; rewrite ?append_cons, ?append_nil_l; simpl; tauto. }
  revert s2. induction s1 as [| c s1 IH]; intros s2 E.
  - destruct s2 as [| c2 s2]; rewrite ?append_cons, ?append_nil_l in E.
    + by injection E.
    + injection E as Ec Ed. exfalso. subst d1. by apply Hno in H1.
  - destruct s2 as [| c2 s2]; rewrite ?append_cons, ?append_nil_l in E.
    + injection E as Ec Ed. exfalso. subst d2. by apply Hno in H2.
    + injection E as Ec Ed. subst c2. destruct (IH s2 Ed) as [-> ->]. by split.
Qed.

Lemma prKey_inj (p q : PullRequest) : Client.prKey p = Client.prKey q <-> Spec.prId p = Spec.prId q.
Proof.
  unfold Client.prKey, Spec.prId. split.
  - intros E.
    apply split_at_last_hash in E as [Er En]; try apply numberToString_noHash.
    apply numberToString_inj in En. congruence.
  - intros [= -> ->]. reflexivity.
Qed.

(** *** The [uniquePRs] map keeps first occurrences *)

Lemma uniqueAdd_has (acc : list (string * PullRequest)) (k : string) :
  existsb (fun kv => String.eqb k (fst kv)) acc = true <-> k ∈ map fst acc.
Proof.
  rewrite existsb_exists, list_elem_of_fmap. split.
  - intros (kv & Hin & E). apply String.eqb_eq in E. exists kv.
    split; [assumption | by apply list_elem_of_In].
  - intros (kv & -> & Hin). exists kv.
    split; [by apply list_elem_of_In | apply String.eqb_refl].
Qed.

Lemma fold_uniqueAdd (l : list PullRequest) (acc : list (string * PullRequest))
    (seen : list (string * Z)) :
  (forall p, Client.prKey p ∈ map fst acc <-> Spec.prId p ∈ seen) ->
  map snd (fold_left Client.uniqueAdd l acc) = map snd acc ++ Spec.keepFirst seen l.
Proof.
  revert acc seen. induction l as [| p l IH]; intros acc seen Hinv; simpl.
  - by rewrite app_nil_r.
  - unfold Client.uniqueAdd at 2.
    destruct (existsb _ acc) eqn:E.
    + apply uniqueAdd_has, Hinv in E. rewrite bool_decide_eq_true_2 by assumption.
      by apply IH.
    + assert (Hnot : Spec.prId p ∉ seen).
      { intros Hin. apply Hinv, uniqueAdd_has in Hin. congruence. }
      rewrite bool_decide_eq_false_2 by assumption.
      rewrite (IH _ (Spec.prId p :: seen)).
      * rewrite map_app. simpl. by rewrite <- app_assoc.
      * intros q. rewrite map_app, elem_of_app, elem_of_cons. simpl.
        rewrite list_elem_of_singleton, prKey_inj, Hinv. tauto.
Qed.

Lemma keepFirst_first (seen : list (string * Z)) (l : list PullRequest) (p : PullRequest) :
  p ∈ Spec.keepFirst seen l ->
  (Spec.prId p ∉ seen)
  /\ exists l1 l2, l = l1 ++ p :: l2 /\ forall q, q ∈ l1 -> Spec.prId q <> Spec.prId p.
Proof.
  revert seen. induction l as [| x l IH]; intros seen Hin; simpl in Hin.
  - by apply elem_of_nil in Hin.
  - destruct (bool_decide_reflect (Spec.prId x ∈ seen)) as [Hx | Hx].
    + destruct (IH _ Hin) as (Hp & l1 & l2 & -> & Hl1). split; [assumption |].
      exists (x :: l1), l2. split; [reflexivity |].
      intros q [-> | Hq]%elem_of_cons; [| by apply Hl1].
      intros E. rewrite E in Hx. contradiction.
    + apply elem_of_cons in Hin as [-> | Hin].
      * split; [assumption |]. exists [], l. split; [reflexivity |].
        intros q Hq. by apply elem_of_nil in Hq.
      * destruct (IH _ Hin) as (Hp & l1 & l2 & -> & Hl1).
        rewrite not_elem_of_cons in Hp. destruct Hp as [Hne Hp].
        split; [assumption |].
        exists (x :: l1), l2. split; [reflexivity |].
        intros q [-> | Hq]%elem_of_cons; [congruence | by apply Hl1].
Qed.

Lemma keepFirst_cover (seen : list (string * Z)) (l : list PullRequest) (q : PullRequest) :
  q ∈ l ->
  Spec.prId q ∈ seen \/ exists p, p ∈ Spec.keepFirst seen l /\ Spec.prId p = Spec.prId q.
Proof.
  revert seen. induction l as [| x l IH]; intros seen Hq; simpl.
  - by apply elem_of_nil in Hq.
  - destruct (bool_decide_reflect (Spec.prId x ∈ seen)) as [Hx | Hx].
    + apply elem_of_cons in Hq as [-> | Hq]; [by left | by apply IH].
    + apply elem_of_cons in Hq as [-> | Hq].
      * right. exists x. split; [left | reflexivity].
      * destruct (IH (Spec.prId x :: seen) Hq) as [[E | Hs]%elem_of_cons | (p & Hp & E)].
        -- right. exists x. split; [left | by symmetry].
        -- by left.
        -- right. exists p. split; [by right | assumption].
Qed.

Lemma keepFirst_NoDup (seen : list (string * Z)) (l : list PullRequest) :
  NoDup (map Spec.prId (Spec.keepFirst seen l)).
Proof.
  revert seen. induction l as [| x l IH]; intros seen; simpl; [constructor |].
  destruct (bool_decide_reflect (Spec.prId x ∈ seen)) as [Hx | Hx]; [apply IH |].
  simpl. apply NoDup_cons. split; [| apply IH].
  intros (p & E & Hp)%list_elem_of_fmap.
  apply keepFirst_first in Hp as [Hp _]. apply Hp. rewrite E. left.
Qed.

(** The result of the dedup step, before sorting. *)
Lemma uniquePRs_keepFirst (allPRs : list PullRequest) :
  map snd (fold_left Client.uniqueAdd allPRs []) = Spec.keepFirst [] allPRs.
Proof.
  rewrite (fold_uniqueAdd allPRs [] []); [reflexivity |].
  intros p. simpl. rewrite !elem_of_nil. tauto.
Qed.

Lemma dedupAndSort_perm (Date_parse : string -> option Z) (allPRs : list PullRequest) :
  Client.dedupAndSort Date_parse allPRs ≡ₚ Spec.keepFirst [] allPRs.
Proof. unfold Client.dedupAndSort. by rewrite sort_perm, uniquePRs_keepFirst. Qed.

Lemma mergedNoLater_trans (Date_parse : string -> option Z) (a b c : PullRequest) :
  Spec.mergedNoLater Date_parse a b -> Spec.mergedNoLater Date_parse b c ->
  Spec.mergedNoLater Date_parse a c.
Proof.
  intros (ta & tb & Ha & Hb & Hab) (tb' & tc & Hb' & Hc & Hbc).
  exists ta, tc. repeat split; try assumption. rewrite Hb in Hb'. injection Hb' as <-. lia.
Qed.

Lemma dedupAndSort_sorted (Date_parse : string -> option Z) (allPRs : list PullRequest) :
  Forall (fun p => is_Some (Date_parse (mergedAt p))) allPRs ->
  StronglySorted (Spec.mergedNoLater Date_parse) (Client.dedupAndSort Date_parse allPRs).
Proof.
  intros Hvalid. unfold Client.dedupAndSort.
  apply (sort_sorted _ (fun p => is_Some (Date_parse (mergedAt p)))).
  - apply mergedNoLater_trans.
  - intros a b [ta Ha] [tb Hb]. unfold JS.after, Client.byMergedAt. rewrite Ha, Hb. simpl.
    intros H%Z.ltb_lt. exists tb, ta. repeat split; try assumption. lia.
  - intros a b [ta Ha] [tb Hb]. unfold JS.after, Client.byMergedAt. rewrite Ha, Hb. simpl.
    intros H%Z.ltb_ge. exists ta, tb. repeat split; try assumption. lia.
  - rewrite uniquePRs_keepFirst. rewrite Forall_forall in Hvalid. apply Forall_forall.
    intros p Hp. apply Hvalid. apply keepFirst_first in Hp as (_ & l1 & l2 & -> & _).
    rewrite elem_of_app. right. left.
Qed.

(** C3. Whatever list [allPRs] the strategies' outputs concatenate to,
    [fetchAllMergedPRs] returns a list that has at most one entry per
    [(repoFullName, number)], whose every entry is the first occurrence of
    its pair in [allPRs] (and every pair of [allPRs] has its entry), and
    that is in ascending order of merge time, the merge timestamps being
    valid dates. *)
Theorem fetchAllMergedPRs_dedup_sorted
    (Date_parse : string -> option Z) (options : Client.GitHubClientOptions)
    (listMergedPRs : string -> string -> string -> string -> option (list PullRequest))
    (globalSearch : string -> string -> string -> option (list PullRequest))
    (userOrgs : list string) (orgRepos : string -> list string)
    (username since until : string) (allPRs : list PullRequest) :
  Client.discovered options listMergedPRs globalSearch userOrgs orgRepos username since until
    = Some allPRs ->
  exists result,
    Client.fetchAllMergedPRs Date_parse options listMergedPRs globalSearch userOrgs orgRepos
      username since until = Some result
    /\ NoDup (map Spec.prId result)
    /\ (forall p, p ∈ result ->
          exists before rest,
            allPRs = before ++ p :: rest
            /\ forall q, q ∈ before -> Spec.prId q <> Spec.prId p)
    /\ (forall q, q ∈ allPRs -> exists p, p ∈ result /\ Spec.prId p = Spec.prId q)
    /\ (Forall (fun p => is_Some (Date_parse (mergedAt p))) allPRs ->
        StronglySorted (Spec.mergedNoLater Date_parse) result).
Proof.
  intros Hall. exists (Client.dedupAndSort Date_parse allPRs).
  split; [unfold Client.fetchAllMergedPRs; by rewrite Hall |].
  pose proof (dedupAndSort_perm Date_parse allPRs) as Hperm.
  split; [| split; [| split]].
  - rewrite Hperm. apply keepFirst_NoDup.
  - intros p Hp. rewrite Hperm in Hp. by apply keepFirst_first in Hp as [_ ?].
  - intros q Hq. destruct (keepFirst_cover [] allPRs q Hq) as [Hnil | (p & Hp & E)].
    + by apply elem_of_nil in Hnil.
    + exists p. split; [by rewrite Hperm | assumption].
  - apply dedupAndSort_sorted.
Qed.

Lemma fetchAllMergedPRs_dedup_sorted_witness :
  Client.fetchAllMergedPRs DateTime.parseISO Ex.onlyRepoAB Ex.scanAB (fun _ _ _ => None) []
    (fun _ => []) "octocat" "2024-01-01" "2024-12-31" = Some [Ex.pr1; Ex.pr2]
  /\ exists result,
      Client.fetchAllMergedPRs DateTime.parseISO Ex.onlyRepoAB Ex.scanAB (fun _ _ _ => None) []
        (fun _ => []) "octocat" "2024-01-01" "2024-12-31" = Some result
      /\ NoDup (map Spec.prId result).
Proof.
  split; [vm_compute; reflexivity |].
  destruct (fetchAllMergedPRs_dedup_sorted DateTime.parseISO Ex.onlyRepoAB Ex.scanAB
              (fun _ _ _ => None) [] (fun _ => []) "octocat" "2024-01-01" "2024-12-31"
              [Ex.pr2; Ex.pr1; Ex.pr2] eq_refl) as (result & Hres & Hnd & _).
  exists result. split; assumption.
Defined.

(** ** The edit-distance matrix *)

Lemma wellFormed_mset (m n : nat) (dp : list (list nat)) (i j v : nat) :
  Inv.wellFormed m n dp -> Inv.wellFormed m n (Grouping.mset dp i j v).
Proof.
  intros [Hlen Hrows]. unfold Grouping.mset. split.
  - by rewrite length_alter.
  - apply Forall_alter; [assumption |]. intros row _ Hrow. by rewrite length_insert.
Qed.

Lemma mget_mset_same (m n : nat) (dp : list (list nat)) (i j v : nat) :
  Inv.wellFormed m n dp -> i <= m -> j <= n -> Grouping.mget (Grouping.mset dp i j v) i j = v.
Proof.
  intros [Hlen Hrows] Hi Hj. unfold Grouping.mget, Grouping.mset.
  rewrite list_lookup_alter_eq.
  destruct (lookup_lt_is_Some_2 dp i) as [row Hrow]; [lia |].
  rewrite Hrow. simpl.
  rewrite list_lookup_insert_eq; [reflexivity |].
  rewrite Forall_forall in Hrows. rewrite (Hrows row); [lia |].
  by eapply list_elem_of_lookup_2.
Qed.

Lemma mget_mset_other (dp : list (list nat)) (i j v i' j' : nat) :
  i <> i' \/ j <> j' -> Grouping.mget (Grouping.mset dp i j v) i' j' = Grouping.mget dp i' j'.
Proof.
  intros Hne. unfold Grouping.mget, Grouping.mset.
  destruct (decide (i = i')) as [<- | Hi].
  - rewrite list_lookup_alter_eq. destruct (dp !! i) as [row |]; [| reflexivity].
    simpl. rewrite list_lookup_insert_ne; [reflexivity | tauto].
  - by rewrite list_lookup_alter_ne.
Qed.

(** A [for] loop over [a, a + 1, ..., a + k - 1] keeps an invariant that
    every round keeps. *)
Lemma fold_left_seq_invariant {X : Type} (f : X -> nat -> X) (P : nat -> X -> Prop)
    (a k : nat) (x0 : X) :
  P a x0 ->
  (forall i x, a <= i < a + k -> P i x -> P (S i) (f x i)) ->
  P (a + k) (fold_left f (seq a k) x0).
Proof.
  revert a x0. induction k as [| k IH]; intros a x0 H0 Hstep; simpl.
  - by rewrite Nat.add_0_r.
  - rewrite Nat.add_succ_r. apply (IH (S a)).
    + apply Hstep; [lia | assumption].
    + intros i x Hi. apply Hstep. lia.
Qed.

Lemma prefixDistance_0_r (s t : string) (i : nat) : Spec.prefixDistance s t i 0 = i.
Proof. by destruct i. Qed.

Lemma prefixDistance_step (s t : string) (i j : nat) :
  Spec.prefixDistance s t (S i) (S j)
  = Grouping.min3 (Spec.prefixDistance s t i (S j) + 1)
      (Spec.prefixDistance s t (S i) j + 1)
      (Spec.prefixDistance s t i j + Spec.cost (String.get i s) (String.get j t)).
Proof. reflexivity. Qed.

Section Matrix.
Variables str1 str2 : string.

Local Abbreviation m := (String.length str1).
Local Abbreviation n := (String.length str2).
Local Abbreviation L := (Spec.prefixDistance str1 str2).

Local Abbreviation filled := (Inv.filled str1 str2).

Lemma fillCell_filled (i j : nat) (dp : list (list nat)) :
  1 <= i <= m -> 1 <= j <= n ->
  filled i j dp -> filled i (S j) (Grouping.fillCell str1 str2 i dp j).
Proof.
  intros Hi Hj [Hwf Hcells]. unfold Grouping.fillCell. split.
  - by apply wellFormed_mset.
  - intros i' j' Hi' Hj' Hwhere.
    destruct (decide (i = i' /\ j = j')) as [[<- <-] | Hother].
    + rewrite (mget_mset_same m n) by (assumption || lia).
      destruct i as [| i0]; [lia |]. destruct j as [| j0]; [lia |].
      simpl Nat.sub. rewrite !Nat.sub_0_r.
      rewrite !Hcells by lia.
      symmetry. apply prefixDistance_step.
    + rewrite mget_mset_other by (destruct (decide (i = i')); [right | left]; tauto).
      apply Hcells; [assumption | assumption | lia].
Qed.

Lemma fillRow_filled (i : nat) (dp : list (list nat)) :
  1 <= i <= m ->
  filled i 0 dp ->
  filled (S i) 0 (fold_left (Grouping.fillCell str1 str2 i) (seq 1 n) dp).
Proof.
  intros Hi H0.
  assert (Hrow : filled i (1 + n)
                   (fold_left (Grouping.fillCell str1 str2 i) (seq 1 n) dp)).
  { apply (fold_left_seq_invariant _ (filled i)).
    - destruct H0 as [Hwf Hcells]. split; [assumption |].
      intros i' j' ? ? ?. apply Hcells; [assumption | assumption | lia].
    - intros j x Hj Hx. apply fillCell_filled; [assumption | lia | assumption]. }
  destruct Hrow as [Hwf Hcells]. split; [assumption |].
  intros i' j' ? ? ?. apply Hcells; [assumption | assumption | lia].
Qed.

Lemma initial_filled :
  filled 1 0
    (fold_left (fun dp j => Grouping.mset dp 0 j j) (seq 0 (n + 1))
       (fold_left (fun dp i => Grouping.mset dp i 0 i) (seq 0 (m + 1))
          (replicate (m + 1) (replicate (n + 1) 0)))).
Proof.
  set (dp0 := replicate (m + 1) (replicate (n + 1) 0)).
  assert (H0 : Inv.wellFormed m n dp0).
  { unfold dp0. split; [rewrite length_replicate; lia |].
    apply Forall_replicate. rewrite length_replicate. lia. }
  set (P1 := fun (k : nat) (dp : list (list nat)) =>
               Inv.wellFormed m n dp /\ forall i, i < k -> i <= m -> Grouping.mget dp i 0 = i).
  assert (H1 : P1 (0 + (m + 1))
                 (fold_left (fun dp i => Grouping.mset dp i 0 i) (seq 0 (m + 1)) dp0)).
  { apply (fold_left_seq_invariant _ P1).
    - split; [assumption | intros; lia].
    - intros i dp Hi [Hwf Hcol]. split; [by apply wellFormed_mset |].
      intros i' Hlt Hle. destruct (decide (i = i')) as [<- | Hne].
      + by rewrite (mget_mset_same m n) by (assumption || lia).
      + rewrite mget_mset_other by tauto. apply Hcol; lia. }
  set (dp1 := fold_left _ (seq 0 (m + 1)) dp0) in *.
  set (P2 := fun (k : nat) (dp : list (list nat)) =>
               Inv.wellFormed m n dp
               /\ (forall i, i <= m -> Grouping.mget dp i 0 = i)
               /\ forall j, j < k -> j <= n -> Grouping.mget dp 0 j = j).
  assert (H2 : P2 (0 + (n + 1)) (fold_left (fun dp j => Grouping.mset dp 0 j j)
                                   (seq 0 (n + 1)) dp1)).
  { apply (fold_left_seq_invariant _ P2).
    - destruct H1 as [Hwf Hcol]. split; [assumption |].
      split; [intros; apply Hcol; lia | intros; lia].
    - intros j dp Hj (Hwf & Hcol & Hrow). split; [by apply wellFormed_mset |]. split.
      + intros i Hi. destruct (decide (0 = i /\ j = 0)) as [[<- ->] | Hne].
        * by rewrite (mget_mset_same m n) by (assumption || lia).
        * rewrite mget_mset_other by lia. by apply Hcol.
      + intros j' Hlt Hle. destruct (decide (j = j')) as [<- | Hne].
        * by rewrite (mget_mset_same m n) by (assumption || lia).
        * rewrite mget_mset_other by tauto. apply Hrow; lia. }
  destruct H2 as (Hwf & Hcol & Hrow). split; [assumption |].
  intros i' j' Hi' Hj' [-> | [-> | [Hlt | [_ Hlt]]]].
  - by rewrite Hrow by lia.
  - by rewrite Hcol, prefixDistance_0_r.
  - assert (i' = 0) as -> by lia. by rewrite Hrow by lia.
  - lia.
Qed.

(** The matrix computes the recurrence: [levenshteinDistance] returns the
    edit distance of its arguments. *)
Lemma levenshteinDistance_editDistance :
  Grouping.levenshteinDistance str1 str2 = Spec.editDistance str1 str2.
Proof.
  unfold Grouping.levenshteinDistance, Spec.editDistance.
  set (dp2 := fold_left (fun dp j => Grouping.mset dp 0 j j) _ _).
  assert (H3 : filled (1 + m) 0
                 (fold_left (fun dp i => fold_left (Grouping.fillCell str1 str2 i) (seq 1 n) dp)
                    (seq 1 m) dp2)).
  { apply (fold_left_seq_invariant _ (fun i => filled i 0)).
    - apply initial_filled.
    - intros i dp Hi Hdp. apply fillRow_filled; [lia | assumption]. }
  destruct H3 as [_ Hcells]. apply Hcells; lia.
Qed.
End Matrix.

(** ** Tokens *)

(** After lower-casing and the replacement of [[^\w\s]], a character that is
    not white space is one of [a-z0-9_]. *)
Lemma cleaned_char (c : ascii) :
  let l := JS.lowerChar c in
  let c' := if JS.isWordChar l || JS.isSpace l then l else " "%char in
  JS.isSpace c' = false -> Inv.isTokenChar c' = true.
Proof.
  destruct c as [[] [] [] [] [] [] [] []]; vm_compute; intros H; (reflexivity || discriminate).
Qed.

Lemma cleaned_chars (s : string) :
  Inv.everyChar (fun c => JS.isSpace c = false -> Inv.isTokenChar c = true)
    (JS.replaceNonWord (JS.toLowerCase s)).
Proof.
  induction s as [| c s IH]; simpl; [exact I |]. split; [apply cleaned_char | exact IH].
Qed.

Lemma everyChar_snoc (P : ascii -> Prop) (s : string) (c : ascii) :
  Inv.everyChar P s -> P c -> Inv.everyChar P (s +:+ String c EmptyString).
Proof.
  induction s as [| d s IH]; rewrite ?append_cons, ?append_nil_l; simpl; tauto.
Qed.

(** The pieces of a split are made of the characters that are not white
    space. *)
Lemma splitGo_chars (P : ascii -> Prop) (s cur : string) (inRun : bool) (w : string) :
  Inv.everyChar (fun c => JS.isSpace c = false -> P c) s ->
  Inv.everyChar P cur ->
  w ∈ JS.splitGo s cur inRun -> Inv.everyChar P w.
Proof.
  revert cur inRun. induction s as [| c s IH]; intros cur inRun Hs Hcur Hw; simpl in *.
  - apply list_elem_of_singleton in Hw. by subst.
  - destruct Hs as [Hc Hs]. destruct (JS.isSpace c) eqn:E.
    + destruct inRun.
      * by apply (IH cur true).
      * apply elem_of_cons in Hw as [-> | Hw]; [assumption |].
        by apply (IH EmptyString true).
    + apply (IH (cur +:+ String c EmptyString) false); try assumption.
      apply everyChar_snoc; auto.
Qed.

(** A token has more than two characters, all of them among [a-z0-9_]. *)
Lemma normalize_tokens (s w : string) :
  w ∈ Grouping.normalize s ->
  2 < String.length w /\ Inv.everyChar (fun c => Inv.isTokenChar c = true) w.
Proof.
  unfold Grouping.normalize. intros [Hw Hlen]%elem_of_List_filter. split.
  - by apply Nat.ltb_lt.
  - apply (splitGo_chars _ _ EmptyString false w (cleaned_chars s)); [exact I | exact Hw].
Qed.

(** ** Title similarity *)

Lemma string_eqb_spec' (x y : string) : String.eqb x y = true <-> x = y.
Proof. apply String.eqb_eq. Qed.

(** The size of a [Set] built from an array is the number of distinct
    values of the array. *)
Lemma length_newSet (l : list string) :
  length (JS.newSet String.eqb l) = size (list_to_set l : gset string).
Proof.
  rewrite <- (size_list_to_set (C := gset string) (JS.newSet String.eqb l))
    by apply (NoDup_newSet _ string_eqb_spec').
  f_equal. apply set_eq. intros x.
  rewrite !elem_of_list_to_set. apply (elem_of_newSet _ string_eqb_spec').
Qed.

Lemma list_to_set_newSet (l : list string) :
  (list_to_set (JS.newSet String.eqb l) : gset string) = list_to_set l.
Proof.
  apply set_eq. intros x.
  rewrite !elem_of_list_to_set. apply (elem_of_newSet _ string_eqb_spec').
Qed.

Lemma tokens_nil_iff (s : string) :
  length (JS.newSet String.eqb (Grouping.normalize s)) = 0 <-> Grouping.normalize s = [].
Proof.
  split.
  - intros H. apply (newSet_nil_inv _ string_eqb_spec'). by apply length_zero_iff_nil.
  - intros ->. reflexivity.
Qed.

(** The regular expressions of [normalize] against the words of the token
    set: [/[^\w\s]/g] matches the punctuation, and the pieces that
    [split(/\s+/)] returns are the stretches between white space, the empty
    ones between neighbouring white-space characters left out. *)
Lemma replaceNonWord_unpunctuate (s : string) :
  JS.replaceNonWord s = Spec.unpunctuate s.
Proof.
  induction s as [| c rest IH]; [reflexivity |].
  cbn [JS.replaceNonWord Spec.unpunctuate]. rewrite IH. unfold Spec.punctuation.
  by destruct (JS.isWordChar c), (JS.isSpace c).
Qed.

Lemma stretches_cons (s : string) : exists first others, Spec.stretches s = first :: others.
Proof.
  destruct s as [| c rest]; [by eexists _, _ |]. cbn [Spec.stretches].
  destruct (JS.isSpace c); [by eexists _, _ |].
  destruct (Spec.stretches rest); by eexists _, _.
Qed.

Lemma append_assoc (a b c : string) : (a +:+ b) +:+ c = a +:+ (b +:+ c).
Proof. induction a as [| x a IH]; [reflexivity |]. by rewrite !append_cons, IH. Qed.

Lemma append_nil_r (s : string) : s +:+ "" = s.
Proof. induction s as [| c s IH]; [reflexivity |]. by rewrite append_cons, IH. Qed.

Lemma splitGo_stretches (s : string) :
  let long := fun word => Nat.ltb 2 (String.length word) in
  (forall cur first others,
     Spec.stretches s = first :: others ->
     List.filter long (JS.splitGo s cur false) = List.filter long ((cur +:+ first) :: others))
  /\ List.filter long (JS.splitGo s "" true) = List.filter long (Spec.stretches s).
Proof.
  intros long. induction s as [| c rest [IHa IHb]].
  - split; [| reflexivity]. intros cur first others [= <- <-].
    cbn [JS.splitGo]. by rewrite append_nil_r.
  - cbn [JS.splitGo Spec.stretches]. destruct (JS.isSpace c).
    + split.
      * intros cur first others [= <- <-]. rewrite append_nil_r.
        cbn [List.filter]. by rewrite IHb.
      * by rewrite IHb.
    + destruct (stretches_cons rest) as (first' & others' & E). rewrite E. split.
      * intros cur first others [= <- <-]. rewrite (IHa _ _ _ E).
        by rewrite append_assoc.
      * by rewrite (IHa _ _ _ E).
Qed.

Lemma tokenSet_normalize (s : string) :
  Spec.tokenSet s = list_to_set (Grouping.normalize s).
Proof.
  unfold Spec.tokenSet, Grouping.normalize, JS.splitSpaces.
  rewrite replaceNonWord_unpunctuate. f_equal.
  destruct (stretches_cons (Spec.unpunctuate (JS.toLowerCase s))) as (first & others & E).
  by rewrite (proj1 (splitGo_stretches _) "" first others E), E.
Qed.

(** [calculateSimilarity] computes the Jaccard similarity of the two token
    sets. *)
Lemma calculateSimilarity_jaccard (str1 str2 : string) :
  (Grouping.calculateSimilarity str1 str2
   == Spec.jaccard (Spec.tokenSet str1) (Spec.tokenSet str2))%Q.
Proof.
  rewrite !tokenSet_normalize. unfold Grouping.calculateSimilarity, Spec.jaccard.
  change (fun n => inject_Z (Z.of_nat n)) with Grouping.ofNat.
  set (t1 := JS.newSet String.eqb (Grouping.normalize str1)).
  set (t2 := JS.newSet String.eqb (Grouping.normalize str2)).
  set (A := list_to_set (Grouping.normalize str1) : gset string).
  set (B := list_to_set (Grouping.normalize str2) : gset string).
  assert (HA : (list_to_set t1 : gset string) = A) by apply list_to_set_newSet.
  assert (HB : (list_to_set t2 : gset string) = B) by apply list_to_set_newSet.
  assert (Hinter : length (JS.newSet String.eqb
                             (List.filter (fun x => JS.has String.eqb x t2) t1))
                   = size (A ∩ B)).
  { rewrite length_newSet. f_equal. apply set_eq. intros x.
    rewrite elem_of_list_to_set, elem_of_intersection, <- HA, <- HB.
    rewrite !elem_of_list_to_set, elem_of_List_filter.
    by rewrite (has_true _ string_eqb_spec'). }
  assert (Hunion : length (JS.newSet String.eqb (t1 ++ t2)) = size (A ∪ B)).
  { rewrite length_newSet, list_to_set_app_L. by rewrite HA, HB. }
  destruct (Nat.eqb_spec (length t1) 0) as [E1 | E1]; simpl.
  - apply tokens_nil_iff in E1. subst A. rewrite E1. simpl.
    rewrite intersection_empty_l_L, size_empty. reflexivity.
  - destruct (Nat.eqb_spec (length t2) 0) as [E2 | E2].
    + apply tokens_nil_iff in E2. subst B. rewrite E2. simpl.
      rewrite intersection_empty_r_L, size_empty. reflexivity.
    + by rewrite Hinter, Hunion.
Qed.

Lemma levenshteinSimilarity_editSimilarity (str1 str2 : string) :
  (Grouping.levenshteinSimilarity str1 str2 == Spec.editSimilarity str1 str2)%Q.
Proof.
  unfold Grouping.levenshteinSimilarity, Spec.editSimilarity.
  destruct (Nat.eqb_spec (Nat.max (String.length str1) (String.length str2)) 0) as [E | E];
    [| by rewrite levenshteinDistance_editDistance].
  destruct str1; [| simpl in E; lia]. destruct str2; [| simpl in E; lia].
  reflexivity.
Qed.

(** What [featureSimilarity] returns, behind its two gates. *)
Lemma featureSimilarity_gate (f1 f2 : Feature) :
  project f1 <> project f2 \/ type f1 <> type f2 ->
  Grouping.featureSimilarity f1 f2 = 0%Q.
Proof.
  unfold Grouping.featureSimilarity. intros [Hp | Ht].
  - destruct (String.eqb_spec (project f1) (project f2)); [contradiction | reflexivity].
  - destruct (String.eqb (project f1) (project f2)); [| reflexivity]. simpl.
    by rewrite bool_decide_eq_false_2.
Qed.

Lemma featureSimilarity_open (f1 f2 : Feature) :
  project f1 = project f2 -> type f1 = type f2 ->
  Grouping.featureSimilarity f1 f2
  = (Grouping.calculateSimilarity (title f1) (title f2) * (6 # 10)
     + Grouping.levenshteinSimilarity (title f1) (title f2) * (4 # 10))%Q.
Proof.
  intros Hp Ht. unfold Grouping.featureSimilarity.
  rewrite Hp, String.eqb_refl. simpl. by rewrite bool_decide_eq_true_2.
Qed.

(** ** The clustering loop *)

(** A candidate below the threshold is left where it is. *)
Lemma scan_skip (Date_parse : string -> option Z) (th : Q) (current candidate : Feature)
    (rest : list Feature) :
  Qle_bool th (Grouping.featureSimilarity current candidate) = false ->
  Grouping.scan Date_parse th current (candidate :: rest)
  = (fst (Grouping.scan Date_parse th current rest),
     candidate :: snd (Grouping.scan Date_parse th current rest)).
Proof. intros H. simpl. rewrite H. by destruct (Grouping.scan _ _ _ _). Qed.

Lemma scan_length (Date_parse : string -> option Z) (th : Q) (current : Feature)
    (remaining : list Feature) :
  length (snd (Grouping.scan Date_parse th current remaining)) <= length remaining.
Proof.
  revert current. induction remaining as [| c r IH]; intros current; simpl; [lia |].
  destruct (Qle_bool _ _).
  - specialize (IH (Grouping.mergeFeatures Date_parse current c)). lia.
  - specialize (IH current). destruct (Grouping.scan _ _ _ _). simpl in *. lia.
Qed.

(** The outer loop ends within [length remaining] rounds: more fuel changes
    nothing. *)
Lemma cluster_fuel (Date_parse : string -> option Z) (th : Q) (fuel fuel' : nat)
    (remaining : list Feature) :
  length remaining <= fuel -> length remaining <= fuel' ->
  Grouping.cluster Date_parse fuel th remaining = Grouping.cluster Date_parse fuel' th remaining.
Proof.
  revert fuel' remaining. induction fuel as [| fuel IH]; intros fuel' remaining H H'.
  - destruct remaining; [| simpl in H; lia]. by destruct fuel'.
  - destruct remaining as [| pivot rest]; [by destruct fuel' |].
    destruct fuel' as [| fuel']; [simpl in H'; lia |]. simpl in *.
    pose proof (scan_length Date_parse th pivot rest) as Hlen.
    destruct (Grouping.scan _ _ _ _) as [current rest']. simpl in Hlen.
    f_equal. apply IH; lia.
Qed.

Lemma not_similar_zero (th : Q) : (0 < th)%Q -> Qle_bool th 0 = false.
Proof.
  intros H. destruct (Qle_bool th 0) eqn:E; [| reflexivity].
  apply Qle_bool_iff in E. exfalso. by apply (Qlt_not_le _ _ H).
Qed.

(** Two features that are not similar enough come out as they went in. *)
Lemma mergeSimilarFeatures_pair_apart (Date_parse : string -> option Z) (th : Q)
    (f1 f2 : Feature) :
  Qle_bool th (Grouping.featureSimilarity f1 f2) = false ->
  Grouping.mergeSimilarFeatures Date_parse [f1; f2] th = [f1; f2].
Proof.
  intros H. unfold Grouping.mergeSimilarFeatures. simpl. by rewrite H.
Qed.

(** ** Rounding *)

Lemma two_pos (k : Z) : (0 < 2 ^ k)%Q.
Proof. by apply Qpower_0_lt. Qed.

Lemma nearestEven_error (x : Q) :
  (- (1 # 2) <= inject_Z (Number.nearestEven x) - x <= 1 # 2)%Q.
Proof.
  unfold Number.nearestEven.
  pose proof (Qfloor_le x) as Hlo. pose proof (Qlt_floor x) as Hhi.
  rewrite inject_Z_plus in Hhi.
  change (inject_Z 1) with 1%Q in Hhi.
  destruct (Qcompare_spec (x - inject_Z (Qfloor x)) (1 # 2)) as [E | E | E].
  - destruct (Z.even (Qfloor x)); [| rewrite inject_Z_plus; change (inject_Z 1) with 1%Q];
      lra.
  - lra.
  - rewrite inject_Z_plus. change (inject_Z 1) with 1%Q. lra.
Qed.

(** No integer is nearer to [x] than [nearestEven x], and half way between
    two integers it is the even one. *)
Lemma nearestEven_nearest (x : Q) (k : Z) :
  (Qabs (inject_Z (Number.nearestEven x) - x) <= Qabs (inject_Z k - x))%Q.
Proof.
  pose proof (nearestEven_error x) as Herr.
  set (m := Number.nearestEven x) in *.
  destruct (Z.eq_dec k m) as [-> | Hne]; [apply Qle_refl |].
  apply Qle_trans with (1 # 2)%Q; [by apply Qabs_Qle_condition |].
  destruct (Z_lt_le_dec k m) as [Hlt | Hge].
  - assert (H : (inject_Z (k + 1) <= inject_Z m)%Q) by (rewrite <- Zle_Qle; lia).
    rewrite inject_Z_plus in H. change (inject_Z 1) with 1%Q in H.
    rewrite <- Qabs_opp. eapply Qle_trans; [| apply Qle_Qabs]. lra.
  - assert (H : (inject_Z (m + 1) <= inject_Z k)%Q) by (rewrite <- Zle_Qle; lia).
    rewrite inject_Z_plus in H. change (inject_Z 1) with 1%Q in H.
    eapply Qle_trans; [| apply Qle_Qabs]. lra.
Qed.

Lemma nearestEven_tie (x : Q) :
  (x - inject_Z (Qfloor x) == 1 # 2)%Q -> Z.even (Number.nearestEven x) = true.
Proof.
  intros H. unfold Number.nearestEven. apply Qeq_alt in H. rewrite H.
  destruct (Z.even (Qfloor x)) eqn:E; [exact E |].
  rewrite Z.even_add, E. reflexivity.
Qed.

Lemma quotient_le (a b n d : Q) :
  (0 < a)%Q -> (a <= n)%Q -> (0 < d)%Q -> (d <= b)%Q -> (a / b <= n / d)%Q.
Proof.
  intros Ha Han Hd Hdb.
  apply Qle_shift_div_l; [lra |].
  assert (Heq : (a / b * d == a * (d / b))%Q) by (field; lra).
  rewrite Heq.
  assert (Hq : (d / b <= 1)%Q) by (apply Qle_shift_div_r; lra).
  nra.
Qed.

Lemma quotient_lt (a b n d : Q) :
  (0 < n)%Q -> (n < a)%Q -> (0 < b)%Q -> (b <= d)%Q -> (n / d < a / b)%Q.
Proof.
  intros Hn Hna Hb Hbd.
  apply Qlt_shift_div_r; [lra |].
  assert (Heq : (a / b * d == a * (d / b))%Q) by (field; lra).
  rewrite Heq.
  assert (Hq : (1 <= d / b)%Q) by (apply Qle_shift_div_l; lra).
  nra.
Qed.

(** The numerator and the denominator of a positive rational between the
    powers of two that [Z.log2] gives. *)
Lemma log2_bounds (x : Q) :
  (0 < x)%Q ->
  let n := Qnum x in
  let d := Z.pos (Qden x) in
  (x == inject_Z n / inject_Z d
   /\ 0 < inject_Z d /\ 0 < inject_Z n
   /\ 0 < 2 ^ Z.log2 n /\ 2 ^ Z.log2 n <= inject_Z n /\ inject_Z n < 2 ^ Z.succ (Z.log2 n)
   /\ 0 < 2 ^ Z.log2 d /\ 2 ^ Z.log2 d <= inject_Z d /\ inject_Z d < 2 ^ Z.succ (Z.log2 d))%Q.
Proof.
  intros Hx n d.
  assert (Hn : (0 < n)%Z) by (destruct x as [[| p | p] q]; done).
  assert (Hd : (0 < d)%Z) by done.
  pose proof (Z.log2_spec n Hn) as [Hn1 Hn2].
  pose proof (Z.log2_spec d Hd) as [Hd1 Hd2].
  pose proof (Z.log2_nonneg n) as Hln. pose proof (Z.log2_nonneg d) as Hld.
  rewrite <- !(Zpower_Qpower 2) by lia.
  change 0%Q with (inject_Z 0). rewrite <- !Zlt_Qlt, <- !Zle_Qle.
  split; [destruct x; apply Qmake_Qdiv |]. repeat split; lia.
Qed.

Lemma exponent_le (x : Q) : (0 < x)%Q -> (2 ^ Number.exponent x <= x)%Q.
Proof.
  intros Hx. unfold Number.exponent.
  destruct (log2_bounds x Hx) as (Hx' & Hd0 & Hn0 & Hpn & Hn1 & Hn2 & Hpd & Hd1 & Hd2).
  destruct (Qle_bool _ x) eqn:E; [by apply Qle_bool_iff in E |].
  replace (Z.log2 (Qnum x) - Z.log2 (Z.pos (Qden x)) - 1)%Z
    with (Z.log2 (Qnum x) - Z.succ (Z.log2 (Z.pos (Qden x))))%Z by lia.
  rewrite Qpower_minus by done. rewrite Hx' at 3.
  apply quotient_le; lra.
Qed.

Lemma exponent_lt (x : Q) : (0 < x)%Q -> (x < 2 ^ (Number.exponent x + 1))%Q.
Proof.
  intros Hx. unfold Number.exponent.
  destruct (log2_bounds x Hx) as (Hx' & Hd0 & Hn0 & Hpn & Hn1 & Hn2 & Hpd & Hd1 & Hd2).
  destruct (Qle_bool _ x) eqn:E.
  - replace (Z.log2 (Qnum x) - Z.log2 (Z.pos (Qden x)) + 1)%Z
      with (Z.succ (Z.log2 (Qnum x)) - Z.log2 (Z.pos (Qden x)))%Z by lia.
    rewrite Qpower_minus by done. rewrite Hx' at 1.
    apply quotient_lt; lra.
  - replace (Z.log2 (Qnum x) - Z.log2 (Z.pos (Qden x)) - 1 + 1)%Z
      with (Z.log2 (Qnum x) - Z.log2 (Z.pos (Qden x)))%Z by lia.
    apply Qnot_le_lt. intros H. apply Qle_bool_iff in H. congruence.
Qed.




(** The significand of a rounded number has 53 bits. *)
Lemma roundPositive_significand (x : Q) :
  (0 < x)%Q ->
  exists m : Z,
    (2 ^ 52 <= m <= 2 ^ 53)%Z
    /\ (Number.roundPositive x == inject_Z m * 2 ^ (Number.exponent x - 52))%Q.
Proof.
  intros Hx. unfold Number.roundPositive.
  pose proof (exponent_le x Hx) as Hle. pose proof (exponent_lt x Hx) as Hlt.
  set (ulp := (2 ^ (Number.exponent x - 52))%Q) in *.
  assert (Hulp : (0 < ulp)%Q) by apply two_pos.
  exists (Number.nearestEven (x / ulp)). split; [| reflexivity].
  assert (Hlo : (ulp * inject_Z (2 ^ 52) == 2 ^ Number.exponent x)%Q).
  { unfold ulp. rewrite (Zpower_Qpower 2 52) by done. rewrite <- Qpower_plus by done.
    by replace (_ - 52 + 52)%Z with (Number.exponent x) by lia. }
  assert (Hhi : (ulp * inject_Z (2 ^ 53) == 2 ^ (Number.exponent x + 1))%Q).
  { unfold ulp. rewrite (Zpower_Qpower 2 53) by done. rewrite <- Qpower_plus by done.
    by replace (_ - 52 + 53)%Z with (Number.exponent x + 1)%Z by lia. }
  rewrite <- Hlo in Hle. rewrite <- Hhi in Hlt.
  assert (H1 : (inject_Z (2 ^ 52) <= x / ulp)%Q) by (apply Qle_shift_div_l; lra).
  assert (H2 : (x / ulp < inject_Z (2 ^ 53))%Q) by (apply Qlt_shift_div_r; lra).
  apply Qfloor_resp_le in H1. rewrite Qfloor_Z in H1.
  assert (H3 : (Qfloor (x / ulp) < 2 ^ 53)%Z).
  { rewrite Zlt_Qlt. eapply Qle_lt_trans; [apply Qfloor_le | exact H2]. }
  unfold Number.nearestEven.
  destruct (_ ?= _)%Q; [destruct (Z.even _) | |]; lia.
Qed.

Lemma round_zero : Number.round 0 = 0%Q.
Proof. reflexivity. Qed.





(** On the two titles of [Ex.f_words] and [Ex.f_words_moved] the operations
    above give what the Standard Library's IEEE 754 operations give at
    precision 53. *)
Lemma round_ieee_example :
  Number.ofSpecFloat
    (Number.ieeeAdd
       (Number.ieeeMul (Number.ieeeDiv (Number.ieeeOfNat 3) (Number.ieeeOfNat 4))
          (Number.ieeeDiv (Number.ieeeOfNat 6) (Number.ieeeOfNat 10)))
       (Number.ieeeMul
          (Number.ieeeSub (Number.ieeeOfNat 1)
             (Number.ieeeDiv (Number.ieeeOfNat 14) (Number.ieeeOfNat 16)))
          (Number.ieeeDiv (Number.ieeeOfNat 4) (Number.ieeeOfNat 10))))
  = Some (Number.add (Number.mul (Number.div 3 4) (Number.literal (6 # 10)))
            (Number.mul (Number.sub 1 (Number.div 14 16)) (Number.literal (4 # 10)))).
Proof. by vm_compute. Qed.

(** ** The similarity in the arithmetic of the platform *)

Lemma ofNat_nonneg (n : nat) : (0 <= Grouping.ofNat n)%Q.
Proof. unfold Grouping.ofNat, Qle. simpl. lia. Qed.

Lemma ofNat_le (a b : nat) : a <= b -> (Grouping.ofNat a <= Grouping.ofNat b)%Q.
Proof. intros H. unfold Grouping.ofNat. rewrite <- Zle_Qle. lia. Qed.

Lemma ratio_range (a b : nat) :
  a <= b -> (0 <= Grouping.ofNat a / Grouping.ofNat b <= 1)%Q.
Proof.
  intros Hab. destruct b as [| b].
  - assert (a = 0) as -> by lia. split; [apply Qle_refl | discriminate].
  - assert (Hpos : (0 < Grouping.ofNat (S b))%Q).
    { unfold Grouping.ofNat, Qlt. simpl. lia. }
    split.
    + apply Qle_shift_div_l; [exact Hpos |]. rewrite Qmult_0_l. apply ofNat_nonneg.
    + apply Qle_shift_div_r; [exact Hpos |]. rewrite Qmult_1_l. by apply ofNat_le.
Qed.

Lemma jaccard_range (A B : gset string) : (0 <= Spec.jaccard A B <= 1)%Q.
Proof.
  unfold Spec.jaccard. apply ratio_range. apply subseteq_size.
  intros x [Hx _]%elem_of_intersection. apply elem_of_union. by left.
Qed.









(** The same pair in exact arithmetic: three tokens of four are shared and
    14 of 16 characters are edited, so the score is 6/10 * 3/4 + 4/10 * 1/8,
    which is 1/2; the number is one rounding step below. *)
Lemma featureSimilarity_tie :
  (Grouping.featureSimilarity Ex.f_words Ex.f_words_moved == 1 # 2)%Q
  /\ (Grouping64.featureSimilarity Ex.f_words Ex.f_words_moved
      == (1 # 2) - (1 # 18014398509481984))%Q.
Proof. split; by vm_compute. Qed.

(** ** Titles without tokens *)

Lemma tokenless_iff (f : Feature) : Spec.tokenless f = true <-> Grouping.normalize (title f) = [].
Proof. unfold Spec.tokenless. destruct (Grouping.normalize (title f)); split; congruence. Qed.

(** The token component is 0 as soon as one of the two titles has no
    token. *)
Lemma calculateSimilarity_tokenless (f1 f2 : Feature) :
  Spec.tokenless f1 = true \/ Spec.tokenless f2 = true ->
  Grouping.calculateSimilarity (title f1) (title f2) = 0%Q.
Proof.
  unfold Grouping.calculateSimilarity. rewrite !tokenless_iff.
  intros [-> | ->]; simpl; [reflexivity |]. by rewrite orb_true_r.
Qed.

Lemma levenshteinSimilarity_le_1 (str1 str2 : string) :
  (Grouping.levenshteinSimilarity str1 str2 <= 1)%Q.
Proof.
  unfold Grouping.levenshteinSimilarity.
  destruct (Nat.eqb _ 0); [apply Qle_refl |].
  set (d := Grouping.ofNat _). set (m := Grouping.ofNat _).
  assert (0 <= d / m)%Q.
  { apply Qmult_le_0_compat; [apply ofNat_nonneg |].
    apply Qinv_le_0_compat, ofNat_nonneg. }
  lra.
Qed.

Lemma featureSimilarity_tokenless (f1 f2 : Feature) :
  Spec.tokenless f1 = true \/ Spec.tokenless f2 = true ->
  (Grouping.featureSimilarity f1 f2 <= 4 # 10)%Q.
Proof.
  intros H. unfold Grouping.featureSimilarity.
  destruct (negb (String.eqb _ _)); [lra |].
  destruct (negb (bool_decide _)); [lra |].
  rewrite (calculateSimilarity_tokenless f1 f2 H).
  pose proof (levenshteinSimilarity_le_1 (title f1) (title f2)). lra.
Qed.

Lemma below_default (x : Q) : (x <= 4 # 10)%Q -> Qle_bool Grouping.defaultThreshold x = false.
Proof.
  intros H. destruct (Qle_bool _ x) eqn:E; [| reflexivity].
  apply Qle_bool_iff in E. unfold Grouping.defaultThreshold in E. lra.
Qed.

Section Tokenless.
Variable Date_parse : string -> option Z.

Local Abbreviation scan := (Grouping.scan Date_parse Grouping.defaultThreshold).
Local Abbreviation cluster fuel := (Grouping.cluster Date_parse fuel Grouping.defaultThreshold).

(** A pivot without tokens absorbs nothing. *)
Lemma scan_tokenless_pivot (current : Feature) (remaining : list Feature) :
  Spec.tokenless current = true -> scan current remaining = (current, remaining).
Proof.
  intros Hc. induction remaining as [| c r IH]; [reflexivity |].
  rewrite scan_skip; [by rewrite IH |].
  apply below_default, featureSimilarity_tokenless. by left.
Qed.

Lemma mergeFeatures_title (f1 f2 : Feature) :
  title (Grouping.mergeFeatures Date_parse f1 f2) = title f1
  \/ title (Grouping.mergeFeatures Date_parse f1 f2) = title f2.
Proof.
  unfold Grouping.mergeFeatures. cbn [title].
  destruct (_ || _); [by left | by right].
Qed.

(** A pivot with tokens keeps having tokens, and absorbs no candidate
    without tokens. *)
Lemma scan_keeps_tokenless (current : Feature) (remaining : list Feature) :
  Spec.tokenless current = false ->
  Spec.tokenless (fst (scan current remaining)) = false
  /\ List.filter Spec.tokenless (snd (scan current remaining))
     = List.filter Spec.tokenless remaining.
Proof.
  revert current. induction remaining as [| c r IH]; intros current Hc; [by split |].
  destruct (Qle_bool Grouping.defaultThreshold (Grouping.featureSimilarity current c)) eqn:E.
  - assert (Hcand : Spec.tokenless c = false).
    { destruct (Spec.tokenless c) eqn:Ht; [| reflexivity].
      rewrite below_default in E; [discriminate |].
      apply featureSimilarity_tokenless. by right. }
    simpl. rewrite E, Hcand. apply IH.
    unfold Spec.tokenless in *.
    by destruct (mergeFeatures_title current c) as [-> | ->].
  - rewrite (scan_skip _ _ _ _ _ E). simpl.
    destruct (IH current Hc) as [H1 H2]. split; [exact H1 |]. by rewrite H2.
Qed.

Lemma cluster_keeps_tokenless (fuel : nat) (remaining : list Feature) :
  length remaining <= fuel ->
  List.filter Spec.tokenless (cluster fuel remaining) = List.filter Spec.tokenless remaining.
Proof.
  revert remaining. induction fuel as [| fuel IH]; intros remaining Hlen.
  - destruct remaining; [reflexivity | simpl in Hlen; lia].
  - destruct remaining as [| pivot rest]; [reflexivity |]. simpl in Hlen.
    cbn [Grouping.cluster].
    destruct (Spec.tokenless pivot) eqn:Hp.
    + rewrite (scan_tokenless_pivot pivot rest Hp). simpl. rewrite Hp.
      f_equal. apply IH. lia.
    + pose proof (scan_keeps_tokenless pivot rest Hp) as [H1 H2].
      pose proof (scan_length Date_parse Grouping.defaultThreshold pivot rest) as Hl.
      destruct (Grouping.scan _ _ _ _) as [current rest']. simpl in *.
      rewrite H1, Hp, <- H2. apply IH. lia.
Qed.

(** Features without tokens go through the clustering untouched, each on
    its own and in order. *)
Lemma mergeSimilarFeatures_keeps_tokenless (features : list Feature) :
  List.filter Spec.tokenless
    (Grouping.mergeSimilarFeatures Date_parse features Grouping.defaultThreshold)
  = List.filter Spec.tokenless features.
Proof.
  unfold Grouping.mergeSimilarFeatures.
  destruct (Nat.leb _ 1); [reflexivity |]. by apply cluster_keeps_tokenless.
Qed.
End Tokenless.

(** C10. When the titles of two features both normalise to an empty token
    set, the token component of their similarity is 0 and their similarity
    is at most 0.4; at the default threshold of 0.5 the two are not merged
    with each other, and from any list that holds them both come out of
    [mergeSimilarFeatures] as they went in, like every feature without
    tokens. *)
Theorem tokenless_never_merged
    (Date_parse : string -> option Z) (f1 f2 : Feature) :
  Grouping.normalize (title f1) = [] -> Grouping.normalize (title f2) = [] ->
  Grouping.calculateSimilarity (title f1) (title f2) = 0%Q
  /\ (Grouping.featureSimilarity f1 f2 <= 4 # 10)%Q
  /\ Grouping.mergeSimilarFeatures Date_parse [f1; f2] Grouping.defaultThreshold = [f1; f2]
  /\ forall before between rest,
       let features := before ++ f1 :: between ++ f2 :: rest in
       let merged :=
         Grouping.mergeSimilarFeatures Date_parse features Grouping.defaultThreshold in
       f1 ∈ merged /\ f2 ∈ merged
       /\ List.filter Spec.tokenless merged = List.filter Spec.tokenless features.
Proof.
  intros H1%tokenless_iff H2%tokenless_iff.
  split; [apply calculateSimilarity_tokenless; by left |].
  assert (Hsim : (Grouping.featureSimilarity f1 f2 <= 4 # 10)%Q)
    by (apply featureSimilarity_tokenless; by left).
  split; [exact Hsim |].
  split; [apply mergeSimilarFeatures_pair_apart; by apply below_default |].
  intros before between rest features merged.
  pose proof (mergeSimilarFeatures_keeps_tokenless Date_parse features) as Hkeep.
  fold merged in Hkeep.
  assert (Hin : forall f, Spec.tokenless f = true -> f ∈ features -> f ∈ merged).
  { intros f Hf Hfeat.
    assert (Hfil : f ∈ List.filter Spec.tokenless features)
      by (apply elem_of_List_filter; by split).
    rewrite <- Hkeep in Hfil. by apply elem_of_List_filter in Hfil as [? _]. }
  split; [| split; [| exact Hkeep]].
  - apply Hin; [assumption |]. unfold features. rewrite elem_of_app. right. left.
  - apply Hin; [assumption |]. unfold features.
    rewrite elem_of_app. right. right. rewrite elem_of_app. right. left.
Qed.

Lemma tokenless_never_merged_witness :
  Grouping.mergeSimilarFeatures DateTime.parseISO [Ex.f_ci; Ex.f_ci_v2]
    Grouping.defaultThreshold = [Ex.f_ci; Ex.f_ci_v2].
Proof.
  apply (tokenless_never_merged DateTime.parseISO Ex.f_ci Ex.f_ci_v2 eq_refl eq_refl).
Defined.

(** * Further properties of the code *)

(** ** Edit distance *)

Lemma min3_le_l (a b c : nat) : Grouping.min3 a b c <= a.
Proof. unfold Grouping.min3. lia. Qed.

Lemma min3_le_r (a b c : nat) : Grouping.min3 a b c <= c.
Proof. unfold Grouping.min3. lia. Qed.

Lemma min3_ge (a b c k : nat) : k <= a -> k <= b -> k <= c -> k <= Grouping.min3 a b c.
Proof. unfold Grouping.min3. lia. Qed.

Lemma cost_le_1 (a b : option ascii) : Spec.cost a b <= 1.
Proof. unfold Spec.cost. destruct (bool_decide _); lia. Qed.

Lemma cost_sym (a b : option ascii) : Spec.cost a b = Spec.cost b a.
Proof.
  unfold Spec.cost. destruct (bool_decide_reflect (a = b)) as [-> | Hne].
  - by rewrite bool_decide_eq_true_2.
  - rewrite bool_decide_eq_false_2; [reflexivity | congruence].
Qed.

Lemma prefixDistance_le_max (s t : string) (i j : nat) :
  Spec.prefixDistance s t i j <= Nat.max i j.
Proof.
  revert j. induction i as [| i IH]; intros j; [simpl; lia |].
  induction j as [| j IHj]; [rewrite prefixDistance_0_r; lia |].
  rewrite prefixDistance_step.
  etransitivity; [apply min3_le_r |].
  pose proof (IH j). pose proof (cost_le_1 (String.get i s) (String.get j t)). lia.
Qed.

Lemma prefixDistance_ge_diff (s t : string) (i j : nat) :
  i - j <= Spec.prefixDistance s t i j /\ j - i <= Spec.prefixDistance s t i j.
Proof.
  revert j. induction i as [| i IH]; intros j; [simpl; lia |].
  induction j as [| j IHj]; [rewrite prefixDistance_0_r; lia |].
  rewrite prefixDistance_step.
  pose proof (IH (S j)). pose proof (IH j).
  split; apply min3_ge; lia.
Qed.

Lemma prefixDistance_sym (s t : string) (i j : nat) :
  Spec.prefixDistance s t i j = Spec.prefixDistance t s j i.
Proof.
  revert j. induction i as [| i IH]; intros j.
  - by rewrite prefixDistance_0_r.
  - induction j as [| j IHj]; [by rewrite prefixDistance_0_r |].
    rewrite !prefixDistance_step, IHj, !IH, cost_sym.
    unfold Grouping.min3. lia.
Qed.

Lemma prefixDistance_diag (s : string) (i : nat) : Spec.prefixDistance s s i i = 0.
Proof.
  induction i as [| i IH]; [reflexivity |].
  rewrite prefixDistance_step, IH. unfold Spec.cost.
  rewrite bool_decide_eq_true_2 by reflexivity. unfold Grouping.min3. lia.
Qed.

Lemma prefixDistance_diag_0 (s t : string) (i : nat) :
  Spec.prefixDistance s t i i = 0 -> forall k, k < i -> String.get k s = String.get k t.
Proof.
  induction i as [| i IH]; intros H0 k Hk; [lia |].
  rewrite prefixDistance_step in H0.
  assert (H3 : Spec.prefixDistance s t i i + Spec.cost (String.get i s) (String.get i t) = 0).
  { unfold Grouping.min3 in H0. lia. }
  assert (Hc : Spec.cost (String.get i s) (String.get i t) = 0) by lia.
  unfold Spec.cost in Hc.
  destruct (bool_decide_reflect (String.get i s = String.get i t)) as [E | _]; [| lia].
  destruct (decide (k = i)) as [-> | Hne]; [exact E |].
  apply IH; lia.
Qed.

Lemma get_beyond (s : string) (k : nat) : String.length s <= k -> String.get k s = None.
Proof.
  revert k. induction s as [| c s IH]; intros k Hk; [by destruct k |].
  destruct k as [| k]; simpl in *; [lia |]. apply IH. lia.
Qed.

Lemma length_toLowerCase (s : string) : String.length (JS.toLowerCase s) = String.length s.
Proof. induction s as [| c s IH]; simpl; [reflexivity | by rewrite IH]. Qed.

(** X1. [levenshteinDistance] is a distance on strings: it lies between the
    difference and the larger of the two lengths, it does not depend on the
    order of its arguments, and it is 0 exactly for equal strings. *)
Theorem levenshteinDistance_metric (str1 str2 : string) :
  String.length str1 - String.length str2 <= Grouping.levenshteinDistance str1 str2
  /\ String.length str2 - String.length str1 <= Grouping.levenshteinDistance str1 str2
  /\ Grouping.levenshteinDistance str1 str2
     <= Nat.max (String.length str1) (String.length str2)
  /\ Grouping.levenshteinDistance str1 str2 = Grouping.levenshteinDistance str2 str1
  /\ (Grouping.levenshteinDistance str1 str2 = 0 <-> str1 = str2).
Proof.
  rewrite !levenshteinDistance_editDistance. unfold Spec.editDistance.
  pose proof (prefixDistance_ge_diff str1 str2 (String.length str1) (String.length str2))
    as [Hd1 Hd2].
  split; [exact Hd1 |]. split; [exact Hd2 |].
  split; [apply prefixDistance_le_max |].
  split; [apply prefixDistance_sym |].
  split.
  - intros H0. assert (Hlen : String.length str1 = String.length str2) by lia.
    rewrite <- Hlen in H0. apply String.get_correct. intros k.
    destruct (Nat.lt_ge_cases k (String.length str1)) as [Hk | Hk].
    + by apply (prefixDistance_diag_0 _ _ _ H0).
    + rewrite !get_beyond; [reflexivity | lia | lia].
  - intros ->. apply prefixDistance_diag.
Qed.

(** ** The range and the symmetry of the similarity *)

Lemma jaccard_sym (A B : gset string) : Spec.jaccard A B = Spec.jaccard B A.
Proof.
  unfold Spec.jaccard. by rewrite (comm_L (∩) A B), (comm_L (∪) A B).
Qed.

(** The distance of the lower-cased titles is measured against the longer
    raw title: the ratio is within range where lower-casing keeps the two
    lengths. *)
Lemma editSimilarity_range (s1 s2 : string) :
  String.length (JS.toLowerCase s1) = String.length s1 ->
  String.length (JS.toLowerCase s2) = String.length s2 ->
  (0 <= Spec.editSimilarity s1 s2 <= 1)%Q.
Proof.
  intros H1 H2. unfold Spec.editSimilarity, Spec.editDistance.
  pose proof (prefixDistance_le_max (JS.toLowerCase s1) (JS.toLowerCase s2)
                (String.length (JS.toLowerCase s1)) (String.length (JS.toLowerCase s2))) as H.
  rewrite H1, H2 in H. rewrite H1, H2.
  pose proof (ratio_range _ _ H) as [? ?]. unfold Grouping.ofNat in *. lra.
Qed.

Lemma editSimilarity_sym (s1 s2 : string) : Spec.editSimilarity s1 s2 = Spec.editSimilarity s2 s1.
Proof.
  unfold Spec.editSimilarity, Spec.editDistance.
  by rewrite prefixDistance_sym, Nat.max_comm.
Qed.

(** X2. The similarity of two features whose titles keep their length when
    lower-cased lies between 0 and 1. (Titles of code units below 256, the
    strings of this development, all do; a title that grows when lower-cased
    can have a distance above the longer raw length.) *)
Theorem featureSimilarity_range (f1 f2 : Feature) :
  String.length (JS.toLowerCase (title f1)) = String.length (title f1) ->
  String.length (JS.toLowerCase (title f2)) = String.length (title f2) ->
  (0 <= Grouping.featureSimilarity f1 f2 <= 1)%Q.
Proof.
  intros Hlen1 Hlen2. unfold Grouping.featureSimilarity.
  destruct (negb (String.eqb _ _)); [lra |].
  destruct (negb (bool_decide _)); [lra |].
  rewrite calculateSimilarity_jaccard, levenshteinSimilarity_editSimilarity.
  pose proof (jaccard_range (Spec.tokenSet (title f1)) (Spec.tokenSet (title f2))).
  pose proof (editSimilarity_range (title f1) (title f2) Hlen1 Hlen2). lra.
Qed.

Lemma featureSimilarity_range_witness :
  (0 <= Grouping.featureSimilarity Ex.f_button Ex.f_button_shouting <= 1)%Q.
Proof.
  apply (featureSimilarity_range Ex.f_button Ex.f_button_shouting); reflexivity.
Defined.

(** X3. The similarity does not depend on the order of the two features. *)
Theorem featureSimilarity_sym (f1 f2 : Feature) :
  (Grouping.featureSimilarity f1 f2 == Grouping.featureSimilarity f2 f1)%Q.
Proof.
  unfold Grouping.featureSimilarity.
  rewrite (String.eqb_sym (project f2) (project f1)).
  destruct (negb (String.eqb _ _)); [reflexivity |].
  assert (Ht : bool_decide (type f2 = type f1) = bool_decide (type f1 = type f2))
    by (apply bool_decide_ext; split; congruence).
  rewrite Ht. destruct (negb (bool_decide _)); [reflexivity |].
  rewrite !calculateSimilarity_jaccard, !levenshteinSimilarity_editSimilarity.
  by rewrite jaccard_sym, editSimilarity_sym.
Qed.

(** X4. The similarity reads the titles through their lower-cased form only,
    and two features of one project and type whose titles agree up to letter
    case have similarity 1, or 0.4 when the title has no token. *)
Theorem featureSimilarity_case_insensitive (f1 f2 g1 g2 : Feature) :
  project g1 = project f1 -> type g1 = type f1 ->
  JS.toLowerCase (title g1) = JS.toLowerCase (title f1) ->
  project g2 = project f2 -> type g2 = type f2 ->
  JS.toLowerCase (title g2) = JS.toLowerCase (title f2) ->
  Grouping.featureSimilarity g1 g2 = Grouping.featureSimilarity f1 f2
  /\ (project f1 = project f2 -> type f1 = type f2 ->
      JS.toLowerCase (title f1) = JS.toLowerCase (title f2) ->
      (Grouping.featureSimilarity f1 f2 == if Spec.tokenless f1 then 4 # 10 else 1)%Q).
Proof.
  intros Hp1 Ht1 Hl1 Hp2 Ht2 Hl2. split.
  - unfold Grouping.featureSimilarity, Grouping.calculateSimilarity,
      Grouping.levenshteinSimilarity, Grouping.normalize.
    rewrite Hp1, Hp2, Ht1, Ht2, Hl1, Hl2.
    rewrite <- (length_toLowerCase (title g1)), <- (length_toLowerCase (title g2)).
    rewrite Hl1, Hl2, !length_toLowerCase. reflexivity.
  - intros Hp Ht Hl. rewrite (featureSimilarity_open f1 f2 Hp Ht).
    rewrite calculateSimilarity_jaccard, levenshteinSimilarity_editSimilarity.
    assert (Hedit : (Spec.editSimilarity (title f1) (title f2) == 1)%Q).
    { unfold Spec.editSimilarity, Spec.editDistance. rewrite Hl, prefixDistance_diag.
      unfold Qdiv. rewrite Qmult_0_l. reflexivity. }
    assert (Hset : Spec.tokenSet (title f1) = Spec.tokenSet (title f2)).
    { unfold Spec.tokenSet. by rewrite Hl. }
    rewrite Hedit, <- Hset. unfold Spec.jaccard.
    rewrite intersection_idemp_L, union_idemp_L, tokenSet_normalize.
    unfold Spec.tokenless.
    destruct (Grouping.normalize (title f1)) as [| w ws] eqn:E.
    + rewrite list_to_set_nil, size_empty. reflexivity.
    + assert (Hpos : size (list_to_set (w :: ws) : gset string) <> 0).
      { apply size_non_empty_iff. intros Hemp.
        assert (Hw : w ∈ (list_to_set (w :: ws) : gset string))
          by (apply elem_of_list_to_set; left).
        rewrite Hemp in Hw. by apply elem_of_empty in Hw. }
      set (k := size _) in *.
      assert (Hk : ~ (inject_Z (Z.of_nat k) == 0)%Q).
      { unfold Qeq. simpl. lia. }
      field_simplify_eq; [reflexivity | exact Hk].
Qed.

Lemma featureSimilarity_case_insensitive_witness :
  Grouping.featureSimilarity Ex.f_button_shouting Ex.f_button
  = Grouping.featureSimilarity Ex.f_button Ex.f_button
  /\ (Grouping.featureSimilarity Ex.f_button_shouting Ex.f_button == 1)%Q.
Proof.
  split.
  - apply (featureSimilarity_case_insensitive Ex.f_button Ex.f_button
             Ex.f_button_shouting Ex.f_button); reflexivity.
  - apply (proj2 (featureSimilarity_case_insensitive Ex.f_button_shouting Ex.f_button
                    Ex.f_button_shouting Ex.f_button
                    eq_refl eq_refl eq_refl eq_refl eq_refl eq_refl)); reflexivity.
Defined.

(** ** Merging, as an operation on PR sets *)

(** A strictly ascending list is determined by its elements. *)
Lemma sorted_lt_unique (l1 l2 : list Z) :
  StronglySorted Z.lt l1 -> StronglySorted Z.lt l2 ->
  (forall x, x ∈ l1 <-> x ∈ l2) -> l1 = l2.
Proof.
  intros H1. revert l2. induction H1 as [| x l1 Hs1 IH Hx]; intros l2 H2 Hmem.
  - destruct l2 as [| y l2]; [reflexivity |].
    exfalso. apply (not_elem_of_nil y). apply Hmem. left.
  - destruct H2 as [| y l2 Hs2 Hy].
    { exfalso. apply (not_elem_of_nil x). apply Hmem. left. }
    rewrite Forall_forall in Hx, Hy.
    assert (x = y) as <-.
    { assert (Hxin : x ∈ y :: l2) by (apply Hmem; left).
      assert (Hyin : y ∈ x :: l1) by (apply Hmem; left).
      apply elem_of_cons in Hxin as [? | Hxin]; [assumption |].
      apply elem_of_cons in Hyin as [? | Hyin]; [by symmetry |].
      specialize (Hx _ Hyin). specialize (Hy _ Hxin). lia. }
    f_equal. apply IH; [assumption |].
    intros z. split; intros Hz.
    + assert (Hz' : z ∈ x :: l2) by (apply Hmem; by right).
      apply elem_of_cons in Hz' as [-> | ?]; [| assumption].
      specialize (Hx _ Hz). lia.
    + assert (Hz' : z ∈ x :: l1) by (apply Hmem; by right).
      apply elem_of_cons in Hz' as [-> | ?]; [| assumption].
      specialize (Hy _ Hz). lia.
Qed.

(** X5. The PR numbers and the confidence of a merge do not depend on the
    order of the arguments, the PR numbers of a chain of merges do not depend
    on how it is bracketed, and merging a feature whose [prs] is in strictly
    ascending order with itself gives the feature back. *)
Theorem mergeFeatures_algebra (Date_parse : string -> option Z) (f1 f2 f3 : Feature) :
  let merge := Grouping.mergeFeatures Date_parse in
  prs (merge f1 f2) = prs (merge f2 f1)
  /\ confidence (merge f1 f2) = confidence (merge f2 f1)
  /\ prs (merge (merge f1 f2) f3) = prs (merge f1 (merge f2 f3))
  /\ (StronglySorted Z.lt (prs f1) -> merge f1 f1 = f1).
Proof.
  intros merge. unfold merge.
  assert (Hprs : forall a b, StronglySorted Z.lt (prs (Grouping.mergeFeatures Date_parse a b)))
    by (intros; apply mergeFeatures_prs).
  assert (Hmem : forall a b n,
            n ∈ prs (Grouping.mergeFeatures Date_parse a b) <-> n ∈ prs a \/ n ∈ prs b)
    by (intros; apply mergeFeatures_prs).
  split; [| split; [| split]].
  - apply sorted_lt_unique; try apply Hprs. intros x. rewrite !Hmem. tauto.
  - unfold Grouping.mergeFeatures. cbn [confidence].
    destruct f1 as [? ? ? ? ? ? ? c1], f2 as [? ? ? ? ? ? ? c2]. by destruct c1, c2.
  - apply sorted_lt_unique; try apply Hprs. intros x. rewrite !Hmem. tauto.
  - intros Hsorted.
    assert (Hsame : prs (Grouping.mergeFeatures Date_parse f1 f1) = prs f1).
    { apply sorted_lt_unique; [apply Hprs | assumption |]. intros x. rewrite Hmem. tauto. }
    revert Hsame. unfold Grouping.mergeFeatures. cbn [prs]. intros ->.
    destruct f1 as [p t d ty ps sd ed c]. cbn [project title description type prs
      startDate endDate confidence].
    destruct (JS.lt (Date_parse sd) (Date_parse sd));
      destruct (JS.gt (Date_parse ed) (Date_parse ed)); destruct c; reflexivity.
Qed.

Lemma mergeFeatures_algebra_witness :
  Grouping.mergeFeatures DateTime.parseISO Ex.f_button Ex.f_button = Ex.f_button.
Proof.
  apply (mergeFeatures_algebra DateTime.parseISO Ex.f_button Ex.f_button Ex.f_button).
  repeat constructor.
Defined.

(** ** What the clustering loop keeps *)

Section ClusterInvariants.
Variable Date_parse : string -> option Z.
Variable th : Q.
Context {X : Type}.

(** [P] is a property of single features, [carries f x] says that the
    feature [f] carries the datum [x]; a merge that the loop performs keeps
    [P] and carries what its two arguments carry. *)
Variable P : Feature -> Prop.
Variable carries : Feature -> X -> Prop.
Hypothesis merge_ok : forall a b,
  P a -> P b -> Qle_bool th (Grouping.featureSimilarity a b) = true ->
  P (Grouping.mergeFeatures Date_parse a b)
  /\ forall x, carries (Grouping.mergeFeatures Date_parse a b) x <-> carries a x \/ carries b x.

Local Abbreviation scan := (Grouping.scan Date_parse th).
Local Abbreviation cluster fuel := (Grouping.cluster Date_parse fuel th).

Lemma scan_carries (current : Feature) (remaining : list Feature) :
  P current -> Forall P remaining ->
  P (fst (scan current remaining))
  /\ Forall P (snd (scan current remaining))
  /\ forall x,
       (carries (fst (scan current remaining)) x
        \/ exists f, f ∈ snd (scan current remaining) /\ carries f x)
       <-> (carries current x \/ exists f, f ∈ remaining /\ carries f x).
Proof.
  revert current. induction remaining as [| c r IH]; intros current Hc Hr.
  - simpl. repeat split; try assumption; tauto.
  - apply Forall_cons in Hr as [Hcand Hr]. simpl.
    destruct (Qle_bool th (Grouping.featureSimilarity current c)) eqn:E.
    + destruct (merge_ok current c Hc Hcand E) as [Hm Hcar].
      destruct (IH _ Hm Hr) as (H1 & H2 & H3).
      split; [exact H1 |]. split; [exact H2 |].
      intros x. rewrite H3, Hcar. split.
      * intros [[? | ?] | (f & Hf & ?)]; [by left | right; exists c; split; [left | done] |].
        right. exists f. split; [by right | done].
      * intros [? | (f & [-> | Hf]%elem_of_cons & ?)]; [left; by left | left; by right |].
        right. by exists f.
    + destruct (IH _ Hc Hr) as (H1 & H2 & H3).
      destruct (Grouping.scan Date_parse th current r) as [c' r']. simpl in *.
      split; [exact H1 |]. split; [by constructor |].
      intros x. split.
      * intros [? | (f & [-> | Hf]%elem_of_cons & ?)].
        -- destruct (proj1 (H3 x)) as [? | (g & ? & ?)]; [by left | by left |].
           right. exists g. split; [by right | done].
        -- right. exists c. split; [left | done].
        -- destruct (proj1 (H3 x)) as [? | (g & ? & ?)]; [right; by exists f | by left |].
           right. exists g. split; [by right | done].
      * intros [? | (f & [-> | Hf]%elem_of_cons & ?)].
        -- destruct (proj2 (H3 x)) as [? | (g & ? & ?)]; [by left | by left |].
           right. exists g. split; [by right | done].
        -- right. exists c. split; [left | done].
        -- destruct (proj2 (H3 x)) as [? | (g & ? & ?)]; [right; by exists f | by left |].
           right. exists g. split; [by right | done].
Qed.

Lemma cluster_carries (fuel : nat) (remaining : list Feature) :
  length remaining <= fuel -> Forall P remaining ->
  Forall P (cluster fuel remaining)
  /\ forall x,
       (exists f, f ∈ cluster fuel remaining /\ carries f x)
       <-> (exists f, f ∈ remaining /\ carries f x).
Proof.
  revert remaining. induction fuel as [| fuel IH]; intros remaining Hlen HP.
  - destruct remaining; [| simpl in Hlen; lia]. simpl. split; [constructor | tauto].
  - destruct remaining as [| pivot rest]; [simpl; split; [constructor | tauto] |].
    apply Forall_cons in HP as [Hp Hrest]. simpl in Hlen.
    cbn [Grouping.cluster].
    destruct (scan_carries pivot rest Hp Hrest) as (H1 & H2 & H3).
    pose proof (scan_length Date_parse th pivot rest) as Hl.
    destruct (Grouping.scan Date_parse th pivot rest) as [current rest']. simpl in *.
    destruct (IH rest' ltac:(lia) H2) as [H4 H5].
    split; [by constructor |].
    intros x. split.
    + intros (f & [-> | Hf]%elem_of_cons & Hx).
      * destruct (proj1 (H3 x)) as [? | (g & ? & ?)]; [by left | |].
        -- exists pivot. split; [left | done].
        -- exists g. split; [by right | done].
      * destruct (proj1 (H5 x)) as (g & Hg & ?); [by exists f |].
        destruct (proj1 (H3 x)) as [? | (h & ? & ?)]; [right; by exists g | |].
        -- exists pivot. split; [left | done].
        -- exists h. split; [by right | done].
    + intros (f & [-> | Hf]%elem_of_cons & Hx).
      * destruct (proj2 (H3 x)) as [? | (g & Hg & ?)]; [by left | |].
        -- exists current. split; [left | done].
        -- destruct (proj2 (H5 x)) as (h & ? & ?); [by exists g |].
           exists h. split; [by right | done].
      * destruct (proj2 (H3 x)) as [? | (g & Hg & ?)]; [right; by exists f | |].
        -- exists current. split; [left | done].
        -- destruct (proj2 (H5 x)) as (h & ? & ?); [by exists g |].
           exists h. split; [by right | done].
Qed.

Lemma mergeSimilarFeatures_carries (features : list Feature) :
  Forall P features ->
  Forall P (Grouping.mergeSimilarFeatures Date_parse features th)
  /\ forall x,
       (exists f, f ∈ Grouping.mergeSimilarFeatures Date_parse features th /\ carries f x)
       <-> (exists f, f ∈ features /\ carries f x).
Proof.
  intros HP. unfold Grouping.mergeSimilarFeatures.
  destruct (Nat.leb _ 1); [split; [assumption | tauto] |].
  by apply cluster_carries.
Qed.
End ClusterInvariants.

Lemma cluster_length (Date_parse : string -> option Z) (th : Q) (fuel : nat)
    (remaining : list Feature) :
  length (Grouping.cluster Date_parse fuel th remaining) <= length remaining
  /\ (remaining <> [] -> 0 < fuel -> Grouping.cluster Date_parse fuel th remaining <> []).
Proof.
  split.
  - revert remaining. induction fuel as [| fuel IH]; intros remaining; [simpl; lia |].
    destruct remaining as [| pivot rest]; [simpl; lia |]. cbn [Grouping.cluster].
    pose proof (scan_length Date_parse th pivot rest) as Hl.
    destruct (Grouping.scan Date_parse th pivot rest) as [current rest']. simpl in *.
    specialize (IH rest'). lia.
  - intros Hne Hfuel. destruct fuel; [lia |]. destruct remaining; [done |].
    cbn [Grouping.cluster]. by destruct (Grouping.scan _ _ _ _).
Qed.

(** X6. Clustering neither loses nor invents a PR number: a number is in the
    [prs] of some feature that comes out exactly when it is in the [prs] of
    some feature that went in. No more features come out than went in, and
    some do when some went in. *)
Theorem mergeSimilarFeatures_keeps_prs
    (Date_parse : string -> option Z) (th : Q) (features : list Feature) :
  let merged := Grouping.mergeSimilarFeatures Date_parse features th in
  (forall n, (exists f, f ∈ merged /\ n ∈ prs f) <-> (exists f, f ∈ features /\ n ∈ prs f))
  /\ length merged <= length features
  /\ (merged = [] <-> features = []).
Proof.
  intros merged. split; [| split].
  - apply (mergeSimilarFeatures_carries Date_parse th (fun _ => True)
             (fun f (n : Z) => n ∈ prs f)).
    + intros a b _ _ _. split; [exact I |]. apply mergeFeatures_prs.
    + by apply Forall_forall.
  - unfold merged, Grouping.mergeSimilarFeatures.
    destruct (Nat.leb _ 1); [lia | apply cluster_length].
  - unfold merged, Grouping.mergeSimilarFeatures.
    destruct (Nat.leb_spec (length features) 1) as [Hle | Hgt]; [tauto |].
    split.
    + intros Hnil. exfalso. revert Hnil. apply cluster_length; [| lia].
      intros ->. simpl in Hgt. lia.
    + intros ->. simpl in Hgt. lia.
Qed.

(** X7. Clustering keeps every [prs] a strictly ascending list: if that holds
    of the features that go in, it holds of the features that come out. *)
Theorem mergeSimilarFeatures_keeps_sorted
    (Date_parse : string -> option Z) (th : Q) (features : list Feature) :
  Forall (fun f => StronglySorted Z.lt (prs f)) features ->
  Forall (fun f => StronglySorted Z.lt (prs f))
    (Grouping.mergeSimilarFeatures Date_parse features th).
Proof.
  intros H.
  apply (mergeSimilarFeatures_carries Date_parse th
           (fun f => StronglySorted Z.lt (prs f)) (fun f (n : Z) => n ∈ prs f)).
  - intros a b _ _ _. apply mergeFeatures_prs.
  - exact H.
Qed.

Lemma mergeSimilarFeatures_keeps_sorted_witness :
  Forall (fun f => StronglySorted Z.lt (prs f))
    (Grouping.mergeSimilarFeatures DateTime.parseISO [Ex.f_button; Ex.f_feature]
       Grouping.defaultThreshold).
Proof.
  apply (mergeSimilarFeatures_keeps_sorted DateTime.parseISO Grouping.defaultThreshold
           [Ex.f_button; Ex.f_feature]).
  repeat constructor.
Defined.

(** A merge that a positive threshold allows joins two features of one
    project and one type, and the merge has that project and type. *)
Lemma merge_same_kind (Date_parse : string -> option Z) (th : Q) (a b : Feature) :
  (0 < th)%Q -> Qle_bool th (Grouping.featureSimilarity a b) = true ->
  project a = project b /\ type a = type b
  /\ project (Grouping.mergeFeatures Date_parse a b) = project a
  /\ type (Grouping.mergeFeatures Date_parse a b) = type a.
Proof.
  intros Hth Hsim.
  assert (Hsame : project a = project b /\ type a = type b).
  { destruct (decide (project a = project b)) as [Hp | Hp];
      [destruct (decide (type a = type b)) as [Ht | Ht]; [by split |] |];
      exfalso;
      (rewrite featureSimilarity_gate in Hsim by tauto);
      rewrite not_similar_zero in Hsim by assumption; discriminate. }
  destruct Hsame as [Hp Ht]. split; [exact Hp |]. split; [exact Ht |].
  unfold Grouping.mergeFeatures. cbn [project type].
  destruct (_ || _); [by split | by split].
Qed.

(** X8. At a positive threshold clustering never joins features of different
    projects or types: the pairs (project, type) of the features that come
    out are exactly those of the features that went in. *)
Theorem mergeSimilarFeatures_keeps_kinds
    (Date_parse : string -> option Z) (th : Q) (features : list Feature)
    (p : string) (t : FeatureType) :
  (0 < th)%Q ->
  (exists f, f ∈ Grouping.mergeSimilarFeatures Date_parse features th
             /\ project f = p /\ type f = t)
  <-> (exists f, f ∈ features /\ project f = p /\ type f = t).
Proof.
  intros Hth.
  destruct (mergeSimilarFeatures_carries Date_parse th (fun _ => True)
              (fun f (pt : string * FeatureType) => project f = fst pt /\ type f = snd pt))
    with (features := features) as [_ H].
  - intros a b _ _ Hsim. split; [exact I |].
    destruct (merge_same_kind Date_parse th a b Hth Hsim) as (Hp & Ht & Hmp & Hmt).
    intros [p' t']. cbn [fst snd]. rewrite Hmp, Hmt, <- Hp, <- Ht. tauto.
  - by apply Forall_forall.
  - apply (H (p, t)).
Qed.

Lemma mergeSimilarFeatures_keeps_kinds_witness :
  exists f, f ∈ Grouping.mergeSimilarFeatures DateTime.parseISO
                  [Ex.f_button; Ex.f_button_bugfix; Ex.f_feature] Grouping.defaultThreshold
            /\ project f = "a/b" /\ type f = bugfix.
Proof.
  apply (mergeSimilarFeatures_keeps_kinds DateTime.parseISO Grouping.defaultThreshold
           [Ex.f_button; Ex.f_button_bugfix; Ex.f_feature] "a/b" bugfix); [reflexivity |].
  exists Ex.f_button_bugfix. split; [right; left | split; reflexivity].
Defined.

(** ** Grouping by repository and the project summaries *)

Lemma add_cons_eq (k : string) (rest : list string) :
  JS.add String.eqb (k :: rest) k = k :: rest.
Proof. unfold JS.add, JS.has. simpl. by rewrite String.eqb_refl. Qed.

Lemma add_cons_ne (k x : string) (rest : list string) :
  x <> k -> JS.add String.eqb (k :: rest) x = k :: JS.add String.eqb rest x.
Proof.
  intros Hne. unfold JS.add, JS.has. simpl.
  destruct (String.eqb_spec x k) as [-> | _]; [congruence |]. simpl.
  by destruct (existsb (String.eqb x) rest).
Qed.

(** One [groupPush] on a map whose groups are the features of [l] by
    project: the groups of [l ++ [f]]. *)
Lemma groupPush_keys (l : list Feature) (f : Feature) (keys : list string) :
  NoDup keys ->
  (project f ∉ keys -> List.filter (fun g => String.eqb (project g) (project f)) l = []) ->
  Grouping.groupPush
    (map (fun k => (k, List.filter (fun g => String.eqb (project g) k) l)) keys) f
  = map (fun k => (k, List.filter (fun g => String.eqb (project g) k) (l ++ [f])))
      (JS.add String.eqb keys (project f)).
Proof.
  induction keys as [| k rest IH]; intros Hnd Hnew.
  - simpl. unfold JS.add. simpl. rewrite List.filter_app, Hnew by apply not_elem_of_nil.
    simpl. by rewrite String.eqb_refl.
  - apply NoDup_cons in Hnd as [Hk Hrest]. simpl.
    destruct (String.eqb_spec k (project f)) as [E | Hne].
    + subst k. rewrite add_cons_eq. simpl. rewrite List.filter_app. simpl.
      rewrite String.eqb_refl. f_equal.
      apply map_ext_in. intros k' Hk'. f_equal. rewrite List.filter_app. simpl.
      destruct (String.eqb_spec (project f) k') as [E | _]; [| by rewrite app_nil_r].
      subst. exfalso. apply Hk. by apply list_elem_of_In.
    + rewrite add_cons_ne by congruence. simpl. f_equal.
      * f_equal. rewrite List.filter_app. simpl.
        destruct (String.eqb_spec (project f) k); [congruence |]. by rewrite app_nil_r.
      * apply IH; [assumption |]. intros Hn. apply Hnew.
        rewrite elem_of_cons. intros [? | ?]; [congruence | tauto].
Qed.

Lemma groupByRepository_groups (features : list Feature) :
  Grouping.groupByRepository features
  = map (fun k => (k, List.filter (fun f => String.eqb (project f) k) features))
      (JS.newSet String.eqb (map project features)).
Proof.
  induction features as [| f l IH] using rev_ind; [reflexivity |].
  unfold Grouping.groupByRepository, JS.newSet in *.
  rewrite map_app, !fold_left_app. simpl. rewrite IH.
  apply groupPush_keys.
  - apply (NoDup_fold_add _ string_eqb_spec'). constructor.
  - intros Hn.
    destruct (List.filter _ l) as [| g gs] eqn:E; [reflexivity |]. exfalso.
    assert (Hg : g ∈ List.filter (fun g => String.eqb (project g) (project f)) l)
      by (rewrite E; left).
    apply elem_of_List_filter in Hg as [Hin Heq]. apply string_eqb_spec' in Heq.
    apply Hn. apply (elem_of_fold_add _ string_eqb_spec'). right.
    rewrite <- Heq. apply list_elem_of_In, in_map. by apply list_elem_of_In.
Qed.

Lemma groupPush_all (groups : list (string * list Feature)) (f : Feature) :
  flat_map snd (Grouping.groupPush groups f) ≡ₚ flat_map snd groups ++ [f].
Proof.
  induction groups as [| [k g] rest IH]; simpl; [reflexivity |].
  destruct (String.eqb k (project f)); simpl.
  - rewrite <- !app_assoc. apply Permutation_app_head, Permutation_app_comm.
  - rewrite IH. by rewrite app_assoc.
Qed.

Lemma groupByRepository_all (features : list Feature) :
  flat_map snd (Grouping.groupByRepository features) ≡ₚ features.
Proof.
  unfold Grouping.groupByRepository.
  induction features as [| f l IH] using rev_ind; [reflexivity |].
  rewrite fold_left_app. simpl. by rewrite groupPush_all, IH.
Qed.

(** X9. [groupByRepository] splits the features by project: the keys are the
    distinct projects in the order of their first feature, the group of a key
    is the features of that project in their input order (so no group is
    empty), and the groups together are the input. *)
Theorem groupByRepository_partition (features : list Feature) :
  let groups := Grouping.groupByRepository features in
  groups
  = map (fun k => (k, List.filter (fun f => String.eqb (project f) k) features))
      (JS.newSet String.eqb (map project features))
  /\ NoDup (map fst groups)
  /\ Forall (fun g => snd g <> []) groups
  /\ flat_map snd groups ≡ₚ features.
Proof.
  intros groups. split; [apply groupByRepository_groups |]. split; [| split].
  - unfold groups. rewrite groupByRepository_groups, map_map. simpl. rewrite map_id.
    apply (NoDup_newSet _ string_eqb_spec').
  - unfold groups. rewrite groupByRepository_groups.
    apply Forall_forall. intros g Hg.
    apply list_elem_of_In, in_map_iff in Hg as (k & <- & Hk). simpl.
    apply list_elem_of_In in Hk.
    apply (proj1 (elem_of_newSet _ string_eqb_spec' _ _)) in Hk.
    apply list_elem_of_In in Hk. apply in_map_iff in Hk as (f & <- & Hf).
    intros Hnil.
    assert (Hin : f ∈ List.filter (fun g => String.eqb (project g) (project f)) features).
    { apply elem_of_List_filter. split; [by apply list_elem_of_In | apply String.eqb_refl]. }
    rewrite Hnil in Hin. by apply elem_of_nil in Hin.
  - apply groupByRepository_all.
Qed.

Lemma elem_of_ofProject (k : string) (features : list Feature) (f : Feature) :
  f ∈ Rel.ofProject k features <-> f ∈ features /\ project f = k.
Proof.
  unfold Rel.ofProject. rewrite elem_of_List_filter. by rewrite string_eqb_spec'.
Qed.

Lemma length_newSet_Z (l : list Z) :
  length (JS.newSet Z.eqb l) = size (list_to_set l : gset Z).
Proof.
  rewrite <- (size_list_to_set (C := gset Z) (JS.newSet Z.eqb l))
    by apply (NoDup_newSet _ Z_eqb_spec').
  f_equal. apply set_eq. intros x.
  rewrite !elem_of_list_to_set. apply (elem_of_newSet _ Z_eqb_spec').
Qed.

Lemma elem_of_flat_map_prs (l : list Feature) (n : Z) :
  n ∈ flat_map prs l <-> exists f, f ∈ l /\ n ∈ prs f.
Proof.
  rewrite list_elem_of_In, in_flat_map. split; intros (f & Hf & Hn); exists f.
  - by rewrite !list_elem_of_In.
  - by rewrite <- !list_elem_of_In.
Qed.

Lemma mergeSimilarFeatures_nonempty
    (Date_parse : string -> option Z) (th : Q) (features : list Feature) :
  features <> [] -> Grouping.mergeSimilarFeatures Date_parse features th <> [].
Proof.
  intros Hne. unfold Grouping.mergeSimilarFeatures.
  destruct (Nat.leb_spec (length features) 1) as [Hle | Hgt]; [assumption |].
  apply cluster_length; [assumption | lia].
Qed.

Section GroupFacts.
Variable Date_parse : string -> option Z.

Local Abbreviation merged g :=
  (Grouping.mergeSimilarFeatures Date_parse g Grouping.defaultThreshold).
Local Abbreviation sorted g := (Grouping.sortFeatures Date_parse (merged g)).

Lemma elem_of_sortFeatures (l : list Feature) (f : Feature) :
  f ∈ Grouping.sortFeatures Date_parse l <-> f ∈ l.
Proof. unfold Grouping.sortFeatures. by rewrite sort_perm. Qed.

Lemma rangeStep_prs (l : list Feature) (a : string * string * list Z) :
  (fold_left (Grouping.rangeStep Date_parse) l a).2
  = fold_left (JS.add Z.eqb) (flat_map prs l) a.2.
Proof.
  revert a. induction l as [| f l IH]; intros [[sd ed] acc]; [reflexivity |].
  simpl. rewrite IH. simpl. by rewrite fold_left_app.
Qed.

Lemma summaryOf_fields (k : string) (g : list Feature) :
  let s := Grouping.summaryOf Date_parse (k, g) in
  ProjectSummary.repoFullName s = k
  /\ ProjectSummary.features s = sorted g
  /\ ProjectSummary.startDate s
     = (fold_left (Grouping.rangeStep Date_parse) (sorted g) ("", "", [])).1.1
  /\ ProjectSummary.endDate s
     = (fold_left (Grouping.rangeStep Date_parse) (sorted g) ("", "", [])).1.2
  /\ ProjectSummary.totalPRs s = length (JS.newSet Z.eqb (flat_map prs (sorted g))).
Proof.
  unfold Grouping.summaryOf, JS.newSet.
  pose proof (rangeStep_prs (sorted g) ("", "", [])) as H.
  destruct (fold_left _ (sorted g) _) as [[sd ed] acc]. simpl in *.
  by rewrite H.
Qed.

Lemma groupFeatures_perm (features : list Feature) :
  Grouping.groupFeatures Date_parse features
  ≡ₚ map (fun k => Grouping.summaryOf Date_parse (k, Rel.ofProject k features))
       (JS.newSet String.eqb (map project features)).
Proof.
  unfold Grouping.groupFeatures.
  by rewrite sort_perm, groupByRepository_groups, map_map.
Qed.

(** The summaries are those of the groups. *)
Lemma elem_of_groupFeatures (features : list Feature) (s : ProjectSummary.t) :
  s ∈ Grouping.groupFeatures Date_parse features
  <-> exists f, f ∈ features
        /\ s = Grouping.summaryOf Date_parse (project f, Rel.ofProject (project f) features).
Proof.
  rewrite groupFeatures_perm, list_elem_of_In, in_map_iff. split.
  - intros (k & <- & Hk). apply list_elem_of_In in Hk.
    apply (proj1 (elem_of_newSet _ string_eqb_spec' _ _)) in Hk.
    apply list_elem_of_In in Hk. apply in_map_iff in Hk as (f & <- & Hf).
    exists f. by rewrite list_elem_of_In.
  - intros (f & Hf & ->). exists (project f). split; [reflexivity |].
    apply list_elem_of_In, (elem_of_newSet _ string_eqb_spec').
    apply list_elem_of_In, in_map. by apply list_elem_of_In.
Qed.

Lemma merged_prs (g : list Feature) (n : Z) :
  (exists f, f ∈ merged g /\ n ∈ prs f) <-> (exists f, f ∈ g /\ n ∈ prs f).
Proof.
  apply (mergeSimilarFeatures_carries Date_parse Grouping.defaultThreshold (fun _ => True)
           (fun f (n : Z) => n ∈ prs f)).
  - intros a b _ _ _. split; [exact I |]. apply mergeFeatures_prs.
  - by apply Forall_forall.
Qed.

Lemma merged_project (k : string) (g : list Feature) :
  Forall (fun f => project f = k) g -> Forall (fun f => project f = k) (merged g).
Proof.
  apply (mergeSimilarFeatures_carries Date_parse Grouping.defaultThreshold
           (fun f => project f = k) (fun _ (_ : unit) => False)).
  intros a b Ha Hb _. split; [| tauto].
  unfold Grouping.mergeFeatures. simpl. by destruct (_ || _).
Qed.

End GroupFacts.

(** X10. [groupFeatures] gives one summary per project of the input. The
    features of a summary are all of that project and there is at least one;
    their PR numbers are exactly those of the project's input features; and
    [totalPRs] is the number of distinct PR numbers of the project's input
    features. *)
Theorem groupFeatures_summaries (Date_parse : string -> option Z) (features : list Feature) :
  let summaries := Grouping.groupFeatures Date_parse features in
  map ProjectSummary.repoFullName summaries ≡ₚ JS.newSet String.eqb (map project features)
  /\ Forall (fun s =>
       let k := ProjectSummary.repoFullName s in
       ProjectSummary.features s <> []
       /\ Forall (fun f => project f = k) (ProjectSummary.features s)
       /\ (forall n, (exists f, f ∈ ProjectSummary.features s /\ n ∈ prs f)
                     <-> (exists f, f ∈ features /\ project f = k /\ n ∈ prs f))
       /\ ProjectSummary.totalPRs s
          = size (list_to_set (flat_map prs (Rel.ofProject k features)) : gset Z))
     summaries.
Proof.
  intros summaries. split.
  - unfold summaries. rewrite groupFeatures_perm, map_map.
    erewrite map_ext; [by rewrite map_id |].
    intros k. apply summaryOf_fields.
  - apply Forall_forall. intros s Hs.
    apply elem_of_groupFeatures in Hs as (f0 & Hf0 & ->).
    destruct (summaryOf_fields Date_parse (project f0) (Rel.ofProject (project f0) features))
      as (E1 & E2 & _ & _ & E5).
    cbv zeta. rewrite E1, E2, E5. clear E1 E2 E5.
    split; [| split; [| split]].
    + intros Hnil.
      assert (Hin : f0 ∈ Rel.ofProject (project f0) features)
        by (by apply elem_of_ofProject).
      assert (Hne : Rel.ofProject (project f0) features <> [])
        by (intros E; rewrite E in Hin; by apply elem_of_nil in Hin).
      apply (mergeSimilarFeatures_nonempty Date_parse Grouping.defaultThreshold) in Hne.
      destruct (Grouping.mergeSimilarFeatures _ _ _) as [| m ms] eqn:E; [done |].
      assert (Hm : m ∈ Grouping.sortFeatures Date_parse (m :: ms))
        by (apply elem_of_sortFeatures; left).
      rewrite Hnil in Hm. by apply elem_of_nil in Hm.
    + apply Forall_forall. intros f Hf. apply elem_of_sortFeatures in Hf.
      revert f Hf. apply Forall_forall, merged_project.
      apply Forall_forall. intros f Hf. by apply elem_of_ofProject in Hf as [_ ?].
    + intros n. transitivity (exists f, f ∈ Rel.ofProject (project f0) features /\ n ∈ prs f).
      * rewrite <- (merged_prs Date_parse (Rel.ofProject (project f0) features) n).
        split; intros (f & Hf & Hn); exists f; split; try assumption;
          by apply (elem_of_sortFeatures Date_parse).
      * split; intros (f & Hf & Hn); exists f.
        -- apply elem_of_ofProject in Hf as [? ?]. tauto.
        -- split; [apply elem_of_ofProject |]; tauto.
    + rewrite length_newSet_Z. f_equal. apply set_eq. intros n.
      rewrite !elem_of_list_to_set, !elem_of_flat_map_prs.
      rewrite <- (merged_prs Date_parse (Rel.ofProject (project f0) features) n).
      split; intros (f & Hf & Hn); exists f; split; try assumption;
        by apply (elem_of_sortFeatures Date_parse).
Qed.

(** ** Dates of the summaries *)

Section Chronology.
Variable Date_parse : string -> option Z.
Hypothesis parse_empty : Date_parse "" = None.

Local Abbreviation dated f :=
  (is_Some (Date_parse (startDate f)) /\ is_Some (Date_parse (endDate f))).
Local Abbreviation startsBy := (Rel.startsBy Date_parse).
Local Abbreviation endsFrom := (Rel.endsFrom Date_parse).
Local Abbreviation noLater := (Rel.noLater Date_parse).
Local Abbreviation merged g :=
  (Grouping.mergeSimilarFeatures Date_parse g Grouping.defaultThreshold).

(** Sorting by a date key puts valid dates in order. *)
Lemma sort_by_date {A : Type} (key : A -> string) (l : list A) :
  Forall (fun a => is_Some (Date_parse (key a))) l ->
  StronglySorted (fun a b => noLater (key a) (key b))
    (JS.sort (fun a b => JS.minus (Date_parse (key a)) (Date_parse (key b))) l).
Proof.
  apply (sort_sorted _ (fun a => is_Some (Date_parse (key a)))).
  - intros a b c (ta & tb & Ha & Hb & Hab) (tb' & tc & Hb' & Hc & Hbc).
    exists ta, tc. rewrite Hb in Hb'. injection Hb' as <-.
    repeat split; [assumption .. | lia].
  - intros a b [ta Ha] [tb Hb]. unfold JS.after. rewrite Ha, Hb. simpl.
    intros H. apply Z.ltb_lt in H. exists tb, ta. repeat split; [assumption .. | lia].
  - intros a b [ta Ha] [tb Hb]. unfold JS.after. rewrite Ha, Hb. simpl.
    intros H. apply Z.ltb_ge in H. exists ta, tb. repeat split; [assumption .. | lia].
Qed.

Lemma merge_dated (a b : Feature) :
  dated a -> dated b ->
  dated (Grouping.mergeFeatures Date_parse a b)
  /\ (forall x, startsBy (startDate (Grouping.mergeFeatures Date_parse a b)) x
                <-> startsBy (startDate a) x \/ startsBy (startDate b) x)
  /\ (forall x, endsFrom (endDate (Grouping.mergeFeatures Date_parse a b)) x
                <-> endsFrom (endDate a) x \/ endsFrom (endDate b) x).
Proof.
  intros [[sa Hsa] [ea Hea]] [[sb Hsb] [eb Heb]].
  unfold Grouping.mergeFeatures, Rel.startsBy, Rel.endsFrom.
  cbn [startDate endDate]. unfold JS.gt, JS.lt. rewrite Hsa, Hsb, Hea, Heb.
  destruct (Z.ltb_spec sa sb), (Z.ltb_spec eb ea);
    rewrite ?Hsa, ?Hsb, ?Hea, ?Heb;
    (split; [split; eexists; reflexivity |]);
    split; intros x; split;
      try (intros (t & [= <-] & Ht); (left + right); eexists; split; [reflexivity | lia]);
      intros [(t & [= <-] & Ht) | (t & [= <-] & Ht)]; eexists; (split; [reflexivity | lia]).
Qed.

Lemma merged_dated (g : list Feature) :
  Forall (fun f => dated f) g ->
  Forall (fun f => dated f) (merged g)
  /\ (forall x, (exists f, f ∈ merged g /\ startsBy (startDate f) x)
                <-> (exists f, f ∈ g /\ startsBy (startDate f) x))
  /\ (forall x, (exists f, f ∈ merged g /\ endsFrom (endDate f) x)
                <-> (exists f, f ∈ g /\ endsFrom (endDate f) x)).
Proof.
  intros Hg. split; [| split].
  - apply (mergeSimilarFeatures_carries Date_parse Grouping.defaultThreshold
             (fun f => dated f) (fun f x => startsBy (startDate f) x)); [| assumption].
    intros a b Ha Hb _. split; by apply merge_dated.
  - apply (mergeSimilarFeatures_carries Date_parse Grouping.defaultThreshold
             (fun f => dated f) (fun f x => startsBy (startDate f) x)); [| assumption].
    intros a b Ha Hb _. split; by apply merge_dated.
  - apply (mergeSimilarFeatures_carries Date_parse Grouping.defaultThreshold
             (fun f => dated f) (fun f x => endsFrom (endDate f) x)); [| assumption].
    intros a b Ha Hb _. split; by apply merge_dated.
Qed.

(** The [startDate] and [endDate] that the loop of [groupFeatures] leaves. *)
Lemma rangeStep_dates (l : list Feature) (sd ed : string) (acc : list Z) :
  (fold_left (Grouping.rangeStep Date_parse) l (sd, ed, acc)).1
  = (fold_left
       (fun sd f =>
          if String.eqb sd "" || JS.lt (Date_parse (startDate f)) (Date_parse sd)
          then startDate f else sd) l sd,
     fold_left
       (fun ed f =>
          if String.eqb ed "" || JS.gt (Date_parse (endDate f)) (Date_parse ed)
          then endDate f else ed) l ed).
Proof.
  revert sd ed acc. induction l as [| f l IH]; intros sd ed acc; [reflexivity |].
  simpl. by rewrite IH.
Qed.

Lemma earliest (l : list Feature) (sd : string) :
  Forall (fun f => is_Some (Date_parse (startDate f))) l ->
  sd = "" \/ is_Some (Date_parse sd) ->
  let r := fold_left
             (fun sd f =>
                if String.eqb sd "" || JS.lt (Date_parse (startDate f)) (Date_parse sd)
                then startDate f else sd) l sd in
  (l <> [] -> is_Some (Date_parse r))
  /\ forall x, startsBy r x <-> startsBy sd x \/ exists f, f ∈ l /\ startsBy (startDate f) x.
Proof.
  intros Hl. revert sd. induction Hl as [| f l [t Hf] Hl IH]; intros sd Hsd; simpl.
  - split; [done |]. intros x. split; [tauto |].
    intros [? | (f & Hf & _)]; [assumption | by apply elem_of_nil in Hf].
  - set (sd1 := if String.eqb sd "" || _ then _ else _).
    assert (H1 : is_Some (Date_parse sd1)
                 /\ forall x, startsBy sd1 x <-> startsBy sd x \/ startsBy (startDate f) x).
    { unfold sd1, Rel.startsBy. destruct Hsd as [-> | [t0 Ht0]].
      - simpl. rewrite Hf, parse_empty. split; [by eexists |].
        intros x. split; [tauto |]. by intros [(? & [=] & _) | ?].
      - destruct (String.eqb_spec sd "") as [-> | _]; [congruence |]. simpl.
        rewrite Hf, Ht0. simpl. destruct (Z.ltb_spec t t0); rewrite ?Hf, ?Ht0.
        + split; [by eexists |]. intros x. split; [tauto |].
          intros [(? & [= <-] & ?) | ?]; [| assumption].
          eexists. split; [reflexivity | lia].
        + split; [by eexists |]. intros x. split; [tauto |].
          intros [? | (? & [= <-] & ?)]; [assumption |].
          eexists. split; [reflexivity | lia]. }
    destruct H1 as [Hs1 Hx1]. destruct (IH sd1 (or_intror Hs1)) as [_ IHx].
    split.
    + intros _. destruct l as [| g l']; [exact Hs1 |]. by apply IH; [right |].
    + intros x. rewrite IHx, Hx1. split.
      * intros [[? | ?] | (g & Hg & ?)]; [tauto | right; exists f | right; exists g].
        -- split; [left | assumption].
        -- split; [by right | assumption].
      * intros [? | (g & Hg & ?)]; [tauto |].
        apply elem_of_cons in Hg as [-> | Hg]; [tauto |]. right. by exists g.
Qed.

Lemma latest (l : list Feature) (ed : string) :
  Forall (fun f => is_Some (Date_parse (endDate f))) l ->
  ed = "" \/ is_Some (Date_parse ed) ->
  let r := fold_left
             (fun ed f =>
                if String.eqb ed "" || JS.gt (Date_parse (endDate f)) (Date_parse ed)
                then endDate f else ed) l ed in
  (l <> [] -> is_Some (Date_parse r))
  /\ forall x, endsFrom r x <-> endsFrom ed x \/ exists f, f ∈ l /\ endsFrom (endDate f) x.
Proof.
  intros Hl. revert ed. induction Hl as [| f l [t Hf] Hl IH]; intros ed Hed; simpl.
  - split; [done |]. intros x. split; [tauto |].
    intros [? | (f & Hf & _)]; [assumption | by apply elem_of_nil in Hf].
  - set (ed1 := if String.eqb ed "" || _ then _ else _).
    assert (H1 : is_Some (Date_parse ed1)
                 /\ forall x, endsFrom ed1 x <-> endsFrom ed x \/ endsFrom (endDate f) x).
    { unfold ed1, Rel.endsFrom, JS.gt. destruct Hed as [-> | [t0 Ht0]].
      - simpl. rewrite Hf, parse_empty. split; [by eexists |].
        intros x. split; [tauto |]. by intros [(? & [=] & _) | ?].
      - destruct (String.eqb_spec ed "") as [-> | _]; [congruence |]. simpl.
        rewrite Hf, Ht0. simpl. destruct (Z.ltb_spec t0 t); rewrite ?Hf, ?Ht0.
        + split; [by eexists |]. intros x. split; [tauto |].
          intros [(? & [= <-] & ?) | ?]; [| assumption].
          eexists. split; [reflexivity | lia].
        + split; [by eexists |]. intros x. split; [tauto |].
          intros [? | (? & [= <-] & ?)]; [assumption |].
          eexists. split; [reflexivity | lia]. }
    destruct H1 as [Hs1 Hx1]. destruct (IH ed1 (or_intror Hs1)) as [_ IHx].
    split.
    + intros _. destruct l as [| g l']; [exact Hs1 |]. by apply IH; [right |].
    + intros x. rewrite IHx, Hx1. split.
      * intros [[? | ?] | (g & Hg & ?)]; [tauto | right; exists f | right; exists g].
        -- split; [left | assumption].
        -- split; [by right | assumption].
      * intros [? | (g & Hg & ?)]; [tauto |].
        apply elem_of_cons in Hg as [-> | Hg]; [tauto |]. right. by exists g.
Qed.

(** The summary of a group of dated features: its features in order of
    their end, its start the earliest start of the group and its end the
    latest end. *)
Lemma summaryOf_range (k : string) (g : list Feature) :
  g <> [] -> Forall (fun f => dated f) g ->
  let s := Grouping.summaryOf Date_parse (k, g) in
  StronglySorted (fun a b => noLater (endDate a) (endDate b)) (ProjectSummary.features s)
  /\ (exists f t, f ∈ g /\ Date_parse (startDate f) = Some t
        /\ Date_parse (ProjectSummary.startDate s) = Some t
        /\ Forall (fun h => endsFrom (startDate h) t) g)
  /\ (exists f t, f ∈ g /\ Date_parse (endDate f) = Some t
        /\ Date_parse (ProjectSummary.endDate s) = Some t
        /\ Forall (fun h => startsBy (endDate h) t) g).
Proof.
  intros Hne Hg s.
  destruct (summaryOf_fields Date_parse k g) as (_ & E2 & E3 & E4 & _).
  fold s in E2, E3, E4. rewrite E2, E3, E4, rangeStep_dates. clear E2 E3 E4. simpl.
  destruct (merged_dated g Hg) as (Hm & Hstart & Hend).
  assert (Hs : Forall (fun f => dated f) (Grouping.sortFeatures Date_parse (merged g))).
  { apply Forall_forall. intros f Hf. apply elem_of_sortFeatures in Hf.
    revert f Hf. by apply Forall_forall. }
  assert (Hsne : Grouping.sortFeatures Date_parse (merged g) <> []).
  { intros Hnil.
    apply (mergeSimilarFeatures_nonempty Date_parse Grouping.defaultThreshold) in Hne.
    destruct (merged g) as [| m ms] eqn:E; [done |].
    assert (Hin : m ∈ Grouping.sortFeatures Date_parse (m :: ms))
      by (apply elem_of_sortFeatures; left).
    rewrite Hnil in Hin. by apply elem_of_nil in Hin. }
  split; [| split].
  - apply (sort_by_date endDate). eapply Forall_impl; [exact Hm |]. by intros f [_ ?].
  - destruct (earliest (Grouping.sortFeatures Date_parse (merged g)) "") as [Hsome Hx].
    { eapply Forall_impl; [exact Hs |]. by intros f [? _]. }
    { by left. }
    destruct (Hsome Hsne) as [t0 Ht0].
    assert (Hiff : forall x,
      startsBy
        (fold_left
           (fun sd f =>
              if String.eqb sd "" || JS.lt (Date_parse (startDate f)) (Date_parse sd)
              then startDate f else sd)
           (Grouping.sortFeatures Date_parse (merged g)) "") x
      <-> exists f, f ∈ g /\ startsBy (startDate f) x).
    { intros x. rewrite Hx, <- Hstart. split.
      - intros [(t & Ht & _) | (f & Hf & H)]; [by rewrite parse_empty in Ht |].
        exists f. split; [by apply (proj1 (elem_of_sortFeatures Date_parse _ _)) in Hf | done].
      - intros (f & Hf & H). right. exists f.
        split; [by apply (elem_of_sortFeatures Date_parse) | done]. }
    destruct (proj1 (Hiff t0)) as (f & Hf & t & Ht & Hle).
    { exists t0. split; [done | lia]. }
    assert (Hall : Forall (fun h => endsFrom (startDate h) t0) g).
    { apply Forall_forall. intros h Hh.
      pose proof (proj1 (Forall_forall _ _) Hg h Hh) as [[th Hth] _].
      destruct (proj2 (Hiff th)) as (t' & Ht' & Hle').
      { exists h. split; [done |]. exists th. split; [done | lia]. }
      rewrite Ht0 in Ht'. injection Ht' as <-. exists th. split; [done | lia]. }
    exists f, t0. split; [done |]. split; [| split; [exact Ht0 | exact Hall]].
    pose proof (proj1 (Forall_forall _ _) Hall f Hf) as (t' & Ht' & Hle').
    rewrite Ht in Ht'. injection Ht' as <-. rewrite Ht. f_equal. lia.
  - destruct (latest (Grouping.sortFeatures Date_parse (merged g)) "") as [Hsome Hx].
    { eapply Forall_impl; [exact Hs |]. by intros f [_ ?]. }
    { by left. }
    destruct (Hsome Hsne) as [t0 Ht0].
    assert (Hiff : forall x,
      endsFrom
        (fold_left
           (fun ed f =>
              if String.eqb ed "" || JS.gt (Date_parse (endDate f)) (Date_parse ed)
              then endDate f else ed)
           (Grouping.sortFeatures Date_parse (merged g)) "") x
      <-> exists f, f ∈ g /\ endsFrom (endDate f) x).
    { intros x. rewrite Hx, <- Hend. split.
      - intros [(t & Ht & _) | (f & Hf & H)]; [by rewrite parse_empty in Ht |].
        exists f. split; [by apply (proj1 (elem_of_sortFeatures Date_parse _ _)) in Hf | done].
      - intros (f & Hf & H). right. exists f.
        split; [by apply (elem_of_sortFeatures Date_parse) | done]. }
    destruct (proj1 (Hiff t0)) as (f & Hf & t & Ht & Hle).
    { exists t0. split; [done | lia]. }
    assert (Hall : Forall (fun h => startsBy (endDate h) t0) g).
    { apply Forall_forall. intros h Hh.
      pose proof (proj1 (Forall_forall _ _) Hg h Hh) as [_ [th Hth]].
      destruct (proj2 (Hiff th)) as (t' & Ht' & Hle').
      { exists h. split; [done |]. exists th. split; [done | lia]. }
      rewrite Ht0 in Ht'. injection Ht' as <-. exists th. split; [done | lia]. }
    exists f, t0. split; [done |]. split; [| split; [exact Ht0 | exact Hall]].
    pose proof (proj1 (Forall_forall _ _) Hall f Hf) as (t' & Ht' & Hle').
    rewrite Ht in Ht'. injection Ht' as <-. rewrite Ht. f_equal. lia.
Qed.

End Chronology.

(** X11. Where the empty string is no date and every feature has a valid
    start and end, [groupFeatures] is chronological: the summaries are in
    order of their start, the features of a summary in order of their end,
    and the start and end of a summary are the earliest start and the latest
    end of a feature of that project in the input. *)
Theorem groupFeatures_chronological
    (Date_parse : string -> option Z) (features : list Feature) :
  Date_parse "" = None ->
  Forall (fun f => is_Some (Date_parse (startDate f)) /\ is_Some (Date_parse (endDate f)))
    features ->
  let summaries := Grouping.groupFeatures Date_parse features in
  StronglySorted
    (fun a b => Rel.noLater Date_parse (ProjectSummary.startDate a) (ProjectSummary.startDate b))
    summaries
  /\ Forall (fun s =>
       let own := Rel.ofProject (ProjectSummary.repoFullName s) features in
       StronglySorted (fun a b => Rel.noLater Date_parse (endDate a) (endDate b))
         (ProjectSummary.features s)
       /\ (exists f t, f ∈ own /\ Date_parse (startDate f) = Some t
             /\ Date_parse (ProjectSummary.startDate s) = Some t
             /\ Forall (fun h => Rel.endsFrom Date_parse (startDate h) t) own)
       /\ (exists f t, f ∈ own /\ Date_parse (endDate f) = Some t
             /\ Date_parse (ProjectSummary.endDate s) = Some t
             /\ Forall (fun h => Rel.startsBy Date_parse (endDate h) t) own))
     summaries.
Proof.
  intros Hempty Hdated summaries.
  assert (Hall : Forall (fun s =>
       let own := Rel.ofProject (ProjectSummary.repoFullName s) features in
       StronglySorted (fun a b => Rel.noLater Date_parse (endDate a) (endDate b))
         (ProjectSummary.features s)
       /\ (exists f t, f ∈ own /\ Date_parse (startDate f) = Some t
             /\ Date_parse (ProjectSummary.startDate s) = Some t
             /\ Forall (fun h => Rel.endsFrom Date_parse (startDate h) t) own)
       /\ (exists f t, f ∈ own /\ Date_parse (endDate f) = Some t
             /\ Date_parse (ProjectSummary.endDate s) = Some t
             /\ Forall (fun h => Rel.startsBy Date_parse (endDate h) t) own))
     summaries).
  { apply Forall_forall. intros s Hs.
    apply elem_of_groupFeatures in Hs as (f0 & Hf0 & ->). cbv zeta.
    replace (ProjectSummary.repoFullName (Grouping.summaryOf Date_parse _)) with (project f0)
      by (symmetry; apply summaryOf_fields).
    apply (summaryOf_range Date_parse Hempty).
    - intros E. assert (Hin : f0 ∈ Rel.ofProject (project f0) features)
        by (by apply elem_of_ofProject).
      rewrite E in Hin. by apply elem_of_nil in Hin.
    - apply Forall_forall. intros f Hf. apply elem_of_ofProject in Hf as [Hf _].
      revert f Hf. by apply Forall_forall. }
  split; [| exact Hall].
  unfold summaries, Grouping.groupFeatures.
  apply (sort_by_date Date_parse ProjectSummary.startDate).
  apply Forall_forall. intros s Hs.
  assert (Hs' : s ∈ summaries)
    by (unfold summaries, Grouping.groupFeatures; by rewrite sort_perm).
  pose proof (proj1 (Forall_forall _ _) Hall s Hs') as (_ & (f & t & _ & _ & Ht & _) & _).
  by exists t.
Qed.

Lemma groupFeatures_chronological_witness :
  let summaries :=
    Grouping.groupFeatures DateTime.parseISO [Ex.f_button; Ex.f_docs; Ex.f_feature] in
  StronglySorted
    (fun a b =>
       Rel.noLater DateTime.parseISO (ProjectSummary.startDate a) (ProjectSummary.startDate b))
    summaries
  /\ map ProjectSummary.repoFullName summaries = ["c/d"; "a/b"].
Proof.
  split; [| reflexivity].
  apply (groupFeatures_chronological DateTime.parseISO [Ex.f_button; Ex.f_docs; Ex.f_feature]).
  - reflexivity.
  - repeat constructor; eexists; reflexivity.
Defined.

(** ** Statistics *)

Lemma countOf_countType (byType : list (FeatureType * nat)) (ty ty' : FeatureType) :
  Rel.countOf (Grouping.countType byType ty) ty'
  = Rel.countOf byType ty' + (if bool_decide (ty = ty') then 1 else 0).
Proof.
  unfold Rel.countOf. induction byType as [| [k c] rest IH]; simpl.
  - destruct (bool_decide (ty = ty')); reflexivity.
  - destruct (bool_decide_reflect (k = ty)) as [-> | Hne]; simpl.
    + destruct (bool_decide (ty = ty')); simpl; lia.
    + destruct (bool_decide (k = ty')); simpl; rewrite IH; lia.
Qed.

Lemma keys_countType (byType : list (FeatureType * nat)) (ty : FeatureType) :
  map fst (Grouping.countType byType ty)
  = if decide (ty ∈ map fst byType) then map fst byType else map fst byType ++ [ty].
Proof.
  induction byType as [| [k c] rest IH].
  - cbn [Grouping.countType map fst].
    destruct (decide (ty ∈ [])) as [H | _]; [by apply elem_of_nil in H | reflexivity].
  - cbn [Grouping.countType]. destruct (bool_decide_reflect (k = ty)) as [-> | Hne].
    + cbn [map fst]. destruct (decide (ty ∈ ty :: map fst rest)) as [_ | H]; [reflexivity |].
      exfalso. apply H. left.
    + cbn [map fst]. rewrite IH. destruct (decide (ty ∈ map fst rest)) as [Hin | Hout].
      * destruct (decide (ty ∈ k :: map fst rest)) as [_ | H]; [reflexivity |].
        exfalso. apply H. by right.
      * destruct (decide (ty ∈ k :: map fst rest)) as [H | _]; [| reflexivity].
        apply elem_of_cons in H as [-> | H]; [congruence | contradiction].
Qed.

Lemma NoDup_countType (byType : list (FeatureType * nat)) (ty : FeatureType) :
  NoDup (map fst byType) -> NoDup (map fst (Grouping.countType byType ty)).
Proof.
  intros Hnd. rewrite keys_countType. case_decide as Hout; [assumption |].
  apply NoDup_app. split; [assumption |]. split; [| apply NoDup_singleton].
  intros x Hx Hx'. apply list_elem_of_singleton in Hx'. by subst.
Qed.

Lemma positive_countType (byType : list (FeatureType * nat)) (ty : FeatureType) :
  Forall (fun e => 0 < snd e) byType ->
  Forall (fun e => 0 < snd e) (Grouping.countType byType ty).
Proof.
  induction 1 as [| [k c] rest Hc Hrest IH]; simpl.
  - repeat constructor.
  - destruct (bool_decide (k = ty)); constructor; simpl in *; (lia || assumption).
Qed.

Lemma countOf_absent (byType : list (FeatureType * nat)) (ty : FeatureType) :
  ty ∉ map fst byType -> Rel.countOf byType ty = 0.
Proof.
  unfold Rel.countOf. induction byType as [| [k c] rest IH]; simpl; [reflexivity |].
  intros Hout. apply not_elem_of_cons in Hout as [Hne Hout].
  destruct (bool_decide_reflect (k = ty)); [congruence | by apply IH].
Qed.

(** In a counter with distinct keys and positive counts, the entries are
    the positive values of [countOf]. *)
Lemma elem_of_counter (byType : list (FeatureType * nat)) (ty : FeatureType) (n : nat) :
  NoDup (map fst byType) -> Forall (fun e => 0 < snd e) byType ->
  (ty, n) ∈ byType <-> 0 < n /\ Rel.countOf byType ty = n.
Proof.
  induction byType as [| [k c] rest IH]; simpl; intros Hnd Hpos.
  - unfold Rel.countOf. simpl. split; [by intros H%elem_of_nil | lia].
  - apply NoDup_cons in Hnd as [Hk Hnd]. apply Forall_cons in Hpos as [Hc Hpos].
    simpl in Hc. rewrite elem_of_cons.
    assert (Hcons : Rel.countOf ((k, c) :: rest) ty
                    = (if bool_decide (k = ty) then c else 0) + Rel.countOf rest ty).
    { unfold Rel.countOf. simpl. by destruct (bool_decide (k = ty)). }
    rewrite Hcons. destruct (bool_decide_reflect (k = ty)) as [-> | Hne].
    + rewrite (countOf_absent rest ty Hk). split.
      * intros [[= ->] | Hin]; [lia |]. exfalso. apply Hk.
        apply list_elem_of_In. apply (in_map fst _ (ty, n)). by apply list_elem_of_In.
      * intros [_ <-]. left. f_equal. lia.
    + rewrite IH by assumption. simpl. split; [| tauto].
      intros [[= -> ->] | ?]; [congruence | assumption].
Qed.

Lemma calculateStats_fold (summaries : list ProjectSummary.t) (a b : nat)
    (c : list (FeatureType * nat)) :
  fold_left
    (fun stats summary =>
       Stats.mk
         (Stats.totalPRs stats + ProjectSummary.totalPRs summary)
         (Stats.totalFeatures stats + length (ProjectSummary.features summary))
         (fold_left (fun byType feature => Grouping.countType byType (type feature))
            (ProjectSummary.features summary) (Stats.featuresByType stats)))
    summaries (Stats.mk a b c)
  = Stats.mk
      (a + sum_list (map ProjectSummary.totalPRs summaries))
      (b + length (flat_map ProjectSummary.features summaries))
      (fold_left (fun byType feature => Grouping.countType byType (type feature))
         (flat_map ProjectSummary.features summaries) c).
Proof.
  revert a b c. induction summaries as [| s rest IH]; intros a b c; simpl.
  - f_equal; lia.
  - rewrite IH, length_app, fold_left_app. f_equal; lia.
Qed.

Lemma counter_fold (l : list Feature) (c : list (FeatureType * nat)) :
  let r := fold_left (fun byType feature => Grouping.countType byType (type feature)) l c in
  (NoDup (map fst c) -> NoDup (map fst r))
  /\ (Forall (fun e => 0 < snd e) c -> Forall (fun e => 0 < snd e) r)
  /\ forall ty, Rel.countOf r ty = Rel.countOf c ty + length (Rel.ofType ty l).
Proof.
  revert c. induction l as [| f l IH]; intros c; simpl.
  - split; [done |]. split; [done |]. intros ty. lia.
  - destruct (IH (Grouping.countType c (type f))) as (IH1 & IH2 & IH3).
    split; [| split].
    + intros H. by apply IH1, NoDup_countType.
    + intros H. by apply IH2, positive_countType.
    + intros ty. rewrite IH3, countOf_countType.
      destruct (bool_decide (type f = ty)); simpl; lia.
Qed.

(** X12. [calculateStats] adds up: [totalPRs] is the sum of the summaries'
    [totalPRs], [totalFeatures] the number of their features, and
    [featuresByType] has one entry per type that occurs, whose count is the
    number of features of that type; so its counts add up to
    [totalFeatures] type by type, and no entry has count 0. *)
Theorem calculateStats_counts (summaries : list ProjectSummary.t) :
  let stats := Grouping.calculateStats summaries in
  let all := flat_map ProjectSummary.features summaries in
  Stats.totalPRs stats = sum_list (map ProjectSummary.totalPRs summaries)
  /\ Stats.totalFeatures stats = length all
  /\ NoDup (map fst (Stats.featuresByType stats))
  /\ forall ty n,
       (ty, n) ∈ Stats.featuresByType stats <-> 0 < n /\ n = length (Rel.ofType ty all).
Proof.
  intros stats all. unfold stats, Grouping.calculateStats.
  rewrite calculateStats_fold. simpl. fold all.
  destruct (counter_fold all []) as (Hnd & Hpos & Hcount).
  split; [reflexivity |]. split; [reflexivity |]. split.
  - apply Hnd. constructor.
  - intros ty n. rewrite elem_of_counter; [| apply Hnd; constructor | apply Hpos; constructor].
    rewrite Hcount. unfold Rel.countOf at 1. simpl. split; intros [? ?]; split; lia.
Qed.

(** ** From features to statistics *)

Lemma sum_list_perm (l1 l2 : list nat) : l1 ≡ₚ l2 -> sum_list l1 = sum_list l2.
Proof. induction 1; simpl; lia. Qed.

Lemma flat_map_map {A B C : Type} (f : B -> list C) (g : A -> B) (l : list A) :
  flat_map f (map g l) = flat_map (fun a => f (g a)) l.
Proof. induction l as [| a l IH]; simpl; [reflexivity | by rewrite IH]. Qed.

Lemma mergeSimilarFeatures_length
    (Date_parse : string -> option Z) (th : Q) (features : list Feature) :
  length (Grouping.mergeSimilarFeatures Date_parse features th) <= length features.
Proof.
  unfold Grouping.mergeSimilarFeatures.
  destruct (Nat.leb _ 1); [lia | apply cluster_length].
Qed.

Lemma merged_types (Date_parse : string -> option Z) (g : list Feature) (ty : FeatureType) :
  (exists f, f ∈ Grouping.mergeSimilarFeatures Date_parse g Grouping.defaultThreshold
             /\ type f = ty)
  <-> (exists f, f ∈ g /\ type f = ty).
Proof.
  apply (mergeSimilarFeatures_carries Date_parse Grouping.defaultThreshold (fun _ => True)
           (fun f ty => type f = ty)).
  - intros a b _ _ Hsim. split; [exact I |]. intros ty'.
    destruct (merge_same_kind Date_parse Grouping.defaultThreshold a b) as (_ & Et & _ & Em);
      [reflexivity | assumption |].
    rewrite Em, <- Et. tauto.
  - by apply Forall_forall.
Qed.

(** Pairs of a key of a duplicate-free list with a value of a
    duplicate-free list of that key: no pair twice. *)
Lemma NoDup_tagged {K V : Type} (values : K -> list V) (keys : list K) :
  NoDup keys -> (forall k, NoDup (values k)) ->
  NoDup (flat_map (fun k => map (pair k) (values k)) keys).
Proof.
  intros Hk Hv. induction Hk as [| k rest Hout Hrest IH]; simpl; [constructor |].
  apply NoDup_app. split; [| split; [| assumption]].
  - specialize (Hv k). induction Hv as [| v vs Hv Hvs IHv]; simpl; constructor.
    + rewrite list_elem_of_In, in_map_iff. intros (v' & [= ->] & Hin).
      apply Hv. by apply list_elem_of_In.
    + assumption.
  - intros [k' v] Hin Hin'.
    apply list_elem_of_In, in_map_iff in Hin as (v' & [= <- <-] & _).
    apply list_elem_of_In, in_flat_map in Hin' as (k'' & Hk'' & Hin').
    apply in_map_iff in Hin' as (v'' & [= -> _] & _).
    apply Hout. by apply list_elem_of_In.
Qed.

Lemma length_tagged {K V : Type} (values : K -> list V) (keys : list K) :
  length (flat_map (fun k => map (pair k) (values k)) keys)
  = sum_list (map (fun k => length (values k)) keys).
Proof.
  induction keys as [| k rest IH]; simpl; [reflexivity |].
  by rewrite length_app, length_map, IH.
Qed.

(** Each pair of a project and a PR number counts once in the sum of the
    summaries' [totalPRs]. *)
Lemma totalPRs_counts_pairs (Date_parse : string -> option Z) (features : list Feature) :
  sum_list (map ProjectSummary.totalPRs (Grouping.groupFeatures Date_parse features))
  = size (list_to_set (flat_map (fun f => map (pair (project f)) (prs f)) features)
          : gset (string * Z)).
Proof.
  pose proof (groupFeatures_perm Date_parse features) as Hperm.
  set (keys := JS.newSet String.eqb (map project features)) in *.
  assert (Hkeys : forall k, k ∈ keys <-> exists f, f ∈ features /\ project f = k).
  { intros k. unfold keys. rewrite (elem_of_newSet _ string_eqb_spec').
    rewrite list_elem_of_In, in_map_iff. split; intros (f & ? & ?); exists f.
    - by rewrite list_elem_of_In.
    - by rewrite <- list_elem_of_In. }
  set (sorted k := Grouping.sortFeatures Date_parse
         (Grouping.mergeSimilarFeatures Date_parse (Rel.ofProject k features)
            Grouping.defaultThreshold)).
  set (values k := JS.newSet Z.eqb (flat_map prs (sorted k))).
  rewrite (sum_list_perm _ (map (fun k => length (values k)) keys)).
  2:{ rewrite Hperm, map_map. apply Permutation_refl'. apply map_ext.
      intros k. apply summaryOf_fields. }
  rewrite <- length_tagged.
  rewrite <- (size_list_to_set (C := gset (string * Z))).
  2:{ apply NoDup_tagged; [apply (NoDup_newSet _ string_eqb_spec') |].
      intros k. apply (NoDup_newSet _ Z_eqb_spec'). }
  f_equal. apply set_eq. intros [k n]. rewrite !elem_of_list_to_set.
  rewrite !list_elem_of_In, !in_flat_map. split.
  + intros (k' & Hk' & Hin). apply in_map_iff in Hin as (n' & [= -> ->] & Hn).
    apply list_elem_of_In, (elem_of_newSet _ Z_eqb_spec'), elem_of_flat_map_prs in Hn
      as (f & Hf & Hn).
    apply (proj1 (elem_of_sortFeatures Date_parse _ _)) in Hf.
    destruct (proj1 (merged_prs Date_parse (Rel.ofProject k features) n)) as (g & Hg & Hgn).
    { by exists f. }
    apply elem_of_ofProject in Hg as [Hg <-].
    exists g. split; [by apply list_elem_of_In |].
    apply in_map. by apply list_elem_of_In.
  + intros (f & Hf & Hin). apply in_map_iff in Hin as (n' & [= <- ->] & Hn).
    exists (project f). split.
    * apply list_elem_of_In, Hkeys. exists f. by rewrite list_elem_of_In.
    * apply in_map. apply list_elem_of_In, (elem_of_newSet _ Z_eqb_spec').
      apply elem_of_flat_map_prs.
      destruct (proj2 (merged_prs Date_parse (Rel.ofProject (project f) features) n))
        as (g & Hg & Hgn).
      { exists f. split; [apply elem_of_ofProject | ]; by rewrite ?list_elem_of_In. }
      exists g. split; [by apply (elem_of_sortFeatures Date_parse) | assumption].
Qed.

(** X13. Statistics of the summaries of a list of features. Each pair of a
    project and a PR number counts once in [totalPRs], however many features
    of the project name the number; [totalFeatures] does not exceed the
    number of features that went in; and [featuresByType] has an entry for
    exactly the types of the features that went in. *)
Theorem calculateStats_groupFeatures (Date_parse : string -> option Z) (features : list Feature) :
  let stats := Grouping.calculateStats (Grouping.groupFeatures Date_parse features) in
  Stats.totalPRs stats
  = size (list_to_set (flat_map (fun f => map (pair (project f)) (prs f)) features)
          : gset (string * Z))
  /\ Stats.totalFeatures stats <= length features
  /\ (features <> [] -> 0 < Stats.totalFeatures stats)
  /\ forall ty, ty ∈ map fst (Stats.featuresByType stats)
                <-> exists f, f ∈ features /\ type f = ty.
Proof.
  intros stats. unfold stats, Grouping.calculateStats.
  rewrite calculateStats_fold. simpl.
  pose proof (groupFeatures_perm Date_parse features) as Hperm.
  set (keys := JS.newSet String.eqb (map project features)) in *.
  assert (Hkeys : forall k, k ∈ keys <-> exists f, f ∈ features /\ project f = k).
  { intros k. unfold keys. rewrite (elem_of_newSet _ string_eqb_spec').
    rewrite list_elem_of_In, in_map_iff. split; intros (f & ? & ?); exists f.
    - by rewrite list_elem_of_In.
    - by rewrite <- list_elem_of_In. }
  set (sorted k := Grouping.sortFeatures Date_parse
         (Grouping.mergeSimilarFeatures Date_parse (Rel.ofProject k features)
            Grouping.defaultThreshold)).
  assert (Hall : flat_map ProjectSummary.features (Grouping.groupFeatures Date_parse features)
                 ≡ₚ flat_map sorted keys).
  { rewrite Hperm, flat_map_map. apply Permutation_refl'. apply flat_map_ext.
    intros k. apply summaryOf_fields. }
  split; [| split; [| split]].
  - apply totalPRs_counts_pairs.
  - rewrite Hall. rewrite <- (Permutation_length (groupByRepository_all features)).
    rewrite groupByRepository_groups, flat_map_map. simpl. fold keys.
    clear Hperm Hkeys Hall. induction keys as [| k rest IH]; simpl; [lia |].
    rewrite !length_app. apply Nat.add_le_mono; [| exact IH].
    unfold sorted, Grouping.sortFeatures. rewrite sort_perm.
    apply mergeSimilarFeatures_length.
  - intros Hne.
    assert (Hex : exists f0, f0 ∈ features)
      by (clear -Hne; destruct features as [| f0 ?]; [done | exists f0; left]).
    destruct Hex as [f0 Hf0].
    assert (Hs : Grouping.summaryOf Date_parse (project f0, Rel.ofProject (project f0) features)
                 ∈ Grouping.groupFeatures Date_parse features).
    { apply elem_of_groupFeatures. by exists f0. }
    destruct (flat_map ProjectSummary.features _) as [| x xs] eqn:E; [| simpl; lia].
    exfalso.
    assert (Hsorted : sorted (project f0) <> []).
    { unfold sorted. intros Hnil.
      assert (Hin : f0 ∈ Rel.ofProject (project f0) features) by (by apply elem_of_ofProject).
      assert (Hne' : Rel.ofProject (project f0) features <> [])
        by (intros E'; rewrite E' in Hin; by apply elem_of_nil in Hin).
      apply (mergeSimilarFeatures_nonempty Date_parse Grouping.defaultThreshold) in Hne'.
      destruct (Grouping.mergeSimilarFeatures _ _ _) as [| m ms] eqn:Em; [done |].
      assert (Hm : m ∈ Grouping.sortFeatures Date_parse (m :: ms))
        by (apply elem_of_sortFeatures; left).
      rewrite Hnil in Hm. by apply elem_of_nil in Hm. }
    destruct (sorted (project f0)) as [| y ys] eqn:Ey; [done |].
    assert (Hy : y ∈ flat_map ProjectSummary.features
                       (Grouping.groupFeatures Date_parse features)).
    { apply list_elem_of_In, in_flat_map. eexists. split; [apply list_elem_of_In, Hs |].
      replace (ProjectSummary.features _) with (sorted (project f0))
        by (symmetry; apply summaryOf_fields).
      rewrite Ey. by left. }
    rewrite E in Hy. by apply elem_of_nil in Hy.
  - intros ty.
    destruct (counter_fold
                (flat_map ProjectSummary.features (Grouping.groupFeatures Date_parse features))
                []) as (Hnd & Hpos & Hcount).
    transitivity (exists n, (ty, n) ∈ fold_left
      (fun byType feature => Grouping.countType byType (type feature))
      (flat_map ProjectSummary.features (Grouping.groupFeatures Date_parse features)) []).
    { rewrite list_elem_of_In, in_map_iff. split.
      - intros ([ty' n] & <- & Hin). exists n. by apply list_elem_of_In.
      - intros (n & Hin). exists (ty, n). split; [reflexivity | by apply list_elem_of_In]. }
    transitivity (exists f, f ∈ flat_map ProjectSummary.features
                                  (Grouping.groupFeatures Date_parse features)
                            /\ type f = ty).
    { split.
      - intros (n & Hin).
        apply elem_of_counter in Hin as [Hn Hc];
          [| apply Hnd; constructor | apply Hpos; constructor].
        rewrite Hcount in Hc. unfold Rel.countOf in Hc at 1. simpl in Hc.
        destruct (Rel.ofType ty _) as [| f l] eqn:E; [simpl in Hc; lia |].
        assert (Hf : f ∈ Rel.ofType ty (flat_map ProjectSummary.features
                       (Grouping.groupFeatures Date_parse features))) by (rewrite E; left).
        apply elem_of_List_filter in Hf as [Hf Ht]. apply bool_decide_eq_true in Ht.
        by exists f.
      - intros (f & Hf & Ht).
        exists (length (Rel.ofType ty (flat_map ProjectSummary.features
                          (Grouping.groupFeatures Date_parse features)))).
        apply elem_of_counter; [apply Hnd; constructor | apply Hpos; constructor |].
        rewrite Hcount. unfold Rel.countOf at 1. simpl. split; [| reflexivity].
        assert (Hin : f ∈ Rel.ofType ty (flat_map ProjectSummary.features
                            (Grouping.groupFeatures Date_parse features))).
        { apply elem_of_List_filter. split; [assumption | by apply bool_decide_eq_true]. }
        destruct (Rel.ofType ty _); [by apply elem_of_nil in Hin | simpl; lia]. }
    split.
    + intros (f & Hf & Ht). rewrite Hall in Hf.
      apply list_elem_of_In, in_flat_map in Hf as (k & Hk & Hf).
      apply list_elem_of_In in Hf. unfold sorted in Hf.
      apply (proj1 (elem_of_sortFeatures Date_parse _ _)) in Hf.
      destruct (proj1 (merged_types Date_parse (Rel.ofProject k features) ty)) as (g & Hg & Hgt).
      { by exists f. }
      apply elem_of_ofProject in Hg as [Hg _]. by exists g.
    + intros (f & Hf & Ht).
      destruct (proj2 (merged_types Date_parse (Rel.ofProject (project f) features) ty))
        as (g & Hg & Hgt).
      { exists f. split; [by apply elem_of_ofProject | assumption]. }
      exists g. split; [| assumption]. rewrite Hall.
      apply list_elem_of_In, in_flat_map. exists (project f). split.
      * apply list_elem_of_In, Hkeys. by exists f.
      * by apply list_elem_of_In, (elem_of_sortFeatures Date_parse).
Qed.

(** ** Strings, joined lists and paths *)

Lemma list_ascii_of_string_app (a b : string) :
  list_ascii_of_string (a +:+ b) = list_ascii_of_string a ++ list_ascii_of_string b.
Proof.
  induction a as [| c a IH]; [by rewrite append_nil_l |].
  rewrite append_cons. simpl. by rewrite IH.
Qed.

Lemma length_list_ascii (a : string) : length (list_ascii_of_string a) = String.length a.
Proof. induction a as [| c a IH]; simpl; [reflexivity | by rewrite IH]. Qed.

Lemma append_inj_l (a x y : string) : a +:+ x = a +:+ y -> x = y.
Proof.
  induction a as [| c a IH]; rewrite ?append_nil_l; [done |].
  rewrite !append_cons. intros [= H]. by apply IH.
Qed.

Lemma append_inj_r (x y b : string) : x +:+ b = y +:+ b -> x = y.
Proof.
  intros H. apply (f_equal list_ascii_of_string) in H.
  rewrite !list_ascii_of_string_app in H. apply app_inv_tail in H.
  apply (f_equal string_of_list_ascii) in H.
  by rewrite !string_of_list_ascii_of_string in H.
Qed.

Lemma concat_cons_more (sep a b : string) (l : list string) :
  String.concat sep (a :: b :: l) = a +:+ sep +:+ String.concat sep (b :: l).
Proof. reflexivity. Qed.

(** One element of a joined list: what is before it and after it does not
    depend on it. *)
Lemma concat_middle (sep : string) (l1 l2 : list string) :
  exists pre post, forall v,
    list_ascii_of_string (String.concat sep (l1 ++ v :: l2))
    = pre ++ list_ascii_of_string v ++ post.
Proof.
  induction l1 as [| a l1 (pre & post & IH)].
  - destruct l2 as [| b l2].
    + exists [], []. intros v. simpl. by rewrite app_nil_r.
    + exists [], (list_ascii_of_string (sep +:+ String.concat sep (b :: l2))).
      intros v. cbn [app]. by rewrite concat_cons_more, list_ascii_of_string_app.
  - exists (list_ascii_of_string a ++ list_ascii_of_string sep ++ pre), post.
    intros v. destruct l1 as [| a' l1]; cbn [app].
    + rewrite concat_cons_more, !list_ascii_of_string_app.
      specialize (IH v). cbn [app] in IH. rewrite IH. by rewrite <- !app_assoc.
    + rewrite concat_cons_more, !list_ascii_of_string_app.
      specialize (IH v). cbn [app] in IH. rewrite IH. by rewrite <- !app_assoc.
Qed.

Lemma append_snoc (cur x : string) (c : ascii) :
  (cur +:+ String c "") +:+ x = cur +:+ String c x.
Proof.
  induction cur as [| d cur IH]; rewrite ?append_cons, ?append_nil_l; [reflexivity |].
  by rewrite IH.
Qed.

Lemma splitAt_piece (sep : ascii) (x r cur : string) :
  Inv.everyChar (fun c => c <> sep) x ->
  JS.splitAt sep (x +:+ r) cur = JS.splitAt sep r (cur +:+ x).
Proof.
  revert cur. induction x as [| c x IH]; intros cur Hx.
  - rewrite append_nil_l. f_equal. clear.
    induction cur as [| d cur IH]; [reflexivity |]. by rewrite append_cons, <- IH.
  - destruct Hx as [Hc Hx]. rewrite append_cons. cbn [JS.splitAt].
    destruct (Ascii.eqb_spec c sep); [contradiction |].
    rewrite IH by assumption. by rewrite append_snoc.
Qed.


Lemma length_append (a b : string) :
  String.length (a +:+ b) = String.length a + String.length b.
Proof. by rewrite <- !length_list_ascii, list_ascii_of_string_app, length_app. Qed.

Lemma everyChar_app (P : ascii -> Prop) (a b : string) :
  Inv.everyChar P a -> Inv.everyChar P b -> Inv.everyChar P (a +:+ b).
Proof.
  induction a as [| c a IH]; rewrite ?append_nil_l; [done |].
  rewrite append_cons. simpl. tauto.
Qed.

Lemma everyChar_Forall (P : ascii -> Prop) (s : string) :
  Inv.everyChar P s <-> Forall P (list_ascii_of_string s).
Proof.
  induction s as [| c s IH]; simpl; [split; [constructor | done] |].
  rewrite Forall_cons. tauto.
Qed.

Lemma hex_no_slash (u : Hexadecimal.uint) :
  Inv.everyChar (fun c => c <> "/"%char) (HexadecimalString.NilEmpty.string_of_uint u).
Proof. induction u; simpl; (exact I || (split; [discriminate | assumption])). Qed.

Lemma splitAt_app (sep : ascii) (a b cur : string) :
  JS.splitAt sep (a +:+ String sep b) cur = JS.splitAt sep a cur ++ JS.splitAt sep b "".
Proof.
  revert cur. induction a as [| c a IH]; intros cur.
  - rewrite append_nil_l. cbn [JS.splitAt]. by rewrite Ascii.eqb_refl.
  - rewrite append_cons. cbn [JS.splitAt].
    destruct (Ascii.eqb c sep); [cbn [app]; f_equal |]; apply IH.
Qed.

Lemma split_piece (sep : ascii) (x : string) :
  Inv.everyChar (fun c => c <> sep) x -> JS.split sep x = [x].
Proof.
  intros Hx. unfold JS.split. rewrite <- (append_nil_r x) at 1.
  rewrite splitAt_piece by assumption. by rewrite append_nil_l.
Qed.

(** *** Joining a directory and a file name *)

Lemma step_ordinary (allowAboveRoot : bool) (stack : list string) (segment : string) :
  3 <= String.length segment -> Path.step allowAboveRoot stack segment = segment :: stack.
Proof.
  intros H. destruct segment as [| a [| b [| c r]]]; simpl in H; try lia.
  unfold Path.step.
  destruct (String.eqb_spec (String a (String b (String c r))) ""); [discriminate |].
  destruct (String.eqb_spec (String a (String b (String c r))) "."); [discriminate |].
  destruct (String.eqb_spec (String a (String b (String c r))) ".."); [discriminate |].
  reflexivity.
Qed.

Lemma concat_last_nonempty (sep : string) (l : list string) (v : string) :
  v <> "" -> String.concat sep (l ++ [v]) <> "".
Proof.
  intros Hv E. destruct (concat_middle sep l []) as (pre & post & Hmid).
  specialize (Hmid v). rewrite E in Hmid. simpl in Hmid.
  destruct v as [| c v]; [done |].
  symmetry in Hmid. apply app_eq_nil in Hmid as [_ Hmid]. simpl in Hmid. discriminate.
Qed.

Lemma concat_last_inj (sep : string) (l : list string) (v w : string) :
  String.concat sep (l ++ [v]) = String.concat sep (l ++ [w]) -> v = w.
Proof.
  intros E. destruct (concat_middle sep l []) as (pre & post & Hmid).
  apply (f_equal list_ascii_of_string) in E. rewrite !Hmid in E.
  apply app_inv_head, app_inv_tail in E.
  apply (f_equal string_of_list_ascii) in E.
  by rewrite !string_of_list_ascii_of_string in E.
Qed.

(** [path.join(dir, file)] for a file name that is one ordinary segment: the
    normalised segments of [dir], then [file]. *)
Lemma join_dir_file (dir file : string) :
  dir <> "" -> Inv.everyChar (fun c => c <> "/"%char) file -> 3 <= String.length file ->
  Path.join [dir; file]
  = (if Path.isAbsolute dir then "/" else "")
    +:+ String.concat "/"
          (rev (fold_left (Path.step (negb (Path.isAbsolute dir))) (JS.split "/" dir) [])
           ++ [file]).
Proof.
  intros Hdir Hfile Hlen. unfold Path.join. cbn [List.filter].
  destruct dir as [| d dir]; [done |]. clear Hdir.
  assert (Hf : Nat.ltb 0 (String.length file) = true) by (apply Nat.ltb_lt; lia).
  rewrite Hf. change (Nat.ltb 0 (String.length (String d dir))) with true. cbv iota.
  rewrite concat_cons_more. cbn [String.concat].
  set (path := String d dir +:+ "/" +:+ file).
  assert (Hpath : path = String d (dir +:+ String "/" file)).
  { unfold path. by rewrite !append_cons, append_nil_l. }
  assert (Habs : Path.isAbsolute path = Path.isAbsolute (String d dir)).
  { rewrite Hpath. unfold Path.isAbsolute, JS.startsWith. cbn [String.prefix].
    destruct (ascii_dec "/" d); [| reflexivity].
    generalize (dir +:+ String "/" file). intros rest. by destruct dir, rest. }
  assert (Htrail : Path.trailingSeparator path = false).
  { unfold Path.trailingSeparator, path.
    rewrite !list_ascii_of_string_app, !rev_app_distr.
    apply everyChar_Forall in Hfile.
    destruct (list_ascii_of_string file) as [| c l] eqn:E using rev_ind.
    - apply (f_equal length) in E. rewrite length_list_ascii in E. simpl in E. lia.
    - rewrite rev_app_distr. simpl. apply Forall_app in Hfile as [_ Hc].
      apply Forall_cons in Hc as [Hc _]. by destruct (Ascii.eqb_spec c "/"). }
  assert (Hsegs : Path.segments path
                  = rev (fold_left (Path.step (negb (Path.isAbsolute (String d dir))))
                           (JS.split "/" (String d dir)) []) ++ [file]).
  { unfold Path.segments. rewrite Habs. rewrite Hpath at 1.
    unfold JS.split. rewrite <- append_cons, splitAt_app.
    fold (JS.split "/" (String d dir)). fold (JS.split "/" file).
    rewrite (split_piece _ _ Hfile), fold_left_app. cbn [fold_left].
    by rewrite step_ordinary. }
  unfold Path.normalize. rewrite Hsegs, Habs, Htrail.
  destruct (String.eqb_spec path "") as [E | _].
  { rewrite Hpath in E. discriminate. }
  destruct (String.eqb_spec (String.concat "/" (rev (fold_left
              (Path.step (negb (Path.isAbsolute (String d dir))))
              (JS.split "/" (String d dir)) []) ++ [file])) "") as [E | _].
  { exfalso. revert E. apply concat_last_nonempty. intros ->. simpl in Hlen. lia. }
  by rewrite append_nil_r.
Qed.

Lemma join_nonempty (args : list string) : Path.join args <> "".
Proof.
  unfold Path.join. destruct (List.filter _ args) as [| p ps]; [discriminate |].
  generalize (String.concat "/" (p :: ps)). intros path. unfold Path.normalize.
  destruct (String.eqb path ""); [discriminate |].
  generalize (String.concat "/" (Path.segments path)). intros body.
  destruct (String.eqb_spec body "") as [E | Hne].
  - destruct (Path.isAbsolute path); [discriminate |].
    destruct (Path.trailingSeparator path); discriminate.
  - destruct (Path.isAbsolute path).
    + rewrite append_cons. discriminate.
    + rewrite append_nil_l. destruct body; [done |]. rewrite append_cons. discriminate.
Qed.

(** A key without [/] names one file of the cache directory, and two such
    keys name two files. *)
Lemma getCachePath_inj (homedir key1 key2 : string) :
  Inv.everyChar (fun c => c <> "/"%char) key1 ->
  Inv.everyChar (fun c => c <> "/"%char) key2 ->
  Cache.getCachePath homedir key1 = Cache.getCachePath homedir key2 -> key1 = key2.
Proof.
  intros H1 H2. unfold Cache.getCachePath.
  assert (Hfile : forall key, Inv.everyChar (fun c => c <> "/"%char) key ->
    Inv.everyChar (fun c => c <> "/"%char) (key +:+ ".json")
    /\ 3 <= String.length (key +:+ ".json")).
  { intros key Hkey. split.
    - apply everyChar_app; [assumption |]. simpl. repeat split; discriminate.
    - rewrite length_append. simpl. lia. }
  destruct (Hfile key1 H1) as [Hc1 Hl1]. destruct (Hfile key2 H2) as [Hc2 Hl2].
  rewrite !join_dir_file by (assumption || apply join_nonempty).
  intros E. apply append_inj_l, concat_last_inj in E. by apply append_inj_r in E.
Qed.

Lemma generateKey_no_slash (localeCompare : string -> string -> Z) (prefix : string)
    (params : list (string * string)) :
  Inv.everyChar (fun c => c <> "/"%char) prefix ->
  Inv.everyChar (fun c => c <> "/"%char) (Cache.generateKey localeCompare prefix params).
Proof.
  intros Hp. unfold Cache.generateKey. cbv zeta.
  apply everyChar_app; [assumption |]. apply everyChar_app; [| apply hex_no_slash].
  simpl. split; [discriminate | exact I].
Qed.

(** Without that proviso two keys can name one file: [path.join] drops a
    leading [./]. *)
Lemma getCachePath_normalises :
  Cache.generateKey (fun _ _ => 0%Z) "./prs" [("username", "ukrrdvuf")]
  <> Cache.generateKey (fun _ _ => 0%Z) "prs" [("username", "uxdnjhjk")]
  /\ Cache.getCachePath "/home/octocat"
       (Cache.generateKey (fun _ _ => 0%Z) "./prs" [("username", "ukrrdvuf")])
     = Cache.getCachePath "/home/octocat"
         (Cache.generateKey (fun _ _ => 0%Z) "prs" [("username", "uxdnjhjk")]).
Proof. split; [vm_compute; discriminate | reflexivity]. Qed.

(** ** The cache: keys, collisions, and reading back what was written *)

(** X14. Reading after writing, on an enabled cache whose write succeeds.
    A read whose key is the written key gives the written data for as long
    as the entry is at most 24 hours old, and nothing after that, whatever
    was there before. A read of another key is what it was before the write,
    where neither prefix holds a [/]: the keys are then file names, which
    [path.join] keeps apart. (The file written holds the entry: the data is
    taken to come back from its JSON text unchanged.) *)
Theorem cache_get_after_set
    (localeCompare : string -> string -> Z) (homedir : string) (T : Type)
    (fs : gmap string (option (Cache.CacheEntry T))) (t now : Z)
    (prefix1 prefix2 : string) (params1 params2 : list (string * string)) (d : T) :
  let key1 := Cache.generateKey localeCompare prefix1 params1 in
  let key2 := Cache.generateKey localeCompare prefix2 params2 in
  let read :=
    Cache.get localeCompare homedir true
      (Cache.set localeCompare homedir true fs t true prefix1 params1 d)
      now prefix2 params2 in
  (key1 = key2 -> read = if Z.leb (now - t) Cache.CACHE_TTL_MS then Some d else None)
  /\ (Inv.everyChar (fun c => c <> "/"%char) prefix1 ->
      Inv.everyChar (fun c => c <> "/"%char) prefix2 ->
      key1 <> key2 ->
      read = Cache.get localeCompare homedir true fs now prefix2 params2).
Proof.
  intros key1 key2 read. unfold read, Cache.get, Cache.set. simpl. fold key1 key2. split.
  - intros E. rewrite E, lookup_insert_eq. simpl.
    destruct (Z.leb_spec (now - t) Cache.CACHE_TTL_MS) as [Hle | Hgt].
    + by destruct (Z.ltb_spec Cache.CACHE_TTL_MS (now - t)); [lia |].
    + by destruct (Z.ltb_spec Cache.CACHE_TTL_MS (now - t)); [| lia].
  - intros H1 H2 Hne. rewrite lookup_insert_ne; [reflexivity |].
    intros H. apply Hne. revert H.
    apply getCachePath_inj; by apply generateKey_no_slash.
Qed.

Lemma cache_get_after_set_witness :
  Cache.get (fun _ _ => 0%Z) "/home/octocat" true
    (Cache.set (fun _ _ => 0%Z) "/home/octocat" true ∅ 1000%Z true
       "prs" [("username", "octocat")] 7)
    2000%Z "prs" [("username", "octocat")]
  = Some 7
  /\ Cache.get (fun _ _ => 0%Z) "/home/octocat" true
       (Cache.set (fun _ _ => 0%Z) "/home/octocat" true ∅ 1000%Z true
          "prs" [("username", "octocat")] 7)
       2000%Z "prs" [("username", "hubot")]
     = None.
Proof.
  split.
  - by rewrite (proj1 (cache_get_after_set (fun _ _ => 0%Z) "/home/octocat" nat ∅ 1000%Z
                         2000%Z "prs" "prs" [("username", "octocat")]
                         [("username", "octocat")] 7) eq_refl).
  - rewrite (proj2 (cache_get_after_set (fun _ _ => 0%Z) "/home/octocat" nat ∅ 1000%Z 2000%Z
                      "prs" "prs" [("username", "octocat")] [("username", "hubot")] 7)).
    + reflexivity.
    + simpl. repeat split; discriminate.
    + simpl. repeat split; discriminate.
    + vm_compute. discriminate.
Defined.

(** Two arrangements of the same elements, both in order, are the same
    list, where the ordering tells the elements apart. *)
Lemma sorted_perm_unique {A : Type} (R : A -> A -> Prop) (l1 l2 : list A) :
  StronglySorted R l1 -> StronglySorted R l2 -> l1 ≡ₚ l2 ->
  (forall a b, a ∈ l1 -> b ∈ l1 -> R a b -> R b a -> a = b) -> l1 = l2.
Proof.
  intros H1. revert l2. induction H1 as [| x l1 Hs IH Hx]; intros l2 H2 Hp Hanti.
  - by apply Permutation_nil in Hp.
  - destruct H2 as [| y l2 Hs2 Hy].
    { apply Permutation_sym, Permutation_nil in Hp. discriminate. }
    assert (Exy : x = y).
    { assert (Hxin : x ∈ y :: l2) by (rewrite <- Hp; left).
      assert (Hyin : y ∈ x :: l1) by (rewrite Hp; left).
      apply elem_of_cons in Hxin as [-> | Hxin]; [reflexivity |].
      pose proof Hyin as Hyin'.
      apply elem_of_cons in Hyin as [-> | Hyin]; [reflexivity |].
      apply Hanti; [left | assumption | |].
      - by apply (proj1 (Forall_forall _ _) Hx).
      - by apply (proj1 (Forall_forall _ _) Hy). }
    subst y. f_equal. apply IH; [assumption | by apply Permutation_cons_inv in Hp |].
    intros a b Ha Hb. apply Hanti; by right.
Qed.

Lemma NoDup_fst_inj {K V : Type} (l : list (K * V)) (a b : K * V) :
  NoDup (map fst l) -> a ∈ l -> b ∈ l -> fst a = fst b -> a = b.
Proof.
  induction l as [| x l IH]; simpl; intros Hnd Ha Hb E; [by apply elem_of_nil in Ha |].
  apply NoDup_cons in Hnd as [Hx Hnd].
  assert (Hfst : forall c, c ∈ l -> fst c ∈ map fst l).
  { intros c Hc. apply list_elem_of_In, in_map. by apply list_elem_of_In. }
  apply elem_of_cons in Ha as [-> | Ha]; apply elem_of_cons in Hb as [-> | Hb].
  - reflexivity.
  - exfalso. apply Hx. rewrite E. by apply Hfst.
  - exfalso. apply Hx. rewrite <- E. by apply Hfst.
  - by apply IH.
Qed.

(** X15. The cache key does not depend on the order in which the parameters
    are listed, where [localeCompare] is a consistent ordering that tells
    the parameter names apart (the names of an object are distinct). *)
Theorem generateKey_order_irrelevant
    (localeCompare : string -> string -> Z) (prefix : string)
    (params params' : list (string * string)) :
  (forall a b, 0 < localeCompare a b <-> localeCompare b a < 0)%Z ->
  (forall a b c, localeCompare a b <= 0 -> localeCompare b c <= 0 -> localeCompare a c <= 0)%Z ->
  (forall a b, a ∈ map fst params -> b ∈ map fst params -> localeCompare a b = 0%Z -> a = b) ->
  NoDup (map fst params) ->
  params' ≡ₚ params ->
  Cache.generateKey localeCompare prefix params' = Cache.generateKey localeCompare prefix params.
Proof.
  intros Hanti Htrans Hzero Hnd Hperm. unfold Cache.generateKey.
  replace (JS.sort (fun a b => Some (localeCompare (fst a) (fst b))) params')
    with (JS.sort (fun a b => Some (localeCompare (fst a) (fst b))) params); [reflexivity |].
  assert (Hsorted : forall l : list (string * string),
    StronglySorted (fun a b => (localeCompare (fst a) (fst b) <= 0)%Z)
      (JS.sort (fun a b => Some (localeCompare (fst a) (fst b))) l)).
  { intros l. apply (sort_sorted _ (fun _ => True)).
    - intros a b c. apply Htrans.
    - intros a b _ _. unfold JS.after. intros H. apply Z.ltb_lt, Hanti in H. lia.
    - intros a b _ _. unfold JS.after. intros H. by apply Z.ltb_ge in H.
    - by apply Forall_forall. }
  apply sorted_perm_unique with (R := fun a b => (localeCompare (fst a) (fst b) <= 0)%Z).
  - apply Hsorted.
  - apply Hsorted.
  - by rewrite !sort_perm.
  - intros a b Ha Hb Hab Hba. rewrite sort_perm in Ha, Hb.
    apply (NoDup_fst_inj params); [assumption .. |].
    assert (Hfst : forall c, c ∈ params -> fst c ∈ map fst params).
    { intros c Hc. apply list_elem_of_In, in_map. by apply list_elem_of_In. }
    apply Hzero; [by apply Hfst | by apply Hfst |].
    destruct (Z.eq_dec (localeCompare (fst a) (fst b)) 0%Z) as [E | Hne]; [assumption |].
    assert (Hlt : (localeCompare (fst a) (fst b) < 0)%Z) by lia.
    apply Hanti in Hlt. lia.
Qed.

Lemma generateKey_order_irrelevant_witness :
  let byLength a b := (Z.of_nat (String.length a) - Z.of_nat (String.length b))%Z in
  Cache.generateKey byLength "prs"
    [("type", "search"); ("username", "octocat"); ("since", "2024-01-01")]
  = Cache.generateKey byLength "prs"
      [("since", "2024-01-01"); ("type", "search"); ("username", "octocat")].
Proof.
  intros byLength.
  apply (generateKey_order_irrelevant byLength "prs"
           [("since", "2024-01-01"); ("type", "search"); ("username", "octocat")]
           [("type", "search"); ("username", "octocat"); ("since", "2024-01-01")]).
  - intros a b. unfold byLength. lia.
  - intros a b c. unfold byLength. lia.
  - intros a b Ha Hb. simpl in Ha, Hb. unfold byLength.
    repeat (apply elem_of_cons in Ha as [-> | Ha]); [| | | by apply elem_of_nil in Ha];
      repeat (apply elem_of_cons in Hb as [-> | Hb]); try (by apply elem_of_nil in Hb);
      simpl; (reflexivity || lia).
  - simpl. repeat constructor; rewrite ?elem_of_cons, ?elem_of_nil; intuition discriminate.
  - apply perm_trans with
      [("type", "search"); ("since", "2024-01-01"); ("username", "octocat")].
    + apply perm_skip, perm_swap.
    + apply perm_swap.
Defined.

(** *** The hash *)

Lemma toInt32_mod (n : Z) : (JS.toInt32 n mod 4294967296 = n mod 4294967296)%Z.
Proof. unfold JS.toInt32. rewrite Zminus_mod_idemp_l. f_equal. lia. Qed.

Lemma toInt32_range (n : Z) : (-2147483648 <= JS.toInt32 n < 2147483648)%Z.
Proof.
  unfold JS.toInt32. pose proof (Z.mod_pos_bound (n + 2147483648) 4294967296). lia.
Qed.

Lemma range_mod_eq (x y : Z) :
  (-2147483648 <= x < 2147483648)%Z -> (-2147483648 <= y < 2147483648)%Z ->
  (x mod 4294967296 = y mod 4294967296)%Z -> x = y.
Proof.
  intros Hx Hy E.
  assert (E' : ((x + 2147483648) mod 4294967296 = (y + 2147483648) mod 4294967296)%Z).
  { rewrite (Zplus_mod x), (Zplus_mod y), E. reflexivity. }
  rewrite !Z.mod_small in E' by lia. lia.
Qed.

Lemma mod_congr (k a b r : Z) :
  (a mod 4294967296 = b mod 4294967296)%Z ->
  ((k * a + r) mod 4294967296 = (k * b + r) mod 4294967296)%Z.
Proof.
  intros E. rewrite (Zplus_mod (k * a)), (Zplus_mod (k * b)).
  rewrite (Zmult_mod k a), (Zmult_mod k b), E. reflexivity.
Qed.

Lemma hashStep_mod (h : Z) (c : ascii) :
  (Cache.hashStep h c mod 4294967296
   = (31 * h + Z.of_nat (JS.charCode c)) mod 4294967296)%Z.
Proof.
  unfold Cache.hashStep. rewrite toInt32_mod.
  rewrite <- Zplus_mod_idemp_l, <- Zminus_mod_idemp_l, toInt32_mod.
  rewrite Zminus_mod_idemp_l, Zplus_mod_idemp_l. f_equal. lia.
Qed.

Lemma fold_hash_range (l : list ascii) (h : Z) :
  (-2147483648 <= h < 2147483648)%Z ->
  (-2147483648 <= fold_left Cache.hashStep l h < 2147483648)%Z.
Proof.
  revert h. induction l as [| c l IH]; intros h Hh; simpl; [assumption |].
  apply IH, toInt32_range.
Qed.

Lemma fold_hash_mod (l : list ascii) (h : Z) :
  (fold_left Cache.hashStep l h mod 4294967296
   = (31 ^ Z.of_nat (length l) * h + fold_left Cache.hashStep l 0) mod 4294967296)%Z.
Proof.
  revert h. induction l as [| c l IH]; intros h.
  - simpl. f_equal. lia.
  - cbn [fold_left length]. rewrite IH.
    rewrite Nat2Z.inj_succ, Z.pow_succ_r by lia.
    rewrite (mod_congr _ _ _ _ (hashStep_mod h c)).
    symmetry.
    replace (31 * 31 ^ Z.of_nat (length l) * h
             + fold_left Cache.hashStep l (Cache.hashStep 0 c))%Z
      with (1 * fold_left Cache.hashStep l (Cache.hashStep 0 c)
            + 31 * 31 ^ Z.of_nat (length l) * h)%Z by lia.
    rewrite (mod_congr _ _ _ _ (IH (Cache.hashStep 0 c))).
    replace (1 * (31 ^ Z.of_nat (length l) * Cache.hashStep 0 c + fold_left Cache.hashStep l 0)
             + 31 * 31 ^ Z.of_nat (length l) * h)%Z
      with (31 ^ Z.of_nat (length l) * Cache.hashStep 0 c
            + (fold_left Cache.hashStep l 0 + 31 * 31 ^ Z.of_nat (length l) * h))%Z by lia.
    rewrite (mod_congr _ _ _ _ (hashStep_mod 0 c)). f_equal. lia.
Qed.

Lemma hashString_app (a b : string) :
  Cache.hashString (a +:+ b)
  = fold_left Cache.hashStep (list_ascii_of_string b) (Cache.hashString a).
Proof. unfold Cache.hashString. by rewrite list_ascii_of_string_app, fold_left_app. Qed.

Lemma hashString_range (a : string) :
  (-2147483648 <= Cache.hashString a < 2147483648)%Z.
Proof. apply fold_hash_range. lia. Qed.

(** X16. The hash of the cache key is a polynomial hash with multiplier 31,
    kept in 32 bits: appending [b] to [a] multiplies the hash of [a] by 31
    once per character of [b] and adds the hash of [b], modulo 2^32, and the
    result is a signed 32-bit integer. *)
Theorem hashString_polynomial (a b : string) :
  (-2147483648 <= Cache.hashString (a +:+ b) < 2147483648)%Z
  /\ (Cache.hashString (a +:+ b) mod 2 ^ 32
      = (31 ^ Z.of_nat (String.length b) * Cache.hashString a + Cache.hashString b)
        mod 2 ^ 32)%Z.
Proof.
  split; [apply hashString_range |].
  rewrite hashString_app. change (2 ^ 32)%Z with 4294967296%Z.
  rewrite fold_hash_mod, length_list_ascii. reflexivity.
Qed.

Lemma fold_hash_replace (pre x y post : list ascii) :
  length x = length y ->
  fold_left Cache.hashStep x 0%Z = fold_left Cache.hashStep y 0%Z ->
  fold_left Cache.hashStep (pre ++ x ++ post) 0%Z
  = fold_left Cache.hashStep (pre ++ y ++ post) 0%Z.
Proof.
  intros Hlen Hhash. rewrite !fold_left_app. f_equal.
  apply range_mod_eq.
  - apply fold_hash_range, fold_hash_range. lia.
  - apply fold_hash_range, fold_hash_range. lia.
  - rewrite (fold_hash_mod x), (fold_hash_mod y), Hlen, Hhash. reflexivity.
Qed.

(** X17. Cache keys collide. Two parameter lists that, once sorted, differ
    in one value only have the same key when the two values have the same
    length and the same hash: the key holds the prefix and the hash, nothing
    else of the parameters. *)
Theorem generateKey_collision
    (localeCompare : string -> string -> Z) (prefix : string)
    (params1 params2 before after : list (string * string)) (k v1 v2 : string) :
  JS.sort (fun a b => Some (localeCompare (fst a) (fst b))) params1
    = before ++ (k, v1) :: after ->
  JS.sort (fun a b => Some (localeCompare (fst a) (fst b))) params2
    = before ++ (k, v2) :: after ->
  String.length v1 = String.length v2 ->
  Cache.hashString v1 = Cache.hashString v2 ->
  Cache.generateKey localeCompare prefix params1
  = Cache.generateKey localeCompare prefix params2.
Proof.
  intros E1 E2 Hlen Hhash. unfold Cache.generateKey. rewrite E1, E2.
  destruct (concat_middle "&"
              (map (fun kv : string * string => fst kv +:+ "=" +:+ snd kv) before)
              (map (fun kv : string * string => fst kv +:+ "=" +:+ snd kv) after))
    as (pre & post & Hmid).
  set (P := list_ascii_of_string prefix ++ list_ascii_of_string ":" ++ pre
            ++ list_ascii_of_string k ++ list_ascii_of_string "=").
  assert (H : forall v,
    Cache.hashString
      (prefix +:+ ":" +:+
       String.concat "&"
         (map (fun kv : string * string => fst kv +:+ "=" +:+ snd kv)
            (before ++ (k, v) :: after)))
    = fold_left Cache.hashStep (P ++ list_ascii_of_string v ++ post) 0%Z).
  { intros v. unfold Cache.hashString. f_equal. rewrite map_app, map_cons. cbn [fst snd].
    rewrite !list_ascii_of_string_app, Hmid, !list_ascii_of_string_app.
    unfold P. by rewrite <- !app_assoc. }
  cbv zeta. rewrite !H.
  rewrite (fold_hash_replace P (list_ascii_of_string v1) (list_ascii_of_string v2) post);
    [reflexivity | by rewrite !length_list_ascii | exact Hhash].
Qed.

Lemma generateKey_collision_witness :
  Cache.generateKey (fun _ _ => 0%Z) "prs"
    [("username", "Aa"); ("since", "2024-01-01"); ("until", "2024-03-31"); ("type", "search")]
  = Cache.generateKey (fun _ _ => 0%Z) "prs"
      [("username", "BB"); ("since", "2024-01-01"); ("until", "2024-03-31"); ("type", "search")].
Proof.
  apply (generateKey_collision (fun _ _ => 0%Z) "prs" _ _ []
           [("since", "2024-01-01"); ("until", "2024-03-31"); ("type", "search")]
           "username" "Aa" "BB"); reflexivity.
Defined.

(** ** Configuration *)

Lemma trimStart_head (s : string) :
  match JS.trimStart s with
  | EmptyString => True
  | String c _ => JS.isSpace c = false
  end.
Proof.
  induction s as [| c r IH]; simpl; [exact I |].
  destruct (JS.isSpace c) eqn:E; [exact IH | exact E].
Qed.

Lemma trimEnd_idem (s : string) : JS.trimEnd (JS.trimEnd s) = JS.trimEnd s.
Proof.
  induction s as [| c r IH]; [reflexivity |]. simpl.
  destruct (JS.isSpace c && String.eqb (JS.trimEnd r) "") eqn:E; [reflexivity |].
  simpl. by rewrite IH, E.
Qed.

Lemma trim_idem (s : string) : JS.trim (JS.trim s) = JS.trim s.
Proof.
  unfold JS.trim. pose proof (trimStart_head s) as H.
  destruct (JS.trimStart s) as [| c r]; [reflexivity |].
  assert (E : JS.trimEnd (String c r) = String c (JS.trimEnd r)) by (simpl; by rewrite H).
  rewrite E. cbn [JS.trimStart]. rewrite H, <- E. apply trimEnd_idem.
Qed.

Lemma requireEnv_ok (env : string -> option string) (name value : string) :
  Config.requireEnv env name = inr value ->
  value <> "" /\ JS.trim value = value /\ Config.unset env name = false.
Proof.
  unfold Config.requireEnv, Config.unset. destruct (env name) as [v |]; [| done].
  destruct (String.eqb_spec v "") as [-> | Hv]; [done |]. simpl.
  destruct (String.eqb_spec (JS.trim v) "") as [E | Ht]; [done |].
  intros [= <-]. split; [assumption |]. split; [apply trim_idem | reflexivity].
Qed.

(** X18. A configuration that [loadConfig] returns has a token and a key
    that are not empty and carry no white space at either end, and a model
    name that is not empty; and whenever [loadConfig] returns one,
    [validateConfig] accepts the same environment. *)
Theorem loadConfig_sound (env : string -> option string) (cfg : Config.Config) :
  Config.loadConfig env = inr cfg ->
  Config.githubToken cfg <> "" /\ JS.trim (Config.githubToken cfg) = Config.githubToken cfg
  /\ Config.llmApiKey cfg <> "" /\ JS.trim (Config.llmApiKey cfg) = Config.llmApiKey cfg
  /\ Config.llmModel cfg <> ""
  /\ Config.validateConfig env = inr tt.
Proof.
  unfold Config.loadConfig, Config.validateConfig.
  destruct (Config.requireEnv env "GITHUB_TOKEN") as [e | g] eqn:Eg; [done |].
  destruct (Config.requireEnv env "LLM_API_KEY") as [e | k] eqn:Ek; [done |].
  intros [= <-]. simpl.
  apply requireEnv_ok in Eg as (Hg1 & Hg2 & Hg3).
  apply requireEnv_ok in Ek as (Hk1 & Hk2 & Hk3).
  rewrite Hg3, Hk3. simpl. repeat split; try assumption.
  unfold Config.optionalEnv. destruct (env "LLM_MODEL") as [m |]; [| done].
  by destruct (String.eqb_spec (JS.trim m) "").
Qed.

Lemma loadConfig_sound_witness :
  Config.validateConfig
    (fun name => if String.eqb name "LLM_MODEL" then None else Some "  secret ") = inr tt.
Proof.
  apply (loadConfig_sound _ (Config.mkConfig "secret" "secret" Config.defaultModel)).
  reflexivity.
Defined.

(** X19. [validateConfig] is the weaker check: a required variable that is
    set to white space only passes it, and [loadConfig] then throws. *)
Theorem validateConfig_accepts_blank (env : string -> option string) (token key : string) :
  env "GITHUB_TOKEN" = Some token -> env "LLM_API_KEY" = Some key ->
  token <> "" -> key <> "" -> JS.trim token = "" ->
  Config.validateConfig env = inr tt
  /\ exists message, Config.loadConfig env = inl message.
Proof.
  intros Ht Hk Hne Hkne Hblank. split.
  - unfold Config.validateConfig, Config.unset. rewrite Ht, Hk.
    destruct (String.eqb_spec token ""); [done |].
    by destruct (String.eqb_spec key "").
  - unfold Config.loadConfig, Config.requireEnv. rewrite Ht, Hblank.
    destruct (String.eqb token ""); simpl; by eexists.
Qed.

Lemma validateConfig_accepts_blank_witness :
  Config.validateConfig Ex.blankToken = inr tt
  /\ exists message, Config.loadConfig Ex.blankToken = inl message.
Proof.
  apply (validateConfig_accepts_blank Ex.blankToken " " "key"); (reflexivity || discriminate).
Defined.

(** ** Requests: how many attempts, and what comes back *)

Section RequestOutcome.
Variable Date_now : nat -> Z.
Variable fetch : nat -> string -> Request.RequestInit -> Request.Response.
Variable options : Request.RequestInit.
Variable endpoint : string.

Local Abbreviation resp st i :=
  (fetch (Request.fetches st + i) (Request.fullUrl endpoint) options).

Lemma requestCount_rateLimit (st : Request.State) :
  Request.requestCount (Request.rateLimit Date_now st) = S (Request.requestCount st).
Proof.
  unfold Request.rateLimit, Request.readClock. cbn [Request.lastRequestTime].
  destruct (Z.ltb _ _); reflexivity.
Qed.

Lemma requestCount_afterFetch (st : Request.State) :
  Request.requestCount (Request.afterFetch Date_now fetch endpoint options st)
  = S (Request.requestCount st).
Proof.
  unfold Request.afterFetch, Request.doFetch. cbn [snd Request.requestCount].
  by rewrite requestCount_rateLimit.
Qed.

Lemma requestCount_afterBackoff (st : Request.State) :
  Request.requestCount (Request.afterBackoff Date_now fetch endpoint options st)
  = S (Request.requestCount st).
Proof.
  unfold Request.afterBackoff. cbv zeta. unfold Request.backoff.
  destruct (Request.truthy _);
    cbn [fst snd Request.sleep Request.readClock Request.requestCount];
    apply requestCount_afterFetch.
Qed.

Lemma received_resp (st : Request.State) :
  Request.received Date_now fetch endpoint options st = resp st 0.
Proof.
  unfold Request.received, Request.doFetch. cbn [fst].
  by rewrite fetches_rateLimit, Nat.add_0_r.
Qed.

Lemma requestGo_outcome (fuel retryCount : nat) (st : Request.State) :
  retryCount <= 3 -> 3 - retryCount < fuel ->
  exists out st' n,
    Request.requestGo Date_now fetch fuel endpoint options retryCount st = Some (out, st')
    /\ Request.fetches st' = Request.fetches st + n
    /\ Request.requestCount st' = Request.requestCount st + n
    /\ 1 <= n <= 4 - retryCount
    /\ (forall i, i + 1 < n -> Request.throttled (resp st i) = true)
    /\ out = (let r := resp st (n - 1) in
              if Request.throttled r
              then Request.Thrown
                     (Request.mkError Request.rateLimitMessage (Request.status r) endpoint)
              else if negb (Request.ok r)
              then Request.Thrown (Request.apiError endpoint r)
              else Request.Returned (Request.payload r) (Request.headerLink r))
    /\ (Request.throttled (resp st (n - 1)) = true -> n = 4 - retryCount).
Proof.
  revert retryCount st. induction fuel as [| fuel IH]; intros rc st Hrc Hf; [lia |].
  rewrite requestGo_step. cbv zeta. rewrite received_resp.
  destruct (Request.throttled (resp st 0)) eqn:Ethr.
  - destruct (Nat.leb_spec 3 rc) as [Hge | Hlt].
    + eexists _, _, 1. split; [reflexivity |].
      rewrite fetches_afterFetch, requestCount_afterFetch.
      split; [lia |]. split; [lia |]. split; [lia |]. split; [intros i Hi; lia |].
      cbn [Nat.sub]. cbv zeta. rewrite Ethr. split; [reflexivity | lia].
    + destruct (IH (S rc) (Request.afterBackoff Date_now fetch endpoint options st))
        as (out & st' & n & Hrun & Hfetches & Hcount & Hn & Hearlier & Hout & Hlast);
        [lia | lia |].
      rewrite fetches_afterBackoff in Hfetches, Hearlier, Hout, Hlast.
      rewrite requestCount_afterBackoff in Hcount.
      exists out, st', (S n). split; [exact Hrun |].
      split; [lia |]. split; [lia |]. split; [lia |].
      assert (Hshift : forall i,
        fetch (S (Request.fetches st) + i) (Request.fullUrl endpoint) options = resp st (S i)).
      { intros i. f_equal. lia. }
      split; [| split].
      * intros [| i] Hi; [exact Ethr |]. rewrite <- Hshift. apply Hearlier. lia.
      * replace (S n - 1) with (S (n - 1)) by lia. rewrite <- Hshift. exact Hout.
      * replace (S n - 1) with (S (n - 1)) by lia. rewrite <- Hshift.
        intros H. apply Hlast in H. lia.
  - destruct (negb (Request.ok (resp st 0))) eqn:Eok.
    + eexists _, _, 1. split; [reflexivity |].
      rewrite fetches_afterFetch, requestCount_afterFetch.
      split; [lia |]. split; [lia |]. split; [lia |]. split; [intros i Hi; lia |].
      cbn [Nat.sub]. cbv zeta. rewrite Ethr, Eok. split; [reflexivity | discriminate].
    + eexists _, _, 1. split; [reflexivity |].
      rewrite fetches_afterFetch, requestCount_afterFetch.
      split; [lia |]. split; [lia |]. split; [lia |]. split; [intros i Hi; lia |].
      cbn [Nat.sub]. cbv zeta. rewrite Ethr, Eok. split; [reflexivity | discriminate].
Qed.

End RequestOutcome.

(** *** With the failures of the transport *)

Section WireOutcome.
Variable Date_now : nat -> Z.
Variable fetchWire : nat -> string -> Request.RequestInit -> Request.Settled.
Variable options : Request.RequestInit.
Variable endpoint : string.

Local Abbreviation settled st i :=
  (fetchWire (Request.fetches st + i) (Request.fullUrl endpoint) options).

Lemma counts_backoff (r : Request.Response) (st : Request.State) :
  Request.fetches (snd (Request.backoff Date_now r st)) = Request.fetches st
  /\ Request.requestCount (snd (Request.backoff Date_now r st)) = Request.requestCount st.
Proof. unfold Request.backoff. by destruct (Request.truthy _). Qed.

Lemma requestGoWire_outcome (fuel retryCount : nat) (st : Request.State) :
  retryCount <= 3 -> 3 - retryCount < fuel ->
  exists out st' n,
    Request.requestGoWire Date_now fetchWire fuel endpoint options retryCount st
      = Some (out, st')
    /\ Request.fetches st' = Request.fetches st + n
    /\ Request.requestCount st' = Request.requestCount st + n
    /\ 1 <= n <= 4 - retryCount
    /\ (forall i, i + 1 < n -> Request.isThrottled (settled st i) = true)
    /\ out = Request.completion endpoint (settled st (n - 1))
    /\ (Request.isThrottled (settled st (n - 1)) = true -> n = 4 - retryCount).
Proof.
  revert retryCount st. induction fuel as [| fuel IH]; intros rc st Hrc Hf; [lia |].
  cbn [Request.requestGoWire]. unfold Request.doFetchWire.
  rewrite fetches_rateLimit.
  set (st1 := Request.mkState _ _ _ _ _).
  assert (Hf1 : Request.fetches st1 = S (Request.fetches st))
    by (unfold st1; cbn [Request.fetches]; by rewrite ?fetches_rateLimit).
  assert (Hc1 : Request.requestCount st1 = S (Request.requestCount st))
    by (unfold st1; cbn [Request.requestCount]; apply requestCount_rateLimit).
  assert (H0 : fetchWire (Request.fetches st) (Request.fullUrl endpoint) options
               = settled st 0) by (by rewrite Nat.add_0_r).
  rewrite H0.
  assert (Hone : forall out,
    out = Request.completion endpoint (settled st 0) ->
    Request.isThrottled (settled st 0) = true -> 3 <= rc ->
    exists out' st' n,
      Some (out, st1) = Some (out', st')
      /\ Request.fetches st' = Request.fetches st + n
      /\ Request.requestCount st' = Request.requestCount st + n
      /\ 1 <= n <= 4 - rc
      /\ (forall i, i + 1 < n -> Request.isThrottled (settled st i) = true)
      /\ out' = Request.completion endpoint (settled st (n - 1))
      /\ (Request.isThrottled (settled st (n - 1)) = true -> n = 4 - rc)).
  { intros out Hout _ Hge. exists out, st1, 1. split; [reflexivity |].
    split; [lia |]. split; [lia |]. split; [lia |]. split; [intros i Hi; lia |].
    cbn [Nat.sub]. split; [exact Hout | lia]. }
  assert (Hlast : forall out,
    out = Request.completion endpoint (settled st 0) ->
    Request.isThrottled (settled st 0) = false ->
    exists out' st' n,
      Some (out, st1) = Some (out', st')
      /\ Request.fetches st' = Request.fetches st + n
      /\ Request.requestCount st' = Request.requestCount st + n
      /\ 1 <= n <= 4 - rc
      /\ (forall i, i + 1 < n -> Request.isThrottled (settled st i) = true)
      /\ out' = Request.completion endpoint (settled st (n - 1))
      /\ (Request.isThrottled (settled st (n - 1)) = true -> n = 4 - rc)).
  { intros out Hout Hnot. exists out, st1, 1. split; [reflexivity |].
    split; [lia |]. split; [lia |]. split; [lia |]. split; [intros i Hi; lia |].
    cbn [Nat.sub]. split; [exact Hout |]. rewrite Hnot. discriminate. }
  destruct (settled st 0) as [response json | reason] eqn:Es.
  - destruct (Request.throttled response) eqn:Ethr.
    + destruct (Nat.leb_spec 3 rc) as [Hge | Hlt].
      * apply Hone; [| | assumption]; cbn [Request.completion Request.isThrottled];
          by rewrite Ethr.
      * destruct (Request.backoff Date_now response st1) as [wait st2] eqn:Eb.
        pose proof (counts_backoff response st1) as [Hbf Hbc]. rewrite Eb in Hbf, Hbc.
        cbn [snd] in Hbf, Hbc.
        destruct (IH (S rc) (Request.sleep wait st2))
          as (out & st' & n & Hrun & Hfetches & Hcount & Hn & Hearlier & Hout & Hend);
          [lia | lia |].
        cbn [Request.sleep Request.fetches Request.requestCount] in Hfetches, Hcount,
          Hearlier, Hout, Hend.
        rewrite Hbf, Hf1 in Hfetches, Hearlier, Hout, Hend. rewrite Hbc, Hc1 in Hcount.
        exists out, st', (S n). split; [exact Hrun |].
        split; [lia |]. split; [lia |]. split; [lia |].
        assert (Hshift : forall i,
          fetchWire (S (Request.fetches st) + i) (Request.fullUrl endpoint) options
          = settled st (S i)) by (intros i; f_equal; lia).
        split; [| split].
        -- intros [| i] Hi; [by rewrite Es |]. rewrite <- Hshift. apply Hearlier. lia.
        -- replace (S n - 1) with (S (n - 1)) by lia. by rewrite <- Hshift.
        -- replace (S n - 1) with (S (n - 1)) by lia. rewrite <- Hshift.
           intros H. apply Hend in H. lia.
    + destruct (negb (Request.ok response)) eqn:Eok.
      * apply Hlast; cbn [Request.completion Request.isThrottled]; by rewrite Ethr, ?Eok.
      * destruct json; apply Hlast; cbn [Request.completion Request.isThrottled];
          by rewrite Ethr, ?Eok.
  - apply Hlast; reflexivity.
Qed.

(** Where every [fetch] resolves with a body that is JSON, the call is the
    [request] of the sections above. *)
Lemma requestGoWire_resolved
    (fetch : nat -> string -> Request.RequestInit -> Request.Response)
    (fuel retryCount : nat) (st : Request.State) :
  (forall k url o, fetchWire k url o = Request.Resolved (fetch k url o) true) ->
  Request.requestGoWire Date_now fetchWire fuel endpoint options retryCount st
  = (fun r => (Request.Completed (fst r), snd r))
      <$> Request.requestGo Date_now fetch fuel endpoint options retryCount st.
Proof.
  intros Hall. revert retryCount st. induction fuel as [| fuel IH]; intros rc st;
    [reflexivity |].
  cbn [Request.requestGoWire Request.requestGo].
  unfold Request.doFetchWire, Request.doFetch. rewrite Hall.
  destruct (Request.throttled _).
  - destruct (Nat.leb 3 rc); [reflexivity |].
    destruct (Request.backoff Date_now _ _) as [wait st2]. apply IH.
  - by destruct (negb (Request.ok _)).
Qed.

End WireOutcome.

(** X20. What a fresh [request] does, for every clock and every way the
    [fetch]es settle: it ends after [n] calls of [fetch], all to the same
    URL, with [1 <= n <= 4]; the calls before the last all resolved with a
    throttled response; the settlement of the last call decides the outcome
    (the rejection of [fetch] passed on; the rate-limit error for a
    throttled response, which takes four calls; the API error for a response
    that is not [ok]; the [SyntaxError] of a successful body that is not
    JSON; the payload and the [Link] header otherwise); and [requestCount]
    has grown by [n]. *)
Theorem request_outcome
    (Date_now : nat -> Z)
    (fetchWire : nat -> string -> Request.RequestInit -> Request.Settled)
    (endpoint : string) (options : Request.RequestInit) (st : Request.State) :
  let settled i := fetchWire (Request.fetches st + i) (Request.fullUrl endpoint) options in
  exists out st' n,
    Request.requestWire Date_now fetchWire endpoint options 0 st = Some (out, st')
    /\ Request.fetches st' = Request.fetches st + n
    /\ Request.requestCount st' = Request.requestCount st + n
    /\ 1 <= n <= 4
    /\ (forall i, i + 1 < n -> exists response bodyIsJson,
           settled i = Request.Resolved response bodyIsJson
           /\ Request.throttled response = true)
    /\ out = match settled (n - 1) with
             | Request.Rejected reason => Request.Raised (Request.FetchRejected reason)
             | Request.Resolved response bodyIsJson =>
                 if Request.throttled response
                 then Request.Completed
                        (Request.Thrown
                           (Request.mkError Request.rateLimitMessage
                              (Request.status response) endpoint))
                 else if negb (Request.ok response)
                 then Request.Completed
                        (Request.Thrown (Request.apiError endpoint response))
                 else if bodyIsJson
                 then Request.Completed
                        (Request.Returned (Request.payload response)
                           (Request.headerLink response))
                 else Request.Raised Request.BodyNotJson
             end
    /\ (Request.isThrottled (settled (n - 1)) = true -> n = 4).
Proof.
  intros settled. unfold Request.requestWire.
  destruct (requestGoWire_outcome Date_now fetchWire options endpoint (S (3 - 0)) 0 st)
    as (out & st' & n & Hrun & Hf & Hc & Hn & Hearlier & Hout & Hend); [lia | lia |].
  exists out, st', n. split; [exact Hrun |]. split; [exact Hf |]. split; [exact Hc |].
  split; [lia |]. split; [| split; [exact Hout | exact Hend]].
  intros i Hi. specialize (Hearlier i Hi). unfold settled.
  destruct (fetchWire _ _ _) as [response json | reason]; [| discriminate].
  by exists response, json.
Qed.

(** ** The date window in a zone at a fixed offset *)

(** X21. In a time zone at a fixed offset from UTC, with three valid dates,
    [isDateInRange] holds exactly from [since] up to, and not including,
    the first local midnight after the instant [until]; that midnight is
    later than [until] by at most a day. *)
Theorem isDateInRange_fixed_zone
    (Date_parse : string -> option Z) (offsetMinutes : Z)
    (dateStr since until : string) (d s u : Z) :
  Date_parse dateStr = Some d -> Date_parse since = Some s -> Date_parse until = Some u ->
  let midnight :=
    (((u + offsetMinutes * 60000) / DateTime.msPerDay + 1) * DateTime.msPerDay
     - offsetMinutes * 60000)%Z in
  (Client.isDateInRange Date_parse
     (DateTime.fixedLocalTime offsetMinutes) (DateTime.fixedUTC offsetMinutes)
     dateStr since until = true
   <-> (s <= d < midnight)%Z)
  /\ (u < midnight <= u + DateTime.msPerDay)%Z.
Proof.
  intros Hd Hs Hu midnight. split.
  - rewrite isDateInRange_iff. unfold DateTime.fixedLocalTime, DateTime.fixedUTC.
    split.
    + intros (d' & s' & u' & Hd' & Hs' & Hu' & Hle & Hend).
      rewrite Hd in Hd'. rewrite Hs in Hs'. rewrite Hu in Hu'.
      injection Hd' as <-. injection Hs' as <-. injection Hu' as <-.
      unfold midnight, DateTime.msPerDay, DateTime.endOfDayTime in *. lia.
    + intros [Hle Hlt]. exists d, s, u. repeat split; try assumption.
      unfold midnight, DateTime.msPerDay, DateTime.endOfDayTime in *. lia.
  - unfold midnight, DateTime.msPerDay.
    pose proof (Z.mod_pos_bound (u + offsetMinutes * 60000) 86400000 ltac:(lia)) as Hb.
    pose proof (Z.div_mod (u + offsetMinutes * 60000) 86400000 ltac:(lia)) as Hdm.
    lia.
Qed.

Lemma isDateInRange_fixed_zone_witness :
  Client.isDateInRange DateTime.parseISO
    (DateTime.fixedLocalTime 330) (DateTime.fixedUTC 330)
    "2024-03-15T18:29:59Z" "2024-03-01" "2024-03-15" = true.
Proof.
  apply (isDateInRange_fixed_zone DateTime.parseISO 330
           "2024-03-15T18:29:59Z" "2024-03-01" "2024-03-15"
           1710527399000 1709251200000 1710460800000);
    [reflexivity | reflexivity | reflexivity | vm_compute; split; [discriminate | reflexivity]].
Defined.

(** ** The scan of one repository *)

Section ScanFacts.
Variable Date_parse : string -> option Z.
Variables LocalTime UTC : Z -> Z.
Variable fetchPRCommits : string -> Z -> list Commit.
Variables username repo since until : string.
Variable fetchCommits : bool.

Local Abbreviation scan :=
  (Client.scanPulls Date_parse LocalTime UTC fetchPRCommits username repo since until
     fetchCommits).
Local Abbreviation stale := (Rel.stale Date_parse username since).
Local Abbreviation wanted := (Rel.wanted Date_parse LocalTime UTC username since until).

(** What one pull request of the listing contributes. *)
Local Abbreviation reported pr :=
  (if wanted pr
   then [Client.toPullRequest fetchPRCommits repo fetchCommits pr
           (default "" (GitHubPullRequest.merged_at pr))]
   else []).

Lemma before_since_out_of_range (merged : string) :
  JS.lt (Date_parse merged) (Date_parse since) = true ->
  Client.isDateInRange Date_parse LocalTime UTC merged since until = false.
Proof.
  unfold Client.isDateInRange, JS.ge, JS.le, JS.lt.
  destruct (Date_parse merged) as [m |], (Date_parse since) as [s |]; try discriminate.
  intros H. apply Z.ltb_lt in H.
  destruct (Z.leb_spec s m); [lia | reflexivity].
Qed.

Lemma scan_cons (pr : GitHubPullRequest.t) (rest : list GitHubPullRequest.t) :
  scan (pr :: rest) = if stale pr then [] else reported pr ++ scan rest.
Proof.
  unfold Rel.stale, Rel.wanted. cbn [Client.scanPulls].
  destruct (GitHubPullRequest.merged_at pr) as [merged |]; [| reflexivity].
  destruct (String.eqb merged ""); [reflexivity |].
  destruct (String.eqb _ (JS.toLowerCase username)); [| reflexivity].
  cbn [negb andb].
  destruct (JS.lt (Date_parse merged) (Date_parse since)) eqn:Elt.
  - by rewrite (before_since_out_of_range merged Elt).
  - destruct (Client.isDateInRange _ _ _ merged since until); [| reflexivity].
    cbn [negb andb]. by destruct (Client.isAllowedBaseBranch _).
Qed.

Lemma scan_fresh (before after : list GitHubPullRequest.t) :
  Forall (fun pr => stale pr = false) before ->
  scan (before ++ after) = flat_map (fun pr => reported pr) before ++ scan after.
Proof.
  induction 1 as [| pr before Hpr Hbefore IH]; [reflexivity |].
  cbn [app flat_map]. rewrite scan_cons, Hpr, IH. by rewrite app_assoc.
Qed.

Lemma scan_sound (allPRs : list GitHubPullRequest.t) :
  Forall (fun p =>
    exists pr merged,
      pr ∈ allPRs /\ GitHubPullRequest.merged_at pr = Some merged /\ wanted pr = true
      /\ p = Client.toPullRequest fetchPRCommits repo fetchCommits pr merged)
    (scan allPRs)
  /\ map number (scan allPRs) `sublist_of` map GitHubPullRequest.number allPRs.
Proof.
  induction allPRs as [| pr rest [IH1 IH2]]; [split; [constructor | reflexivity] |].
  rewrite scan_cons. destruct (stale pr).
  { split; [constructor | apply sublist_nil_l]. }
  assert (Hrest : Forall (fun p =>
    exists pr' merged,
      pr' ∈ pr :: rest /\ GitHubPullRequest.merged_at pr' = Some merged /\ wanted pr' = true
      /\ p = Client.toPullRequest fetchPRCommits repo fetchCommits pr' merged) (scan rest)).
  { eapply Forall_impl; [exact IH1 |]. intros p (pr' & merged & Hin & ? & ? & ?).
    exists pr', merged. split; [by right | done]. }
  destruct (wanted pr) eqn:Ew; cbn [app map].
  - split; [| by apply sublist_skip].
    constructor; [| exact Hrest].
    unfold Rel.wanted in Ew.
    destruct (GitHubPullRequest.merged_at pr) as [merged |] eqn:Em; [| discriminate].
    exists pr, merged. split; [left |]. split; [assumption |].
    split; [unfold Rel.wanted; by rewrite Em | reflexivity].
  - split; [exact Hrest | by apply sublist_cons].
Qed.

End ScanFacts.

(** X22. Every pull request that the scan of a repository reports comes from
    one of the listing that was merged, was opened by the user (their login
    compared without regard to case), was merged within the window and into
    an allowed base branch; it carries the repository that was scanned; and
    the reports follow the order of the listing, each pull request of the
    listing reported at most once. *)
Theorem scanPulls_sound
    (Date_parse : string -> option Z) (LocalTime UTC : Z -> Z)
    (fetchPRCommits : string -> Z -> list Commit)
    (username repo since until : string) (fetchCommits : bool)
    (allPRs : list GitHubPullRequest.t) :
  let result :=
    Client.scanPulls Date_parse LocalTime UTC fetchPRCommits username repo since until
      fetchCommits allPRs in
  Forall (fun p =>
    repoFullName p = repo
    /\ Client.isAllowedBaseBranch (baseBranch p) = true
    /\ Client.isDateInRange Date_parse LocalTime UTC (mergedAt p) since until = true
    /\ exists pr,
         pr ∈ allPRs
         /\ GitHubPullRequest.number pr = number p
         /\ GitHubPullRequest.merged_at pr = Some (mergedAt p)
         /\ JS.toLowerCase (GitHubPullRequest.user_login pr) = JS.toLowerCase username)
    result
  /\ map number result `sublist_of` map GitHubPullRequest.number allPRs.
Proof.
  intros result.
  destruct (scan_sound Date_parse LocalTime UTC fetchPRCommits username repo since until
              fetchCommits allPRs) as [H1 H2].
  split; [| exact H2].
  eapply Forall_impl; [exact H1 |].
  intros p (pr & merged & Hin & Em & Ew & ->). unfold Rel.wanted in Ew. rewrite Em in Ew.
  apply andb_true_iff in Ew as [Ew Hbase]. apply andb_true_iff in Ew as [Ew Hrange].
  apply andb_true_iff in Ew as [_ Hlogin]. apply String.eqb_eq in Hlogin.
  cbn [Client.toPullRequest repoFullName baseBranch mergedAt number].
  split; [reflexivity |]. split; [assumption |]. split; [assumption |].
  by exists pr.
Qed.

(** X23. The scan stops at the first pull request of the listing that the
    user merged before [since]. Of the pull requests before that one, all
    that are wanted are reported; of those after it none is, wanted or not. *)
Theorem scanPulls_until_stale
    (Date_parse : string -> option Z) (LocalTime UTC : Z -> Z)
    (fetchPRCommits : string -> Z -> list Commit)
    (username repo since until : string) (fetchCommits : bool)
    (before after : list GitHubPullRequest.t) (pr : GitHubPullRequest.t) :
  Forall (fun x => Rel.stale Date_parse username since x = false) before ->
  Rel.stale Date_parse username since pr = true ->
  Client.scanPulls Date_parse LocalTime UTC fetchPRCommits username repo since until
    fetchCommits (before ++ pr :: after)
  = flat_map
      (fun x =>
         if Rel.wanted Date_parse LocalTime UTC username since until x
         then [Client.toPullRequest fetchPRCommits repo fetchCommits x
                 (default "" (GitHubPullRequest.merged_at x))]
         else [])
      before.
Proof.
  intros Hbefore Hpr. rewrite scan_fresh by assumption.
  by rewrite scan_cons, Hpr, app_nil_r.
Qed.

Lemma scanPulls_until_stale_witness :
  map number
    (Client.scanPulls DateTime.parseISO (DateTime.fixedLocalTime 0) (DateTime.fixedUTC 0)
       (fun _ _ => []) "octocat" "a/b" "2024-01-01" "2024-03-31" false
       ([Ex.gh9] ++ Ex.gh3 :: [Ex.gh8]))
  = [9%Z].
Proof.
  rewrite (scanPulls_until_stale DateTime.parseISO
             (DateTime.fixedLocalTime 0) (DateTime.fixedUTC 0) (fun _ _ => [])
             "octocat" "a/b" "2024-01-01" "2024-03-31" false [Ex.gh9] [Ex.gh8] Ex.gh3).
  - reflexivity.
  - repeat constructor.
  - reflexivity.
Defined.

(** X24. Where the user merged nothing of the listing before [since], the
    scan is complete: it reports exactly the wanted pull requests of the
    listing, in the order of the listing. *)
Theorem scanPulls_complete
    (Date_parse : string -> option Z) (LocalTime UTC : Z -> Z)
    (fetchPRCommits : string -> Z -> list Commit)
    (username repo since until : string) (fetchCommits : bool)
    (allPRs : list GitHubPullRequest.t) :
  Forall (fun x => Rel.stale Date_parse username since x = false) allPRs ->
  map number
    (Client.scanPulls Date_parse LocalTime UTC fetchPRCommits username repo since until
       fetchCommits allPRs)
  = map GitHubPullRequest.number
      (List.filter (Rel.wanted Date_parse LocalTime UTC username since until) allPRs).
Proof.
  intros Hfresh. rewrite <- (app_nil_r allPRs) at 1. rewrite scan_fresh by assumption.
  cbn [Client.scanPulls]. rewrite app_nil_r. clear Hfresh.
  induction allPRs as [| pr rest IH]; [reflexivity |].
  cbn [flat_map List.filter].
  destruct (Rel.wanted _ _ _ _ _ _ pr); cbn [app map]; by rewrite IH.
Qed.

Lemma scanPulls_complete_witness :
  map number
    (Client.scanPulls DateTime.parseISO (DateTime.fixedLocalTime 0) (DateTime.fixedUTC 0)
       (fun _ _ => []) "octocat" "a/b" "2024-01-01" "2024-03-31" false [Ex.gh9; Ex.gh8])
  = [9%Z; 8%Z].
Proof.
  rewrite (scanPulls_complete DateTime.parseISO
             (DateTime.fixedLocalTime 0) (DateTime.fixedUTC 0) (fun _ _ => [])
             "octocat" "a/b" "2024-01-01" "2024-03-31" false [Ex.gh9; Ex.gh8]).
  - reflexivity.
  - repeat constructor.
Defined.

(** ** Discovery, end to end *)

Lemma listMergedPRs_own
    (Date_parse : string -> option Z) (LocalTime UTC : Z -> Z)
    (fetchPRCommits : string -> Z -> list Commit)
    (closedPulls : string -> option (list GitHubPullRequest.t))
    (viaSearch : string -> string -> string -> string -> bool -> option (list PullRequest))
    (username repo since until : string) (fetchCommits : bool) (found : list PullRequest) :
  (forall found',
     viaSearch username repo since until fetchCommits = Some found' ->
     Forall (fun p => repoFullName p = repo) found') ->
  Client.listMergedPRs Date_parse LocalTime UTC fetchPRCommits closedPulls viaSearch
    username repo since until fetchCommits = Some found ->
  Forall (fun p => repoFullName p = repo) found.
Proof.
  intros Hvia. unfold Client.listMergedPRs.
  destruct (closedPulls repo) as [allPRs |]; [| apply Hvia].
  intros [= <-].
  destruct (scan_sound Date_parse LocalTime UTC fetchPRCommits username repo since until
              fetchCommits allPRs) as [H _].
  eapply Forall_impl; [exact H |]. by intros p (pr & merged & _ & _ & _ & ->).
Qed.

Lemma elem_of_dedupAndSort (Date_parse : string -> option Z)
    (allPRs : list PullRequest) (p : PullRequest) :
  p ∈ Client.dedupAndSort Date_parse allPRs -> p ∈ allPRs.
Proof.
  rewrite dedupAndSort_perm. intros H.
  apply keepFirst_first in H as (_ & l1 & l2 & -> & _).
  apply elem_of_app. right. left.
Qed.

Lemma includes_true (x : string) (l : list string) : JS.includes x l = true <-> x ∈ l.
Proof.
  unfold JS.includes. rewrite existsb_exists. split.
  - intros (y & Hy & E). apply String.eqb_eq in E. subst. by apply list_elem_of_In.
  - intros H. exists x. split; [by apply list_elem_of_In | apply String.eqb_refl].
Qed.

Section DiscoveryFacts.
Variable options : Client.GitHubClientOptions.
Variable listMergedPRs : string -> string -> string -> string -> option (list PullRequest).
Variable globalSearch : string -> string -> string -> option (list PullRequest).
Variable listUserOrganizations : list string.
Variable listOrgRepositories : string -> list string.
Variables username since until : string.
Hypothesis scan_own : forall repo found,
  listMergedPRs username repo since until = Some found ->
  Forall (fun p => repoFullName p = repo) found.

Lemma scanRepo_own (repo : string) (p : PullRequest) :
  p ∈ Client.scanRepo listMergedPRs username since until repo -> repoFullName p = repo.
Proof.
  unfold Client.scanRepo.
  destruct (listMergedPRs username repo since until) as [found |] eqn:E.
  - intros Hp. by apply (proj1 (Forall_forall _ _) (scan_own repo found E)).
  - by intros H%elem_of_nil.
Qed.

(** The repositories that the sweep of the organizations scans. *)
Lemma orgSweep_repos (excluded : list string) (p : PullRequest) :
  p ∈ Client.fetchPRsFromOrgRepos options listMergedPRs listUserOrganizations
        listOrgRepositories username since until excluded ->
  (repoFullName p ∉ excluded)
  /\ Client.shouldIncludeRepo options (repoFullName p) username = true
  /\ Client.nonEmpty (Client.repos options) = false
  /\ Client.scope options <> Some Client.ScopePersonal.
Proof.
  unfold Client.fetchPRsFromOrgRepos.
  destruct (bool_decide_reflect (Client.scope options = Some Client.ScopePersonal));
    [by intros H%elem_of_nil |].
  destruct (Client.nonEmpty (Client.repos options)); [by intros H%elem_of_nil |].
  intros Hp. apply list_elem_of_In, in_flat_map in Hp as (org & _ & Hp).
  apply in_flat_map in Hp as (r & Hr & Hp).
  apply list_elem_of_In, elem_of_List_filter in Hr as [_ Hr].
  apply andb_true_iff in Hr as [Hex Hinc].
  apply list_elem_of_In, scanRepo_own in Hp. subst r.
  split; [| by repeat split].
  intros Hin. apply includes_true in Hin. by rewrite Hin in Hex.
Qed.

Lemma shouldIncludeRepo_not_excluded (r : string) :
  Client.shouldIncludeRepo options r username = true ->
  Client.optIncludes (Client.excludeRepos options) r = false.
Proof.
  unfold Client.shouldIncludeRepo.
  by destruct (Client.optIncludes (Client.excludeRepos options) r).
Qed.

Lemma discovered_filtered (allPRs : list PullRequest) (p : PullRequest) :
  Client.discovered options listMergedPRs globalSearch listUserOrganizations
    listOrgRepositories username since until = Some allPRs ->
  p ∈ allPRs ->
  Client.optIncludes (Client.excludeRepos options) (repoFullName p) = false
  /\ if Client.nonEmpty (Client.repos options)
     then Client.optIncludes (Client.repos options) (repoFullName p) = true
     else Client.shouldIncludeRepo options (repoFullName p) username = true.
Proof.
  destruct (Client.nonEmpty (Client.repos options)) eqn:Erepos.
  - rewrite discovered_with_repos by assumption. intros [= <-] Hp.
    apply list_elem_of_In, in_flat_map in Hp as (r & Hr & Hp).
    apply list_elem_of_In, scanRepo_own in Hp. subst r.
    apply list_elem_of_In, elem_of_List_filter in Hr as [Hr Hex].
    split; [by destruct (Client.optIncludes (Client.excludeRepos options) _) |].
    destruct (Client.repos options) as [l |]; [| discriminate].
    by apply includes_true.
  - unfold Client.discovered. rewrite Erepos. unfold Client.fetchPRsViaGlobalSearch.
    destruct (globalSearch username since until) as [found |]; [| discriminate].
    cbn [mbind option_bind].
    assert (Hsearch : forall q,
      q ∈ List.filter
            (fun pr => Client.shouldIncludeRepo options (repoFullName pr) username) found ->
      Client.shouldIncludeRepo options (repoFullName q) username = true).
    { intros q Hq. by apply elem_of_List_filter in Hq as [_ ?]. }
    destruct (negb (default false (Client.skipOrgScan options))).
    + intros [= <-] Hp. apply elem_of_app in Hp as [Hp | Hp].
      * split; [apply shouldIncludeRepo_not_excluded |]; by apply Hsearch.
      * apply orgSweep_repos in Hp as (_ & Hinc & _).
        split; [by apply shouldIncludeRepo_not_excluded | assumption].
    + intros [= <-] Hp. split; [apply shouldIncludeRepo_not_excluded |]; by apply Hsearch.
Qed.

End DiscoveryFacts.

(** X25. The filters, end to end. Where a scan of a repository reports pull
    requests of that repository only, no pull request that
    [fetchAllMergedPRs] returns is of an excluded repository; with a
    [repos] list each is of a listed repository, and without one each is of
    a repository that [shouldIncludeRepo] accepts. *)
Theorem fetchAllMergedPRs_respects_filters
    (Date_parse : string -> option Z) (options : Client.GitHubClientOptions)
    (listMergedPRs : string -> string -> string -> string -> option (list PullRequest))
    (globalSearch : string -> string -> string -> option (list PullRequest))
    (listUserOrganizations : list string) (listOrgRepositories : string -> list string)
    (username since until : string) (result : list PullRequest) :
  (forall repo found,
     listMergedPRs username repo since until = Some found ->
     Forall (fun p => repoFullName p = repo) found) ->
  Client.fetchAllMergedPRs Date_parse options listMergedPRs globalSearch
    listUserOrganizations listOrgRepositories username since until = Some result ->
  Forall (fun p =>
    Client.optIncludes (Client.excludeRepos options) (repoFullName p) = false
    /\ if Client.nonEmpty (Client.repos options)
       then Client.optIncludes (Client.repos options) (repoFullName p) = true
       else Client.shouldIncludeRepo options (repoFullName p) username = true)
    result.
Proof.
  intros Hown. unfold Client.fetchAllMergedPRs.
  destruct (Client.discovered _ _ _ _ _ _ _ _) as [allPRs |] eqn:E; [| discriminate].
  intros [= <-]. apply Forall_forall. intros p Hp.
  apply elem_of_dedupAndSort in Hp.
  by apply (discovered_filtered options listMergedPRs globalSearch listUserOrganizations
              listOrgRepositories username since until Hown allPRs p E).
Qed.

Lemma fetchAllMergedPRs_respects_filters_witness :
  exists result,
    Client.fetchAllMergedPRs DateTime.parseISO Ex.excludeCD Ex.scanListing Ex.searchBoth
      [] (fun _ => []) "octocat" "2024-01-01" "2024-03-31" = Some result
    /\ map repoFullName result = ["a/b"]
    /\ Forall (fun p =>
         Client.optIncludes (Client.excludeRepos Ex.excludeCD) (repoFullName p) = false
         /\ if Client.nonEmpty (Client.repos Ex.excludeCD)
            then Client.optIncludes (Client.repos Ex.excludeCD) (repoFullName p) = true
            else Client.shouldIncludeRepo Ex.excludeCD (repoFullName p) "octocat" = true)
         result.
Proof.
  eexists. split; [reflexivity |]. split; [reflexivity |].
  apply (fetchAllMergedPRs_respects_filters DateTime.parseISO Ex.excludeCD Ex.scanListing
           Ex.searchBoth [] (fun _ => []) "octocat" "2024-01-01" "2024-03-31").
  - intros repo found. apply listMergedPRs_own. discriminate.
  - reflexivity.
Defined.

(** X26. The sweep of the organizations only adds to the search: where a
    scan of a repository reports pull requests of that repository only,
    every pull request of the sweep is of a repository in which the search
    found nothing, and the sweep finds nothing at all under
    [scope: 'personal'] or with a [repos] list. *)
Theorem fetchPRsFromOrgRepos_adds_new_repos
    (options : Client.GitHubClientOptions)
    (listMergedPRs : string -> string -> string -> string -> option (list PullRequest))
    (listUserOrganizations : list string) (listOrgRepositories : string -> list string)
    (username since until : string) (searchPRs : list PullRequest) :
  (forall repo found,
     listMergedPRs username repo since until = Some found ->
     Forall (fun p => repoFullName p = repo) found) ->
  let foundRepos := JS.newSet String.eqb (map repoFullName searchPRs) in
  let orgPRs :=
    Client.fetchPRsFromOrgRepos options listMergedPRs listUserOrganizations
      listOrgRepositories username since until foundRepos in
  Forall (fun p => forall q, q ∈ searchPRs -> repoFullName p <> repoFullName q) orgPRs
  /\ (Client.scope options = Some Client.ScopePersonal
      \/ Client.nonEmpty (Client.repos options) = true -> orgPRs = []).
Proof.
  intros Hown foundRepos orgPRs. split.
  - apply Forall_forall. intros p Hp q Hq E.
    apply (orgSweep_repos options listMergedPRs listUserOrganizations listOrgRepositories
             username since until Hown) in Hp as (Hout & _).
    apply Hout. unfold foundRepos. apply (elem_of_newSet _ string_eqb_spec').
    rewrite E. apply list_elem_of_In, in_map. by apply list_elem_of_In.
  - intros Hcase. destruct orgPRs as [| p ps] eqn:E; [reflexivity |]. exfalso.
    assert (Hp : p ∈ orgPRs) by (rewrite E; left).
    apply (orgSweep_repos options listMergedPRs listUserOrganizations listOrgRepositories
             username since until Hown) in Hp as (_ & _ & Hrepos & Hscope).
    destruct Hcase as [? | Hne]; [contradiction | congruence].
Qed.

Lemma fetchPRsFromOrgRepos_adds_new_repos_witness :
  Forall (fun p => forall q, q ∈ [Ex.pr5] -> repoFullName p <> repoFullName q)
    (Client.fetchPRsFromOrgRepos (Client.mkOptions None None None None None None None)
       Ex.scanListing ["a"; "c"] (fun org => [org +:+ "/b"; org +:+ "/d"])
       "octocat" "2024-01-01" "2024-03-31" (JS.newSet String.eqb (map repoFullName [Ex.pr5]))).
Proof.
  apply (fetchPRsFromOrgRepos_adds_new_repos (Client.mkOptions None None None None None None None)
           Ex.scanListing ["a"; "c"] (fun org => [org +:+ "/b"; org +:+ "/d"])
           "octocat" "2024-01-01" "2024-03-31" [Ex.pr5]).
  intros repo found. apply listMergedPRs_own. discriminate.
Defined.

(** ** The summarizer, and the pipeline from pull requests to statistics *)

Section SummarizerFacts.
Variable complete : nat -> option string.
Variable readObject : string -> option Summarizer.Item.
Variable readArray : string -> option (list (option Summarizer.Item)).

Local Abbreviation summarize := (Summarizer.summarize complete readObject).
Local Abbreviation summarizeEach := (Summarizer.summarizeEach complete readObject).
Local Abbreviation summarizeBatch := (Summarizer.summarizeBatch complete readObject readArray).
Local Abbreviation summarizeBatches :=
  (Summarizer.summarizeBatches complete readObject readArray).

Lemma summarize_summarizes (k : nat) (pr : PullRequest) :
  Rel.summarizes pr (fst (summarize k pr)) /\ snd (summarize k pr) = S k.
Proof. unfold Summarizer.summarize. by destruct (complete k). Qed.

Lemma summarizeEach_summarizes (k : nat) (prs : list PullRequest) :
  Forall2 Rel.summarizes prs (fst (summarizeEach k prs))
  /\ snd (summarizeEach k prs) = k + length prs.
Proof.
  revert k. induction prs as [| pr rest IH]; intros k; simpl; [split; [constructor | lia] |].
  destruct (summarize_summarizes k pr) as [H1 H2].
  destruct (summarize k pr) as [f k1]. simpl in H1, H2. subst k1.
  destruct (IH (S k)) as [IH1 IH2].
  destruct (summarizeEach (S k) rest) as [fs k2]. simpl in *.
  split; [by constructor | lia].
Qed.

Lemma summarizeBatch_summarizes (k : nat) (prs : list PullRequest) :
  Forall2 Rel.summarizes prs (fst (summarizeBatch k prs))
  /\ k <= snd (summarizeBatch k prs) <= k + 1 + length prs
  /\ (prs = [] -> snd (summarizeBatch k prs) = k).
Proof.
  unfold Summarizer.summarizeBatch.
  destruct prs as [| pr [| pr' rest]].
  - simpl. split; [constructor | split; [lia | done]].
  - destruct (summarize_summarizes k pr) as [H1 H2].
    destruct (summarize k pr) as [f k1]. simpl in *.
    split; [constructor; [assumption | constructor] | split; [lia | done]].
  - destruct (complete k) as [response |].
    + cbn [fst snd]. split; [| split; [simpl; lia | done]].
      generalize (Summarizer.parseBatchResponse readArray response (pr :: pr' :: rest)).
      intros parsedMap. generalize (pr :: pr' :: rest). intros l.
      induction l as [| p l IH]; [constructor |]. cbn [map]. constructor; [| exact IH].
      by destruct (Summarizer.mapGet parsedMap (number p)).
    + destruct (summarizeEach_summarizes (S k) (pr :: pr' :: rest)) as [H1 H2].
      split; [exact H1 |]. split; [rewrite H2; lia | done].
Qed.

Lemma batchesFrom_concat (fuel : nat) (prs : list PullRequest) (batchSize i : nat)
    (batches : list (list PullRequest)) :
  Summarizer.batchesFrom fuel prs batchSize i = Some batches ->
  concat batches = drop i prs
  /\ Forall (fun batch => batch <> [] /\ length batch <= batchSize) batches.
Proof.
  revert i batches. induction fuel as [| fuel IH]; intros i batches; [discriminate |].
  cbn [Summarizer.batchesFrom].
  destruct (Nat.ltb_spec i (length prs)) as [Hlt | Hge].
  - destruct (Summarizer.batchesFrom fuel prs batchSize (i + batchSize)) as [rest |] eqn:E;
      [| discriminate].
    intros [= <-]. destruct (IH _ _ E) as [IH1 IH2].
    unfold Summarizer.slice. replace (i + batchSize - i) with batchSize by lia.
    split.
    + cbn [concat]. rewrite IH1, <- drop_drop. apply take_drop.
    + constructor; [| exact IH2]. split.
      * intros Hnil. apply (f_equal length) in Hnil.
        rewrite length_take, length_drop in Hnil. simpl in Hnil.
        assert (batchSize = 0) by lia. subst batchSize.
        rewrite Nat.add_0_r in E.
        clear -E Hlt. revert rest E. induction fuel as [| fuel IHf]; [discriminate |].
        intros rest. cbn [Summarizer.batchesFrom].
        destruct (Nat.ltb_spec i (length prs)); [| lia]. rewrite Nat.add_0_r.
        destruct (Summarizer.batchesFrom fuel prs 0 i) eqn:E'; [| discriminate].
        intros _. by eapply IHf.
      * rewrite length_take. lia.
  - intros [= <-]. split; [| constructor]. simpl. by rewrite drop_ge.
Qed.

Lemma batchesFrom_total (fuel : nat) (prs : list PullRequest) (batchSize i : nat) :
  1 <= batchSize -> length prs - i < fuel ->
  is_Some (Summarizer.batchesFrom fuel prs batchSize i).
Proof.
  intros Hb. revert i. induction fuel as [| fuel IH]; intros i Hf; [lia |].
  cbn [Summarizer.batchesFrom].
  destruct (Nat.ltb_spec i (length prs)) as [Hlt | Hge]; [| by eexists].
  destruct (IH (i + batchSize)) as [rest E]; [lia |]. rewrite E. by eexists.
Qed.

Lemma summarizeBatches_summarizes (k : nat) (batches : list (list PullRequest)) :
  Forall (fun batch => batch <> [] /\ length batch <= length batch) batches ->
  Forall2 Rel.summarizes (concat batches) (fst (summarizeBatches k batches))
  /\ k <= snd (summarizeBatches k batches) <= k + 2 * length (concat batches).
Proof.
  intros Hb. revert k. induction Hb as [| batch rest [Hne _] Hrest IH]; intros k; simpl.
  - split; [constructor | lia].
  - destruct (summarizeBatch_summarizes k batch) as (H1 & H2 & _).
    destruct (summarizeBatch k batch) as [fs k1]. simpl in H1, H2.
    destruct (IH k1) as [IH1 IH2].
    destruct (summarizeBatches k1 rest) as [fs' k2]. simpl in *.
    split; [by apply Forall2_app |].
    rewrite length_app. destruct batch; [done |]. simpl in *. lia.
Qed.

Lemma summarizePRsBatch_summarizes (fuel k : nat) (prs : list PullRequest) (batchSize : nat)
    (features : list Feature) (k' : nat) :
  Summarizer.summarizePRsBatch complete readObject readArray fuel k prs batchSize
    = Some (features, k') ->
  Forall2 Rel.summarizes prs features /\ k <= k' <= k + 2 * length prs.
Proof.
  unfold Summarizer.summarizePRsBatch.
  destruct (Summarizer.batchesFrom fuel prs batchSize 0) as [batches |] eqn:E; [| discriminate].
  cbn [mbind option_bind]. intros [= Hrun].
  apply batchesFrom_concat in E as [Hcat Hall]. rewrite drop_0 in Hcat.
  destruct (summarizeBatches_summarizes k batches) as [H1 H2].
  { eapply Forall_impl; [exact Hall |]. intros b [? _]. split; [assumption | lia]. }
  rewrite Hcat in H1, H2.
  destruct (summarizeBatches k batches) as [fs k2]. injection Hrun as <- <-. by split.
Qed.

End SummarizerFacts.

(** X27. Whatever the model answers, and whether it answers at all,
    [summarizeBatch] gives one feature per pull request, in order, and each
    carries its pull request's repository, number and dates; it calls the
    model at most once more than there are pull requests, and not at all for
    none. *)
Theorem summarizeBatch_per_pr
    (complete : nat -> option string) (readObject : string -> option Summarizer.Item)
    (readArray : string -> option (list (option Summarizer.Item)))
    (k : nat) (prs : list PullRequest) :
  let result := Summarizer.summarizeBatch complete readObject readArray k prs in
  Forall2 Rel.summarizes prs (fst result)
  /\ k <= snd result <= k + 1 + length prs
  /\ (prs = [] -> snd result = k).
Proof. apply summarizeBatch_summarizes. Qed.

(** X28. With a batch size of at least 1, [summarizePRsBatch] comes back:
    with one feature per pull request, in order, each carrying its pull
    request's repository, number and dates, after at most two calls of the
    model per pull request. *)
Theorem summarizePRsBatch_total
    (complete : nat -> option string) (readObject : string -> option Summarizer.Item)
    (readArray : string -> option (list (option Summarizer.Item)))
    (k : nat) (prs : list PullRequest) (batchSize : nat) :
  1 <= batchSize ->
  exists features k',
    Summarizer.summarizePRsBatch complete readObject readArray (S (length prs)) k prs batchSize
      = Some (features, k')
    /\ Forall2 Rel.summarizes prs features
    /\ k <= k' <= k + 2 * length prs.
Proof.
  intros Hb.
  destruct (batchesFrom_total (S (length prs)) prs batchSize 0 Hb) as [batches E]; [lia |].
  destruct (Summarizer.summarizePRsBatch complete readObject readArray (S (length prs)) k prs
              batchSize) as [[features k'] |] eqn:Erun.
  - exists features, k'. split; [reflexivity |].
    by apply (summarizePRsBatch_summarizes complete readObject readArray _ _ _ _ _ _ Erun).
  - unfold Summarizer.summarizePRsBatch in Erun. rewrite E in Erun. discriminate.
Qed.

Lemma summarizePRsBatch_total_witness :
  exists features k',
    Summarizer.summarizePRsBatch (fun _ => None) (fun _ => None) (fun _ => None)
      4 0 [Ex.pr1; Ex.pr2; Ex.pr5] 2 = Some (features, k')
    /\ Forall2 Rel.summarizes [Ex.pr1; Ex.pr2; Ex.pr5] features
    /\ 0 <= k' <= 0 + 2 * 3.
Proof.
  apply (summarizePRsBatch_total (fun _ => None) (fun _ => None) (fun _ => None)
           0 [Ex.pr1; Ex.pr2; Ex.pr5] 2).
  lia.
Defined.

Lemma pairs_of_summaries (pulls : list PullRequest) (features : list Feature) :
  Forall2 Rel.summarizes pulls features ->
  flat_map (fun f => map (pair (project f)) (prs f)) features = map Spec.prId pulls.
Proof.
  induction 1 as [| pr f pulls features (Hp & Hn & _) _ IH]; [reflexivity |].
  cbn [flat_map map]. rewrite IH, Hp, Hn. reflexivity.
Qed.

(** X29. From discovery to statistics, no pull request is lost and none is
    counted twice: the [totalPRs] of the statistics of the grouped summaries
    of the pull requests that [fetchAllMergedPRs] returns is the number of
    those pull requests, whatever the model answers and however the
    features are merged. *)
Theorem pipeline_counts_every_pr
    (Date_parse : string -> option Z) (options : Client.GitHubClientOptions)
    (listMergedPRs : string -> string -> string -> string -> option (list PullRequest))
    (globalSearch : string -> string -> string -> option (list PullRequest))
    (listUserOrganizations : list string) (listOrgRepositories : string -> list string)
    (username since until : string)
    (complete : nat -> option string) (readObject : string -> option Summarizer.Item)
    (readArray : string -> option (list (option Summarizer.Item)))
    (fuel k k' batchSize : nat) (prs : list PullRequest) (features : list Feature) :
  Client.fetchAllMergedPRs Date_parse options listMergedPRs globalSearch
    listUserOrganizations listOrgRepositories username since until = Some prs ->
  Summarizer.summarizePRsBatch complete readObject readArray fuel k prs batchSize
    = Some (features, k') ->
  Stats.totalPRs (Grouping.calculateStats (Grouping.groupFeatures Date_parse features))
  = length prs.
Proof.
  intros Hfetch Hsum.
  apply summarizePRsBatch_summarizes in Hsum as [Hsum _].
  unfold Grouping.calculateStats. rewrite calculateStats_fold. cbn [Stats.totalPRs].
  rewrite totalPRs_counts_pairs, (pairs_of_summaries prs features Hsum).
  rewrite size_list_to_set, length_map; [reflexivity |].
  unfold Client.fetchAllMergedPRs in Hfetch.
  destruct (Client.discovered _ _ _ _ _ _ _ _) as [allPRs |]; [| discriminate].
  injection Hfetch as <-.
  rewrite (dedupAndSort_perm Date_parse allPRs). apply keepFirst_NoDup.
Qed.

Lemma pipeline_counts_every_pr_witness :
  exists prs features,
    Client.fetchAllMergedPRs DateTime.parseISO Ex.onlyRepoAB Ex.scanAB (fun _ _ _ => None)
      [] (fun _ => []) "octocat" "2024-01-01" "2024-03-31" = Some prs
    /\ fst <$> Summarizer.summarizePRsBatch (fun _ => None) (fun _ => None) (fun _ => None)
                 3 0 prs 5 = Some features
    /\ length prs = 2
    /\ Stats.totalPRs
         (Grouping.calculateStats (Grouping.groupFeatures DateTime.parseISO features))
       = length prs.
Proof.
  eexists _, _. split; [reflexivity |]. split; [reflexivity |]. split; [reflexivity |].
  eapply (pipeline_counts_every_pr DateTime.parseISO Ex.onlyRepoAB Ex.scanAB
            (fun _ _ _ => None) [] (fun _ => []) "octocat" "2024-01-01" "2024-03-31"
            (fun _ => None) (fun _ => None) (fun _ => None) 3 0 _ 5);
    reflexivity.
Defined.

(** ** Lists on the command line *)

Lemma splitAt_chars (sep : ascii) (s cur w : string) :
  Inv.everyChar (fun c => c <> sep) cur ->
  w ∈ JS.splitAt sep s cur -> Inv.everyChar (fun c => c <> sep) w.
Proof.
  revert cur. induction s as [| c s IH]; intros cur Hcur Hw; simpl in Hw.
  - apply list_elem_of_singleton in Hw. by subst.
  - destruct (Ascii.eqb_spec c sep) as [-> | Hne].
    + apply elem_of_cons in Hw as [-> | Hw]; [assumption | by apply (IH "")].
    + apply (IH (cur +:+ String c "")); [by apply everyChar_snoc | assumption].
Qed.

Lemma everyChar_trimStart (P : ascii -> Prop) (s : string) :
  Inv.everyChar P s -> Inv.everyChar P (JS.trimStart s).
Proof.
  induction s as [| c s IH]; simpl; [done |]. intros [Hc Hs].
  destruct (JS.isSpace c); [by apply IH | by split].
Qed.

Lemma everyChar_trimEnd (P : ascii -> Prop) (s : string) :
  Inv.everyChar P s -> Inv.everyChar P (JS.trimEnd s).
Proof.
  induction s as [| c s IH]; simpl; [done |]. intros [Hc Hs].
  destruct (JS.isSpace c && _); simpl; [exact I | split; [assumption | by apply IH]].
Qed.

Lemma split_concat (sep : ascii) (piece : string) (pieces : list string) :
  Forall (Inv.everyChar (fun c => c <> sep)) (piece :: pieces) ->
  JS.split sep (String.concat (String sep "") (piece :: pieces)) = piece :: pieces.
Proof.
  unfold JS.split. revert piece. induction pieces as [| y l IH]; intros x Hall.
  - apply Forall_cons in Hall as [Hx _]. cbn [String.concat].
    rewrite <- (append_nil_l x) at 1.
    assert (E : "" +:+ x = x +:+ "").
    { rewrite append_nil_l. clear. induction x as [| c x IH]; [reflexivity |].
      by rewrite append_cons, <- IH. }
    rewrite E, splitAt_piece by assumption. by rewrite append_nil_l.
  - apply Forall_cons in Hall as [Hx Hrest]. rewrite concat_cons_more.
    rewrite splitAt_piece by assumption. rewrite append_cons, !append_nil_l.
    cbn [JS.splitAt]. rewrite Ascii.eqb_refl. f_equal. by apply IH.
Qed.

(** X30. [parseList]: every entry it gives is not empty, has no white space
    at either end and no comma; and of a comma-separated list of pieces
    without commas it gives the pieces, trimmed, the blank ones left out. *)
Theorem parseList_spec :
  (forall value,
     Forall (fun s => s <> "" /\ JS.trim s = s /\ Inv.everyChar (fun c => c <> ","%char) s)
       (Cli.parseList value))
  /\ (forall pieces,
        Forall (Inv.everyChar (fun c => c <> ","%char)) pieces ->
        Cli.parseList (String.concat "," pieces)
        = List.filter (fun s => Nat.ltb 0 (String.length s)) (map JS.trim pieces)).
Proof.
  split.
  - intros value. apply Forall_forall. intros s Hs. unfold Cli.parseList in Hs.
    apply elem_of_List_filter in Hs as [Hs Hlen].
    apply list_elem_of_In, in_map_iff in Hs as (w & <- & Hw). apply list_elem_of_In in Hw.
    split; [| split].
    + intros E. rewrite E in Hlen. discriminate.
    + apply trim_idem.
    + apply everyChar_trimEnd, everyChar_trimStart.
      by apply (splitAt_chars ","%char value "" w).
  - intros [| piece pieces] Hall; [reflexivity |].
    unfold Cli.parseList. by rewrite split_concat.
Qed.

Lemma parseList_spec_witness :
  Cli.parseList (String.concat "," ["a/b"; " c/d"; "  "; "e/f "]) = ["a/b"; "c/d"; "e/f"].
Proof.
  rewrite (proj2 parseList_spec ["a/b"; " c/d"; "  "; "e/f "]); [reflexivity |].
  repeat constructor; discriminate.
Defined.
